(** * Verification of the docling conversion core

    A shallow embedding of three source files of the repository:

    - [docling/document_converter.py]: the format options, format
      dispatch, the pipeline cache and the result stream
      ([Module Converter], [Module ConverterMore], [Module ConverterPool],
      [Module CacheLock]);
    - [docling/pipeline/standard_pdf_pipeline.py]: the artifacts check of
      the constructor and [_assemble_document]: the units of the
      document, its images and the confidence aggregation
      ([Module StandardPdf], [Module StandardPdfAssemble]);
    - [docling/models/tesseract_ocr_model.py]: the constructor of
      [TesseractOcrModel], [__call__] and its per-rectangle OCR loop
      ([Module Tesseract], [Module TesseractMore], [Module TesseractPool]).

    Python exceptions are values of [exn]; a method of a stateful object is
    a function from the state to an outcome and the state it leaves; a
    generator is a tree of resumption points ([GenStep]).  Collaborators
    whose sources live outside these files (pydantic, hashlib, numpy,
    tesserocr, the pipelines' [execute]) are the fields of a class per
    module ([Collaborators], [Numpy], [TesserOcr], [BaseOcr], [Imaging]);
    every theorem holds for all their instances, and [Module Scenario] and
    [Module ScenarioMore] give some to run the definitions on. *)

From Stdlib Require Import ZArith QArith Qround Lia.
From stdpp Require Import base option list gmap strings pretty.

Open Scope string_scope.
Open Scope list_scope.

(** ** Exceptions and generators *)

Inductive exn : Type :=
| ConversionError (msg : string)
| RuntimeError (msg : string)
| ImportError (msg : string)
| KeyError (key : string)
| ValueError (msg : string)
| AssertionError
| StopIteration.

#[global] Instance exn_eq_dec : EqDecision exn.
Proof. solve_decision. Defined.

(** One resumption of a generator that runs over a mutable state [St]:
    it yields a value and waits (the state it is resumed in is whatever
    the consumer left), returns, or raises.  A generator that raised or
    returned has nothing left to run. *)
Inductive GenStep (St A : Type) : Type :=
| GYield (a : A) (s : St) (k : St -> GenStep St A)
| GReturn (s : St)
| GRaise (e : exn) (s : St).

Arguments GYield {St A} a s k.
Arguments GReturn {St A} s.
Arguments GRaise {St A} e s.

(** [list(gen)]: pull until the generator stops, never touching the state
    between two pulls. *)
Fixpoint drain {St A} (g : GenStep St A) : list A * option exn * St :=
  match g with
  | GYield a s k => let '(l, o, s') := drain (k s) in (a :: l, o, s')
  | GReturn s => ([], None, s)
  | GRaise e s => ([], Some e, s)
  end.

Definition yields {St A} (g : GenStep St A) : list A := (drain g).1.1.
Definition outcome {St A} (g : GenStep St A) : option exn := (drain g).1.2.

(** [next(gen)] on a fresh generator. *)
Definition next {St A} (g : GenStep St A) : (exn + A) * St :=
  match g with
  | GYield a s _ => (inr a, s)
  | GReturn s => (inl StopIteration, s)
  | GRaise e s => (inl e, s)
  end.

Module Converter.

(** ** Data model of [document_converter.py] *)

(** The formats that [_get_default_option] has an entry for. *)
Inductive InputFormat : Type :=
| CSV | XLSX | DOCX | PPTX | MD | ASCIIDOC | HTML | XML_USPTO | XML_JATS
| IMAGE | PDF | JSON_DOCLING | AUDIO.

#[global] Instance InputFormat_eq_dec : EqDecision InputFormat.
Proof. solve_decision. Defined.

Definition InputFormat_to_nat (f : InputFormat) : nat :=
  match f with
  | CSV => 0 | XLSX => 1 | DOCX => 2 | PPTX => 3 | MD => 4 | ASCIIDOC => 5
  | HTML => 6 | XML_USPTO => 7 | XML_JATS => 8 | IMAGE => 9 | PDF => 10
  | JSON_DOCLING => 11 | AUDIO => 12
  end.

Definition InputFormat_of_nat (n : nat) : InputFormat :=
  match n with
  | 0 => CSV | 1 => XLSX | 2 => DOCX | 3 => PPTX | 4 => MD | 5 => ASCIIDOC
  | 6 => HTML | 7 => XML_USPTO | 8 => XML_JATS | 9 => IMAGE | 10 => PDF
  | 11 => JSON_DOCLING | _ => AUDIO
  end.

#[global] Instance InputFormat_countable : Countable InputFormat.
Proof.
  apply (inj_countable' InputFormat_to_nat InputFormat_of_nat).
  by intros [].
Defined.

(** [list(InputFormat)], in declaration order. *)
Definition all_formats : list InputFormat :=
  [DOCX; PPTX; HTML; IMAGE; PDF; ASCIIDOC; MD; CSV; XLSX; XML_USPTO;
   XML_JATS; JSON_DOCLING; AUDIO].

(** Modelled from the spec: the status taxonomy of a document
    ([ConversionStatus] is declared in [datamodel/base_models.py]). *)
Inductive ConversionStatus : Type :=
| SUCCESS | PARTIAL_SUCCESS | FAILURE | SKIPPED.

#[global] Instance ConversionStatus_eq_dec : EqDecision ConversionStatus.
Proof. solve_decision. Defined.

(** Modelled from the spec: the component an [ErrorItem] is attributed
    to; the converter only ever names [USER_INPUT]. *)
Inductive DoclingComponentType : Type :=
| DOCUMENT_BACKEND | MODEL | DOC_ASSEMBLER | USER_INPUT.

#[global] Instance DoclingComponentType_eq_dec : EqDecision DoclingComponentType.
Proof. solve_decision. Defined.

(** Pipeline and backend classes; a class is identified by itself. *)
Inductive PipelineCls : Type :=
| SimplePipeline | StandardPdfPipeline | AsrPipeline.

#[global] Instance PipelineCls_eq_dec : EqDecision PipelineCls.
Proof. solve_decision. Defined.

Definition PipelineCls_to_nat (c : PipelineCls) : nat :=
  match c with SimplePipeline => 0 | StandardPdfPipeline => 1 | AsrPipeline => 2 end.

Definition PipelineCls_of_nat (n : nat) : PipelineCls :=
  match n with 0 => SimplePipeline | 1 => StandardPdfPipeline | _ => AsrPipeline end.

#[global] Instance PipelineCls_countable : Countable PipelineCls.
Proof.
  apply (inj_countable' PipelineCls_to_nat PipelineCls_of_nat).
  by intros [].
Defined.

Inductive BackendCls : Type :=
| AsciiDocBackend | CsvDocumentBackend | DoclingParseV4DocumentBackend
| HTMLDocumentBackend | DoclingJSONBackend | MarkdownDocumentBackend
| MsExcelDocumentBackend | MsPowerpointDocumentBackend
| MsWordDocumentBackend | NoOpBackend | JatsDocumentBackend
| PatentUsptoDocumentBackend.

#[global] Instance BackendCls_eq_dec : EqDecision BackendCls.
Proof. solve_decision. Defined.

Record ErrorItem : Type := {
  component_type : DoclingComponentType;
  module_name : string;
  error_message : string;
}.

Record InputDocument : Type := {
  file : string;
  format : InputFormat;
  valid : bool;
  backend_of : BackendCls;
}.

Record ConversionResult : Type := {
  input : InputDocument;
  status : ConversionStatus;
  errors : list ErrorItem;
}.

Record DocumentLimits : Type := {
  max_num_pages : Z;
  max_file_size : Z;
  page_range : Z * Z;
}.

(** How a status is rendered inside an error message. *)
Definition status_str (s : ConversionStatus) : string :=
  match s with
  | SUCCESS => "ConversionStatus.SUCCESS"
  | PARTIAL_SUCCESS => "ConversionStatus.PARTIAL_SUCCESS"
  | FAILURE => "ConversionStatus.FAILURE"
  | SKIPPED => "ConversionStatus.SKIPPED"
  end.

(** Modelled from the spec: [docling.utils.utils.chunkify], which is not
    among the source files.  The spec has the engine partition the
    sequence of documents into fixed-size batches:
    [chunkify(iterator, chunk_size)] gives a first element and up to
    [chunk_size - 1] more, until the iterator is empty.  The size is
    positive; what [chunkify] does with a size of zero or less is not
    modelled. *)
Fixpoint chunkify_fuel {A} (fuel : nat) (chunk_size : positive) (l : list A)
  : list (list A) :=
  match fuel, l with
  | S fuel', first :: rest =>
      (first :: take (Pos.to_nat chunk_size - 1) rest)
        :: chunkify_fuel fuel' chunk_size (drop (Pos.to_nat chunk_size - 1) rest)
  | _, _ => []
  end.

Definition chunkify {A} (l : list A) (chunk_size : positive) : list (list A) :=
  chunkify_fuel (length l) chunk_size l.

(** How an enum member is rendered inside a message. *)
Definition format_str (f : InputFormat) : string :=
  match f with
  | CSV => "InputFormat.CSV" | XLSX => "InputFormat.XLSX"
  | DOCX => "InputFormat.DOCX" | PPTX => "InputFormat.PPTX"
  | MD => "InputFormat.MD" | ASCIIDOC => "InputFormat.ASCIIDOC"
  | HTML => "InputFormat.HTML" | XML_USPTO => "InputFormat.XML_USPTO"
  | XML_JATS => "InputFormat.XML_JATS" | IMAGE => "InputFormat.IMAGE"
  | PDF => "InputFormat.PDF" | JSON_DOCLING => "InputFormat.JSON_DOCLING"
  | AUDIO => "InputFormat.AUDIO"
  end.

(** [FormatOption]: the binding of a format to a pipeline class, its
    options and a backend class. *)
Record FormatOption (Options : Type) : Type := {
  pipeline_cls : PipelineCls;
  pipeline_options : option Options;
  backend : BackendCls;
}.

Arguments pipeline_cls {Options} _.
Arguments pipeline_options {Options} _.
Arguments backend {Options} _.

(** A constructed pipeline; [pipeline_id] is the identity of the object. *)
Record Pipeline (Options : Type) : Type := {
  pipeline_id : nat;
  pipeline_class_of : PipelineCls;
  pipeline_options_of : Options;
}.

Arguments pipeline_id {Options} _.
Arguments pipeline_class_of {Options} _.
Arguments pipeline_options_of {Options} _.

Record _DocumentConversionInput (Source : Type) : Type := {
  path_or_stream_iterator : list Source;
  limits : DocumentLimits;
  headers : option (gmap string string);
}.

Arguments path_or_stream_iterator {Source} _.
Arguments limits {Source} _.
Arguments headers {Source} _.

(** What the converter takes from outside [document_converter.py]. *)
Class Collaborators : Type := {
  (** the options value object ([datamodel/pipeline_options.py]) *)
  PipelineOptions : Type;
  (** a source: a [Path], a [str] or a [DocumentStream] *)
  Source : Type;
  (** [str(pipeline_options.model_dump())] *)
  str_model_dump : PipelineOptions -> string;
  (** [hashlib.md5(s.encode("utf-8"), usedforsecurity=False).hexdigest()] *)
  md5_hexdigest : string -> string;
  (** [pipeline_cls.get_default_options()] *)
  get_default_options : PipelineCls -> PipelineOptions;
  (** what [pipeline_cls(pipeline_options=...)] raises, if it raises *)
  pipeline_init : PipelineCls -> PipelineOptions -> option exn;
  (** [settings.perf]: the batch size, taken to be positive (a size of
      zero or less is outside what is modelled, see [chunkify]), and the
      number of workers *)
  doc_batch_size : positive;
  doc_batch_concurrency : Z;
  (** [pipeline.execute(in_doc, raises_on_error)] *)
  execute : Pipeline PipelineOptions -> InputDocument -> bool -> exn + ConversionResult;
  (** [conv_input.docs(format_options)]: the documents of the sources, in
      submission order; see [one_document_per_source] *)
  docs : _DocumentConversionInput Source ->
         gmap InputFormat (FormatOption PipelineOptions) -> list InputDocument;
}.

Section converter.

Context {collaborators : Collaborators}.

(** The converter object.  [next_object] is not an attribute: it counts
    the pipeline objects created so far and names the next one. *)
Record DocumentConverter : Type := {
  allowed_formats : option (list InputFormat);
  format_to_options : gmap InputFormat (FormatOption PipelineOptions);
  initialized_pipelines : gmap (PipelineCls * string) (Pipeline PipelineOptions);
  next_object : nat;
}.

(** A method: from the converter to what it returns or raises, and the
    converter it leaves. *)
Definition M (A : Type) : Type :=
  DocumentConverter -> (exn + A) * DocumentConverter.

(** The [model_validator] of [FormatOption]. *)
Definition set_optional_field_default (self : FormatOption PipelineOptions)
  : FormatOption PipelineOptions :=
  match pipeline_options self with
  | None =>
      {| pipeline_cls := pipeline_cls self;
         pipeline_options := Some (get_default_options (pipeline_cls self));
         backend := backend self |}
  | Some _ => self
  end.

(** [FormatOption(pipeline_cls=..., backend=...)] *)
Definition new_FormatOption (cls : PipelineCls) (b : BackendCls)
  : FormatOption PipelineOptions :=
  set_optional_field_default
    {| pipeline_cls := cls; pipeline_options := None; backend := b |}.

Definition format_to_default_options : gmap InputFormat (FormatOption PipelineOptions) :=
  list_to_map
    [ (CSV, new_FormatOption SimplePipeline CsvDocumentBackend);
      (XLSX, new_FormatOption SimplePipeline MsExcelDocumentBackend);
      (DOCX, new_FormatOption SimplePipeline MsWordDocumentBackend);
      (PPTX, new_FormatOption SimplePipeline MsPowerpointDocumentBackend);
      (MD, new_FormatOption SimplePipeline MarkdownDocumentBackend);
      (ASCIIDOC, new_FormatOption SimplePipeline AsciiDocBackend);
      (HTML, new_FormatOption SimplePipeline HTMLDocumentBackend);
      (XML_USPTO, new_FormatOption SimplePipeline PatentUsptoDocumentBackend);
      (XML_JATS, new_FormatOption SimplePipeline JatsDocumentBackend);
      (IMAGE, new_FormatOption StandardPdfPipeline DoclingParseV4DocumentBackend);
      (PDF, new_FormatOption StandardPdfPipeline DoclingParseV4DocumentBackend);
      (JSON_DOCLING, new_FormatOption SimplePipeline DoclingJSONBackend);
      (AUDIO, new_FormatOption AsrPipeline NoOpBackend) ].

Definition _get_default_option (format : InputFormat)
  : exn + FormatOption PipelineOptions :=
  match format_to_default_options !! format with
  | Some options => inr options
  | None =>
      inl (RuntimeError ("No default options configured for " +:+ format_str format))
  end.

(** The dict comprehension of [__init__], one format at a time. *)
Fixpoint format_to_options_of (formats : list InputFormat)
    (format_options : gmap InputFormat (FormatOption PipelineOptions))
    (acc : gmap InputFormat (FormatOption PipelineOptions))
  : exn + gmap InputFormat (FormatOption PipelineOptions) :=
  match formats with
  | [] => inr acc
  | format :: rest =>
      match format_options !! format with
      | None =>
          match _get_default_option format with
          | inl e => inl e
          | inr o => format_to_options_of rest format_options (<[format := o]> acc)
          end
      | Some custom_option =>
          format_to_options_of rest format_options (<[format := custom_option]> acc)
      end
  end.

Definition __init__ (allowed_formats : option (list InputFormat))
    (format_options : option (gmap InputFormat (FormatOption PipelineOptions)))
  : exn + DocumentConverter :=
  let allowed := default all_formats allowed_formats in
  match format_to_options_of allowed (default ∅ format_options) ∅ with
  | inl e => inl e
  | inr m =>
      inr {| allowed_formats := Some allowed;
             format_to_options := m;
             initialized_pipelines := ∅;
             next_object := 0 |}
  end.

Definition _get_pipeline_options_hash (pipeline_options : PipelineOptions) : string :=
  let options_str := str_model_dump pipeline_options in
  md5_hexdigest options_str.

(** [_get_pipeline]; the body from the membership test to the return
    runs with [_PIPELINE_CACHE_LOCK] held. *)
Definition _get_pipeline (doc_format : InputFormat)
  : M (option (Pipeline PipelineOptions)) :=
  fun self =>
  match format_to_options self !! doc_format with
  | None => (inr None, self)
  | Some fopt =>
      match pipeline_options fopt with
      | None => (inr None, self)
      | Some pipeline_options =>
          let pipeline_class := pipeline_cls fopt in
          let options_hash := _get_pipeline_options_hash pipeline_options in
          let cache_key := (pipeline_class, options_hash) in
          let lookup_and_return (self : DocumentConverter) :=
            match initialized_pipelines self !! cache_key with
            | Some p => (inr (Some p), self)
            | None => (inl (KeyError options_hash), self)
            end in
          match initialized_pipelines self !! cache_key with
          | None =>
              match pipeline_init pipeline_class pipeline_options with
              | Some e => (inl e, self)
              | None =>
                  let p := {| pipeline_id := next_object self;
                              pipeline_class_of := pipeline_class;
                              pipeline_options_of := pipeline_options |} in
                  lookup_and_return
                    {| allowed_formats := allowed_formats self;
                       format_to_options := format_to_options self;
                       initialized_pipelines :=
                         <[cache_key := p]> (initialized_pipelines self);
                       next_object := S (next_object self) |}
              end
          | Some _ => lookup_and_return self
          end
      end
  end.

Definition initialize_pipeline (format : InputFormat) : M unit :=
  fun self =>
  match _get_pipeline format self with
  | (inl e, self') => (inl e, self')
  | (inr None, self') =>
      (inl (ConversionError
              ("No pipeline could be initialized for format " +:+ format_str format)),
       self')
  | (inr (Some _), self') => (inr tt, self')
  end.

Definition _execute_pipeline (in_doc : InputDocument) (raises_on_error : bool)
  : M ConversionResult :=
  fun self =>
  if valid in_doc then
    match _get_pipeline (format in_doc) self with
    | (inl e, self') => (inl e, self')
    | (inr (Some pipeline), self') =>
        (execute pipeline in_doc raises_on_error, self')
    | (inr None, self') =>
        if raises_on_error then
          (inl (ConversionError
                  ("No pipeline could be initialized for " +:+ file in_doc +:+ ".")),
           self')
        else
          (inr {| input := in_doc; status := FAILURE; errors := [] |}, self')
    end
  else
    if raises_on_error then
      (inl (ConversionError ("Input document " +:+ file in_doc +:+ " is not valid.")),
       self)
    else
      (inr {| input := in_doc; status := FAILURE; errors := [] |}, self).

Definition _process_document (in_doc : InputDocument) (raises_on_error : bool)
  : M ConversionResult :=
  fun self =>
  let valid :=
    match allowed_formats self with
    | None => false
    | Some allowed => bool_decide (format in_doc ∈ allowed)
    end in
  if valid then _execute_pipeline in_doc raises_on_error self
  else
    let error_message := "File format not allowed: " +:+ file in_doc in
    if raises_on_error then (inl (ConversionError error_message), self)
    else
      let error_item :=
        {| component_type := USER_INPUT;
           module_name := "";
           error_message := error_message |} in
      (inr {| input := in_doc; status := SKIPPED; errors := [error_item] |}, self).

(** *** The result stream *)

Abbreviation Stream := (GenStep DocumentConverter ConversionResult).

(** [for item in map(process_func, input_batch): ...; yield item], then
    whatever follows the loop.  [map] is lazy: a document is processed
    when its result is pulled. *)
Fixpoint yield_map (raises_on_error : bool) (input_batch : list InputDocument)
    (after : DocumentConverter -> Stream) (self : DocumentConverter) : Stream :=
  match input_batch with
  | [] => after self
  | in_doc :: rest =>
      match _process_document in_doc raises_on_error self with
      | (inl e, self') => GRaise e self'
      | (inr item, self') => GYield item self' (yield_map raises_on_error rest after)
      end
  end.

(** [pool.map(process_func, input_batch)] submits the whole batch at
    once; each future holds a result or the exception of its worker.
    The workers share only the pipeline cache, which they reach under
    the lock; the schedule modelled here runs them to completion in
    submission order. *)
Fixpoint pool_map (raises_on_error : bool) (input_batch : list InputDocument)
    (self : DocumentConverter)
  : list (exn + ConversionResult) * DocumentConverter :=
  match input_batch with
  | [] => ([], self)
  | in_doc :: rest =>
      let '(r, self') := _process_document in_doc raises_on_error self in
      let '(rs, self'') := pool_map raises_on_error rest self' in
      (r :: rs, self'')
  end.

(** [for item in pool.map(...): yield item]: the futures are read in
    submission order and a worker's exception is raised when its future
    is read. *)
Fixpoint yield_futures (futures : list (exn + ConversionResult))
    (after : DocumentConverter -> Stream) (self : DocumentConverter) : Stream :=
  match futures with
  | [] => after self
  | inl e :: _ => GRaise e self
  | inr item :: rest => GYield item self (yield_futures rest after)
  end.

Fixpoint _convert_batches (batches : list (list InputDocument))
    (raises_on_error : bool) (self : DocumentConverter) : Stream :=
  match batches with
  | [] => GReturn self
  | input_batch :: more =>
      if bool_decide (1 < doc_batch_concurrency)%Z
         && bool_decide (1 < Z.pos doc_batch_size)%Z
      then
        let '(futures, self') := pool_map raises_on_error input_batch self in
        yield_futures futures (_convert_batches more raises_on_error) self'
      else
        yield_map raises_on_error input_batch
          (_convert_batches more raises_on_error) self
  end.

Definition _convert (conv_input : _DocumentConversionInput Source)
    (raises_on_error : bool)
    (self : DocumentConverter) : Stream :=
  _convert_batches
    (chunkify (docs conv_input (format_to_options self)) doc_batch_size)
    raises_on_error self.

Definition status_ok (conv_res : ConversionResult) : bool :=
  bool_decide (status conv_res ∈ [SUCCESS; PARTIAL_SUCCESS]).

Definition conversion_failed_msg (conv_res : ConversionResult) : string :=
  "Conversion failed for: " +:+ file (input conv_res)
  +:+ " with status: " +:+ status_str (status conv_res).

Definition no_result_msg : string :=
  "Conversion failed because the provided file has no recognizable format or it wasn't in the list of allowed formats.".

(** The loop of [convert_all] over [conv_res_iter] and the check after
    it; [had_result] is the flag of the source. *)
Fixpoint convert_all_loop (raises_on_error had_result : bool) (conv_res_iter : Stream)
  : Stream :=
  match conv_res_iter with
  | GYield conv_res self k =>
      if raises_on_error && negb (status_ok conv_res) then
        GRaise (ConversionError (conversion_failed_msg conv_res)) self
      else
        GYield conv_res self
          (fun self' => convert_all_loop raises_on_error true (k self'))
  | GReturn self =>
      if negb had_result && raises_on_error then
        GRaise (ConversionError no_result_msg) self
      else GReturn self
  | GRaise e self => GRaise e self
  end.

Definition convert_all (source : list Source) (headers : option (gmap string string))
    (raises_on_error : bool) (max_num_pages max_file_size : Z) (page_range : Z * Z)
    (self : DocumentConverter) : Stream :=
  let limits :=
    {| max_num_pages := max_num_pages;
       max_file_size := max_file_size;
       page_range := page_range |} in
  let conv_input :=
    {| path_or_stream_iterator := source; limits := limits; headers := headers |} in
  let conv_res_iter := _convert conv_input raises_on_error self in
  convert_all_loop raises_on_error false conv_res_iter.

Definition convert (source : Source) (headers : option (gmap string string))
    (raises_on_error : bool) (max_num_pages max_file_size : Z) (page_range : Z * Z)
  : M ConversionResult :=
  fun self =>
  let all_res :=
    convert_all [source] headers raises_on_error max_num_pages max_file_size
      page_range self in
  next all_res.

(** *** Reference points for the statements *)

(** The documents processed one after the other, from the first to the
    first that raises. *)
Fixpoint process_in_order (raises_on_error : bool) (in_docs : list InputDocument)
    (self : DocumentConverter)
  : list ConversionResult * option exn * DocumentConverter :=
  match in_docs with
  | [] => ([], None, self)
  | in_doc :: rest =>
      match _process_document in_doc raises_on_error self with
      | (inl e, self') => ([], Some e, self')
      | (inr conv_res, self') =>
          let '(rs, o, self'') := process_in_order raises_on_error rest self' in
          (conv_res :: rs, o, self'')
      end
  end.

(** What is pulled from a run followed by a generator. *)
Definition then_drain (run : list ConversionResult * option exn * DocumentConverter)
    (after : DocumentConverter -> Stream)
  : list ConversionResult * option exn * DocumentConverter :=
  match run with
  | (rs, None, self) => let '(rs', o, self') := drain (after self) in (rs ++ rs', o, self')
  | (rs, Some e, self) => (rs, Some e, self)
  end.

(** Modelled from the spec: [_DocumentConversionInput.docs], which is not
    among the source files.  In the spec's data model an InputDocument
    identifies one source and is "created once per source at dispatch
    time": [docs] gives one document for each source, whatever its
    format. *)
Definition one_document_per_source : Prop :=
  forall conv_input format_options,
    length (docs conv_input format_options)
    = length (path_or_stream_iterator conv_input).

(** The statuses that strict mode lets through. *)
Definition succeeded (conv_res : ConversionResult) : Prop :=
  status conv_res = SUCCESS \/ status conv_res = PARTIAL_SUCCESS.

(** The format is in the allowed-format set of the converter. *)
Definition allowed (self : DocumentConverter) (f : InputFormat) : Prop :=
  exists formats, allowed_formats self = Some formats /\ f ∈ formats.

(** The key under which [_get_pipeline] caches the pipeline of an option. *)
Definition cache_key (fopt : FormatOption PipelineOptions)
  : option (PipelineCls * string) :=
  o ← pipeline_options fopt;
  Some (pipeline_cls fopt, _get_pipeline_options_hash o).

(** Every cached pipeline is an object created before [next_object], and
    no object is cached under two keys. *)
Definition well_formed (self : DocumentConverter) : Prop :=
  (forall k p, initialized_pipelines self !! k = Some p ->
               (pipeline_id p < next_object self)%nat)
  /\ (forall k k' p p',
        initialized_pipelines self !! k = Some p ->
        initialized_pipelines self !! k' = Some p' ->
        pipeline_id p = pipeline_id p' -> k = k').

End converter.

End Converter.

(** ** [_get_pipeline] under concurrent callers

    [N] worker threads call [_get_pipeline] for one and the same cache key.
    A thread is at one of the program points of lines 330-343; the lock,
    the cache entry of the key and the number of constructor calls are
    shared.  One [step] is one thread running to its next program point. *)
Module CacheLock.

Inductive pc : Type :=
| AtWith                 (* about to enter [with _PIPELINE_CACHE_LOCK] *)
| AtTest                 (* lock held, at [if cache_key not in ...] *)
| AtConstruct            (* lock held, at the call [pipeline_class(...)] *)
| AtStore (p : nat)      (* lock held, [p] constructed, at the assignment *)
| AtReturn               (* lock held, at [return ...[cache_key]] *)
| Returned (p : nat)     (* left the block with the instance [p] *)
| Raised.                (* left the block with an exception *)

#[global] Instance pc_eq_dec : EqDecision pc.
Proof. solve_decision. Defined.

Record state : Type := {
  lock : option nat;           (* the thread that holds the lock *)
  cache : option nat;          (* [initialized_pipelines.get(cache_key)] *)
  constructor_calls : nat;     (* calls of [pipeline_class(...)] so far *)
  constructor_raises : nat;    (* how many of them raised *)
  threads : list pc;
}.

Definition set_pc (t : nat) (c : pc) (s : state) : list pc := <[t := c]> (threads s).

(** A constructed pipeline is named by the number of the call that made
    it.  A constructor may return or raise. *)
Inductive step : state -> state -> Prop :=
| step_acquire t s :
    threads s !! t = Some AtWith -> lock s = None ->
    step s {| lock := Some t; cache := cache s;
              constructor_calls := constructor_calls s;
              constructor_raises := constructor_raises s;
              threads := set_pc t AtTest s |}
| step_test_absent t s :
    threads s !! t = Some AtTest -> cache s = None ->
    step s {| lock := lock s; cache := cache s;
              constructor_calls := constructor_calls s;
              constructor_raises := constructor_raises s;
              threads := set_pc t AtConstruct s |}
| step_test_present t s p :
    threads s !! t = Some AtTest -> cache s = Some p ->
    step s {| lock := lock s; cache := cache s;
              constructor_calls := constructor_calls s;
              constructor_raises := constructor_raises s;
              threads := set_pc t AtReturn s |}
| step_construct_returns t s :
    threads s !! t = Some AtConstruct ->
    step s {| lock := lock s; cache := cache s;
              constructor_calls := S (constructor_calls s);
              constructor_raises := constructor_raises s;
              threads := set_pc t (AtStore (constructor_calls s)) s |}
| step_construct_raises t s :
    threads s !! t = Some AtConstruct ->
    step s {| lock := None; cache := cache s;
              constructor_calls := S (constructor_calls s);
              constructor_raises := S (constructor_raises s);
              threads := set_pc t Raised s |}
| step_store t s p :
    threads s !! t = Some (AtStore p) ->
    step s {| lock := lock s; cache := Some p;
              constructor_calls := constructor_calls s;
              constructor_raises := constructor_raises s;
              threads := set_pc t AtReturn s |}
| step_return t s p :
    threads s !! t = Some AtReturn -> cache s = Some p ->
    step s {| lock := None; cache := cache s;
              constructor_calls := constructor_calls s;
              constructor_raises := constructor_raises s;
              threads := set_pc t (Returned p) s |}
| step_return_missing t s :
    threads s !! t = Some AtReturn -> cache s = None ->
    step s {| lock := None; cache := cache s;
              constructor_calls := constructor_calls s;
              constructor_raises := constructor_raises s;
              threads := set_pc t Raised s |}.

(** First use: nothing cached for the key, nobody in the block. *)
Definition initial (N : nat) : state :=
  {| lock := None; cache := None; constructor_calls := 0;
     constructor_raises := 0; threads := replicate N AtWith |}.

Definition reachable (N : nat) (s : state) : Prop := rtc step (initial N) s.

Definition in_block (c : pc) : bool :=
  match c with
  | AtTest | AtConstruct | AtStore _ | AtReturn => true
  | _ => false
  end.

Definition finished (c : pc) : bool :=
  match c with
  | Returned _ | Raised => true
  | _ => false
  end.

Definition all_finished (s : state) : Prop := Forall (fun c => finished c = true) (threads s).

(** Where a thread may be while nothing is cached and every constructor
    call so far raised; while the one constructed pipeline waits to be
    stored; and once [p] is cached. *)
Definition before_construction (c : pc) : bool :=
  match c with
  | AtWith | AtTest | AtConstruct | Raised => true
  | _ => false
  end.

Definition during_store (c : pc) : bool :=
  match c with
  | AtWith | AtStore _ | Raised => true
  | _ => false
  end.

Definition after_store (p : nat) (c : pc) : bool :=
  match c with
  | AtWith | AtTest | AtReturn | Raised => true
  | Returned q => bool_decide (q = p)
  | _ => false
  end.

Definition phase (s : state) : Prop :=
  (cache s = None /\ constructor_calls s = constructor_raises s /\
   Forall (fun c => before_construction c = true) (threads s))
  \/ (cache s = None /\ constructor_calls s = S (constructor_raises s) /\
      (exists t p, threads s !! t = Some (AtStore p)) /\
      Forall (fun c => during_store c = true) (threads s))
  \/ (exists p, cache s = Some p /\ constructor_calls s = S (constructor_raises s) /\
      Forall (fun c => after_store p c = true) (threads s)).

Record invariant (N : nat) (s : state) : Prop := {
  inv_length : length (threads s) = N;
  inv_holder : forall t c, threads s !! t = Some c -> in_block c = true -> lock s = Some t;
  inv_lock : forall t, lock s = Some t ->
             exists c, threads s !! t = Some c /\ in_block c = true;
  inv_raised : forall t, threads s !! t = Some Raised -> (0 < constructor_raises s)%nat;
  inv_phase : phase s;
}.

End CacheLock.

(** ** Confidence aggregation of [standard_pdf_pipeline.py] *)
Module StandardPdf.

(** The start of [StandardPdfPipeline.__init__] (lines 44-54): the
    artifacts folder comes from the options, else from the settings, and
    must be a folder when it is given. *)
Definition artifacts_path_of (expanduser : string -> string) (is_dir : string -> bool)
    (options_artifacts_path settings_artifacts_path : option string)
  : exn + option string :=
  let artifacts_path :=
    match options_artifacts_path with
    | Some p => Some (expanduser p)
    | None =>
        match settings_artifacts_path with
        | Some p => Some (expanduser p)
        | None => None
        end
    end in
  match artifacts_path with
  | Some p =>
      if is_dir p then inr (Some p)
      else
        inl (RuntimeError
               ("The value of artifacts_path=PosixPath('" +:+ p +:+ "') is not valid. "
                +:+ "When defined, it must point to a folder containing all models required by the pipeline."))
  | None => inr None
  end.

(** What the aggregation takes from numpy: Python floats and the two
    reductions, each already wrapped in [float(...)]. *)
Class Numpy : Type := {
  float : Type;
  (** [float(np.nanmean(xs))] *)
  nanmean : list float -> float;
  (** [float(np.nanquantile(xs, q=q))] *)
  nanquantile : list float -> Q -> float;
}.

Section assemble.

Context {numpy : Numpy}.

Record PageConfidenceScores : Type := {
  parse_score : float;
  layout_score : float;
  table_score : float;
  ocr_score : float;
}.

(** [ConfidenceReport] has the four scores of the document, read with the
    same attribute names as a page's, and the per-page scores by page
    number, in insertion order. *)
Record ConfidenceReport : Type := {
  document_scores : PageConfidenceScores;
  confidence_pages : list (Z * PageConfidenceScores);
}.

Record Page : Type := {
  page_no : Z;
}.

Record ConversionResult : Type := {
  pages : list Page;
  confidence : ConfidenceReport;
}.

(** [conv_res.confidence.pages.values()] *)
Definition values (c : ConfidenceReport) : list PageConfidenceScores :=
  (confidence_pages c).*2.

Definition set_layout_score (x : float) (c : ConfidenceReport) : ConfidenceReport :=
  {| document_scores :=
       {| parse_score := parse_score (document_scores c);
          layout_score := x;
          table_score := table_score (document_scores c);
          ocr_score := ocr_score (document_scores c) |};
     confidence_pages := confidence_pages c |}.

Definition set_parse_score (x : float) (c : ConfidenceReport) : ConfidenceReport :=
  {| document_scores :=
       {| parse_score := x;
          layout_score := layout_score (document_scores c);
          table_score := table_score (document_scores c);
          ocr_score := ocr_score (document_scores c) |};
     confidence_pages := confidence_pages c |}.

Definition set_table_score (x : float) (c : ConfidenceReport) : ConfidenceReport :=
  {| document_scores :=
       {| parse_score := parse_score (document_scores c);
          layout_score := layout_score (document_scores c);
          table_score := x;
          ocr_score := ocr_score (document_scores c) |};
     confidence_pages := confidence_pages c |}.

Definition set_ocr_score (x : float) (c : ConfidenceReport) : ConfidenceReport :=
  {| document_scores :=
       {| parse_score := parse_score (document_scores c);
          layout_score := layout_score (document_scores c);
          table_score := table_score (document_scores c);
          ocr_score := x |};
     confidence_pages := confidence_pages c |}.

(** Lines 253-281 of [_assemble_document]: the four assignments, in the
    order of the source, each reading the report the previous one left. *)
Definition aggregate_confidence (conv_res : ConversionResult) : ConversionResult :=
  if bool_decide (0 < length (pages conv_res))%nat then
    let c0 := confidence conv_res in
    let c1 := set_layout_score (nanmean (layout_score <$> values c0)) c0 in
    let c2 := set_parse_score (nanquantile (parse_score <$> values c1) (1 # 10)) c1 in
    let c3 := set_table_score (nanmean (table_score <$> values c2)) c2 in
    let c4 := set_ocr_score (nanmean (ocr_score <$> values c3)) c3 in
    {| pages := pages conv_res; confidence := c4 |}
  else conv_res.

End assemble.

(** *** numpy over exact rationals

    A float is a rational or NaN ([None]).  [exact_nanmean] and
    [exact_nanquantile] follow numpy's documentation: NaNs are dropped,
    an empty rest gives NaN, and the quantile interpolates linearly
    between the two order statistics around [q * (n - 1)]. *)
Definition drop_nan (xs : list (option Q)) : list Q := omap id xs.

Definition Qsum (xs : list Q) : Q := foldr Qplus 0%Q xs.

Definition exact_nanmean (xs : list (option Q)) : option Q :=
  match drop_nan xs with
  | [] => None
  | x :: rest => Some (Qred (Qsum (x :: rest) / inject_Z (Z.of_nat (length (x :: rest)))))
  end.

Fixpoint insert_sorted (x : Q) (xs : list Q) : list Q :=
  match xs with
  | [] => [x]
  | y :: ys => if Qle_bool x y then x :: y :: ys else y :: insert_sorted x ys
  end.

Definition sorted (xs : list Q) : list Q := foldr insert_sorted [] xs.

Definition exact_nanquantile (xs : list (option Q)) (q : Q) : option Q :=
  match sorted (drop_nan xs) with
  | [] => None
  | x :: rest =>
      let arr := x :: rest in
      let n := length arr in
      let virtual_index := (q * inject_Z (Z.of_nat (n - 1)))%Q in
      let previous := Qfloor virtual_index in
      let gamma := (virtual_index - inject_Z previous)%Q in
      let lo := nth (Z.to_nat previous) arr x in
      let hi := nth (Nat.min (Z.to_nat previous + 1) (n - 1)) arr x in
      Some (Qred (lo + (hi - lo) * gamma))
  end.

Definition exact_numpy : Numpy :=
  {| float := option Q; nanmean := exact_nanmean; nanquantile := exact_nanquantile |}.

End StandardPdf.

(** ** The OCR loop of [tesseract_ocr_model.py] *)
Module Tesseract.

Inductive CoordOrigin : Type := TOPLEFT | BOTTOMLEFT.

Record BoundingBox : Type := {
  bbox_l : Q;
  bbox_t : Q;
  bbox_r : Q;
  bbox_b : Q;
  coord_origin : CoordOrigin;
}.

(** A box of [GetComponentImages]: the dict with keys x, y, w and h. *)
Record TessBox : Type := {
  box_x : Z;
  box_y : Z;
  box_w : Z;
  box_h : Z;
}.

(** What [DetectOrientationScript] returns when it returns. *)
Record Osd : Type := {
  orient_deg : Z;
  script_name : string;
}.

(** A [tesserocr.PyTessBaseAPI] object, told apart by the language it was
    opened with ([None]: opened without [lang]). *)
Record Reader : Type := {
  reader_lang : option string;
}.

#[global] Instance Reader_eq_dec : EqDecision Reader.
Proof. solve_decision. Defined.

(** What the loop takes from tesserocr, PIL, the page backend,
    [docling_core] and [docling.utils.ocr_utils]. *)
Class TesserOcr : Type := {
  Image : Type;
  PageBackend : Type;
  BoundingRectangle : Type;
  (** [ocr_rect.area()] *)
  area : BoundingBox -> Q;
  (** [page._backend.get_page_image(scale=..., cropbox=...)] *)
  get_page_image : PageBackend -> Z -> BoundingBox -> Image;
  (** [image.rotate(angle, expand=True)] *)
  rotate : Image -> Z -> Image;
  (** [image.size] *)
  size : Image -> Z * Z;
  (** [osd_reader.SetImage(image); osd_reader.DetectOrientationScript()] *)
  DetectOrientationScript : Image -> option Osd;
  (** [parse_tesseract_orientation(osd["orient_deg"])], where it returns.
      The functions of [docling.utils.ocr_utils] are not among the source
      files and are taken as they return; they raise a [ValueError] for
      an argument they do not accept, which ends [__call__]: see
      [raised_reading] of [TesseractMore.BaseOcr]. *)
  parse_tesseract_orientation : Z -> Z;
  map_tesseract_script : string -> string;
  (** [reader.SetImage(image); reader.GetComponentImages(RIL.TEXTLINE, True)] *)
  GetComponentImages : Reader -> Image -> list TessBox;
  (** [reader.SetRectangle(box); reader.GetUTF8Text()] *)
  GetUTF8Text : Reader -> Image -> TessBox -> string;
  (** [reader.SetRectangle(box); reader.MeanTextConf()] *)
  MeanTextConf : Reader -> Image -> TessBox -> Z;
  (** [tesseract_box_to_bounding_rectangle(bbox, original_offset=...,
      scale=..., orientation=..., im_size=...)], where it returns *)
  tesseract_box_to_bounding_rectangle :
    BoundingBox -> BoundingBox -> Z -> Z -> Z * Z -> BoundingRectangle;
  (** [str.strip] *)
  strip : string -> string;
}.

Section ocr.

Context {tesserocr : TesserOcr}.

Record TextCell : Type := {
  index : nat;
  text : string;
  orig : string;
  from_ocr : bool;
  confidence : Z;
  rect : BoundingRectangle;
}.

(** The calls the loop makes on its collaborators, in order. *)
Inductive event : Type :=
| EGetPageImage (scale : Z) (cropbox : BoundingBox)
| EOsdSetImage (im : Image)
| EDetectOrientationScript
| ELogError (page_i ocr_rect_i : nat)
| ELogWarning (script lang : string)
| ENewReader (lang : string)
| ESetImage (reader : Reader) (im : Image)
| EGetComponentImages (reader : Reader)
| ESetRectangle (reader : Reader) (box : TessBox)
| EGetUTF8Text (reader : Reader)
| EMeanTextConf (reader : Reader).

(** The attributes of the model that the loop reads; [script_readers] is
    the one it writes. *)
Record TesseractOcrModel : Type := {
  _is_auto : bool;
  scale : Z;
  reader : Reader;
  script_readers : gmap string Reader;
  script_prefix : string;
  _tesserocr_languages : list string;
}.

Definition set_script_readers (m : gmap string Reader) (self : TesseractOcrModel)
  : TesseractOcrModel :=
  {| _is_auto := _is_auto self; scale := scale self; reader := reader self;
     script_readers := m; script_prefix := script_prefix self;
     _tesserocr_languages := _tesserocr_languages self |}.

(** Lines 197-238: line detection on the image and one cell per box. *)
Definition recognize (local_reader : Reader) (high_res_image : Image)
    (ocr_rect : BoundingBox) (scale doc_orientation : Z)
  : list TextCell * list event :=
  let boxes := GetComponentImages local_reader high_res_image in
  let cell (ix : nat) (box : TessBox) :=
    let text := strip (GetUTF8Text local_reader high_res_image box) in
    let confidence := MeanTextConf local_reader high_res_image box in
    let left := box_x box in
    let top := box_y box in
    let right := (left + box_w box)%Z in
    let bottom := (top + box_h box)%Z in
    let bbox :=
      {| bbox_l := inject_Z left; bbox_t := inject_Z top;
         bbox_r := inject_Z right; bbox_b := inject_Z bottom;
         coord_origin := TOPLEFT |} in
    {| index := ix; text := text; orig := text; from_ocr := true;
       confidence := confidence;
       rect := tesseract_box_to_bounding_rectangle bbox ocr_rect scale
                 doc_orientation (size high_res_image) |} in
  (imap cell boxes,
   ESetImage local_reader high_res_image :: EGetComponentImages local_reader
     :: flat_map (fun box => [ESetRectangle local_reader box;
                              EGetUTF8Text local_reader;
                              EMeanTextConf local_reader]) boxes).

(** Lines 172-195: the block under [if self._is_auto:], reached with a
    detection result. *)
Definition select_reader (self : TesseractOcrModel) (osd : Osd)
  : TesseractOcrModel * Reader * list event :=
  let script := script_name osd in
  let script := map_tesseract_script script in
  let lang := script_prefix self +:+ script in
  if bool_decide (lang ∉ _tesserocr_languages self) then
    (self, reader self, [ELogWarning script lang])
  else
    match script_readers self !! script with
    | None =>
        let new_reader := {| reader_lang := Some lang |} in
        (set_script_readers (<[script := new_reader]> (script_readers self)) self,
         new_reader, [ENewReader lang])
    | Some r => (self, r, [])
    end.

(** The body of the loop over [enumerate(ocr_rects)] (lines 138-241):
    the model it leaves, the cells it adds and the calls it makes. *)
Definition ocr_rect_body (self : TesseractOcrModel) (backend : PageBackend)
    (page_i : nat) (ocr_rect_i : nat) (ocr_rect : BoundingBox)
  : TesseractOcrModel * list TextCell * list event :=
  if Qeq_bool (area ocr_rect) 0 then (self, [], [])
  else
    let high_res_image := get_page_image backend (scale self) ocr_rect in
    let local_reader := reader self in
    let ev0 :=
      [EGetPageImage (scale self) ocr_rect; EOsdSetImage high_res_image;
       EDetectOrientationScript] in
    match DetectOrientationScript high_res_image with
    | None =>
        let ev1 := ev0 ++ [ELogError page_i ocr_rect_i] in
        if _is_auto self then (self, [], ev1)
        else
          let doc_orientation := 0%Z in
          let '(cells, ev) :=
            recognize local_reader high_res_image ocr_rect (scale self)
              doc_orientation in
          (self, cells, ev1 ++ ev)
    | Some osd =>
        let doc_orientation := parse_tesseract_orientation (orient_deg osd) in
        let high_res_image :=
          if bool_decide (doc_orientation ≠ 0%Z)
          then rotate high_res_image (- doc_orientation)
          else high_res_image in
        let '(self', local_reader, ev1) :=
          if _is_auto self then select_reader self osd
          else (self, local_reader, []) in
        let '(cells, ev) :=
          recognize local_reader high_res_image ocr_rect (scale self)
            doc_orientation in
        (self', cells, ev0 ++ ev1 ++ ev)
    end.

(** [for ocr_rect_i, ocr_rect in enumerate(ocr_rects)]: [all_ocr_cells]
    and the calls made. *)
Fixpoint ocr_rects_loop (self : TesseractOcrModel) (backend : PageBackend)
    (page_i : nat) (ocr_rects : list (nat * BoundingBox))
  : TesseractOcrModel * list TextCell * list event :=
  match ocr_rects with
  | [] => (self, [], [])
  | (ocr_rect_i, ocr_rect) :: rest =>
      let '(self1, cells, ev) := ocr_rect_body self backend page_i ocr_rect_i ocr_rect in
      let '(self2, all_ocr_cells, evs) := ocr_rects_loop self1 backend page_i rest in
      (self2, cells ++ all_ocr_cells, ev ++ evs)
  end.

(** [enumerate(ocr_rects)] *)
Definition enumerate {A} (xs : list A) : list (nat * A) := imap pair xs.

Definition nonzero_area (ir : nat * BoundingBox) : bool :=
  negb (Qeq_bool (area ir.2) 0).

(** Calls that hand an image or a box to a recogniser (the default
    reader or a script reader). *)
Definition recognizer_call (e : event) : bool :=
  match e with
  | ESetImage _ _ | EGetComponentImages _ | ESetRectangle _ _
  | EGetUTF8Text _ | EMeanTextConf _ => true
  | _ => false
  end.

End ocr.

End Tesseract.

(** ** A concrete setting

    Options with two fields, a file system with one folder, pipelines
    whose construction runs the artifacts check of [StandardPdfPipeline]
    and whose [execute] fails on one file name.  The theorems below hold
    for every setting; this one instantiates them. *)
Module Scenario.

Import Converter.

Record Options : Type := {
  artifacts_path : option string;
  do_ocr : bool;
}.

Definition str_dump (o : Options) : string :=
  "{'artifacts_path': "
  +:+ match artifacts_path o with
     | None => "None"
     | Some p => "'" +:+ p +:+ "'"
     end
  +:+ ", 'do_ocr': " +:+ (if do_ocr o then "True" else "False") +:+ "}".

(** A stand-in for the digest: the serialised options themselves. *)
Definition digest (s : string) : string := s.

Definition is_dir (p : string) : bool := bool_decide (p = "/opt/models").

Definition init (cls : PipelineCls) (o : Options) : option exn :=
  match cls with
  | StandardPdfPipeline =>
      match StandardPdf.artifacts_path_of id is_dir (artifacts_path o) None with
      | inl e => Some e
      | inr _ => None
      end
  | _ => None
  end.

Definition run (p : Pipeline Options) (d : InputDocument) (raises_on_error : bool)
  : exn + ConversionResult :=
  inr {| input := d;
         status := if bool_decide (file d = "scan.pdf") then FAILURE else SUCCESS;
         errors := [] |}.

(** Modelled from the spec: one document per source.  A source is a file
    name and the format guessed for it; its document has the backend of
    the option for that format and is valid, or, when there is no option
    for the format, has a backend that is of no use and is not valid. *)
Definition documents (conv_input : _DocumentConversionInput (string * InputFormat))
    (format_options : gmap InputFormat (FormatOption Options)) : list InputDocument :=
  (fun src : string * InputFormat =>
     match format_options !! src.2 with
     | Some o =>
         {| file := src.1; format := src.2; valid := true; backend_of := backend o |}
     | None =>
         {| file := src.1; format := src.2; valid := false; backend_of := NoOpBackend |}
     end)
    <$> path_or_stream_iterator conv_input.

Definition setting (batch : positive) (concurrency : Z) : Collaborators :=
  {| PipelineOptions := Options;
     Source := string * InputFormat;
     str_model_dump := str_dump;
     md5_hexdigest := digest;
     get_default_options := fun _ => {| artifacts_path := None; do_ocr := true |};
     pipeline_init := init;
     doc_batch_size := batch;
     doc_batch_concurrency := concurrency;
     execute := run;
     docs := documents |}.



Definition sequential : Collaborators := setting 1 1.
Definition pooled : Collaborators := setting 4 2.

Definition pdf_options (path : option string) (ocr : bool) (b : BackendCls)
  : FormatOption Options :=
  {| pipeline_cls := StandardPdfPipeline;
     pipeline_options := Some {| artifacts_path := path; do_ocr := ocr |};
     backend := b |}.

(** [DocumentConverter(allowed_formats, format_options)], or an empty
    converter if the constructor raised. *)
Definition converter (c : Collaborators) (allowed : option (list InputFormat))
    (format_options : option (gmap InputFormat (FormatOption (@PipelineOptions c))))
  : @DocumentConverter c :=
  match @__init__ c allowed format_options with
  | inr self => self
  | inl _ =>
      {| allowed_formats := None; format_to_options := ∅;
         initialized_pipelines := ∅; next_object := 0 |}
  end.

(** PDF and IMAGE share options by value and differ in the backend; DOCX
    has the same pipeline class with other options. *)
Definition shared_options : gmap InputFormat (FormatOption Options) :=
  {[ PDF := pdf_options None true DoclingParseV4DocumentBackend;
     IMAGE := pdf_options None true NoOpBackend;
     DOCX := pdf_options None false MsWordDocumentBackend ]}.

(** PDF pipelines are to find their models in a folder that is missing. *)
Definition missing_folder : gmap InputFormat (FormatOption Options) :=
  {[ PDF := pdf_options (Some "/missing") true DoclingParseV4DocumentBackend ]}.

(** *** Documents, converters and streams *)

Definition docx (name : string) : InputDocument :=
  {| file := name; format := DOCX; valid := true; backend_of := MsWordDocumentBackend |}.

Definition pdf (name : string) : InputDocument :=
  {| file := name; format := PDF; valid := true;
     backend_of := DoclingParseV4DocumentBackend |}.

Definition audio (name : string) : InputDocument :=
  {| file := name; format := AUDIO; valid := true; backend_of := NoOpBackend |}.

(** The document of a file whose format has no option. *)
Definition notes_md : InputDocument :=
  {| file := "notes.md"; format := MD; valid := false; backend_of := NoOpBackend |}.

Definition result_of (d : InputDocument) (st : ConversionStatus) : ConversionResult :=
  {| input := d; status := st; errors := [] |}.

Definition missing_folder_error : exn :=
  RuntimeError
    "The value of artifacts_path=PosixPath('/missing') is not valid. When defined, it must point to a folder containing all models required by the pipeline.".

(** A converter for PDF, IMAGE and DOCX with the given options, in a
    setting with the given batch size and concurrency. *)
Definition converter_of (batch : positive) (concurrency : Z)
    (format_options : gmap InputFormat (FormatOption Options))
  : @DocumentConverter (setting batch concurrency) :=
  converter (setting batch concurrency) (Some [PDF; IMAGE; DOCX]) (Some format_options).

(** [convert_all(source, raises_on_error=...)] on that converter. *)
Definition stream (batch : positive) (concurrency : Z) (raises_on_error : bool)
    (source : list (string * InputFormat))
    (format_options : gmap InputFormat (FormatOption Options))
  : GenStep (@DocumentConverter (setting batch concurrency)) ConversionResult :=
  @convert_all (setting batch concurrency) source None raises_on_error 100 100
    (1, 100)%Z (converter_of batch concurrency format_options).

Definition shared : @DocumentConverter sequential := converter_of 1 1 shared_options.


(** The converter after [_get_pipeline] was called for PDF. *)
Definition shared_after_pdf : @DocumentConverter sequential :=
  (@_get_pipeline sequential PDF shared).2.

Definition first_pipeline : Pipeline Options :=
  {| pipeline_id := 0; pipeline_class_of := StandardPdfPipeline;
     pipeline_options_of := {| artifacts_path := None; do_ocr := true |} |}.


Definition only_pdf : @DocumentConverter sequential :=
  converter sequential (Some [PDF]) None.

(** *** Confidence scores of a five-page document, with exact rationals *)

Definition page_scores (parse layout table ocr : option Q)
  : @StandardPdf.PageConfidenceScores StandardPdf.exact_numpy :=
  @StandardPdf.Build_PageConfidenceScores StandardPdf.exact_numpy
    parse layout table ocr.

Definition nan : option Q := None.

(** The parse scores are those of the example in the specification; one
    page has no layout score and no page has a table score. *)
Definition five_pages : @StandardPdf.ConversionResult StandardPdf.exact_numpy :=
  {| StandardPdf.pages :=
       [ {| StandardPdf.page_no := 0 |}; {| StandardPdf.page_no := 1 |};
         {| StandardPdf.page_no := 2 |}; {| StandardPdf.page_no := 3 |};
         {| StandardPdf.page_no := 4 |} ];
     StandardPdf.confidence :=
       {| StandardPdf.document_scores := page_scores nan nan nan nan;
          StandardPdf.confidence_pages :=
            [ (0%Z, page_scores (Some (9 # 10)) (Some (8 # 10)) nan (Some (1 # 2)));
              (1%Z, page_scores (Some (95 # 100)) nan nan (Some (1 # 2)));
              (2%Z, page_scores (Some (2 # 10)) (Some (6 # 10)) nan (Some (1 # 2)));
              (3%Z, page_scores (Some (97 # 100)) (Some (7 # 10)) nan (Some (1 # 2)));
              (4%Z, page_scores (Some (99 # 100)) (Some (7 # 10)) nan (Some (1 # 2))) ] |} |}.

Definition no_pages : @StandardPdf.ConversionResult StandardPdf.exact_numpy :=
  {| StandardPdf.pages := [];
     StandardPdf.confidence :=
       {| StandardPdf.document_scores := page_scores nan nan nan nan;
          StandardPdf.confidence_pages := [] |} |}.

(** *** A page for the OCR loop

    An image is the crop it was rendered from and the angle it was turned
    by.  The detector finds no text in crops left of x = 50. *)

Definition box_area (bb : Tesseract.BoundingBox) : Q :=
  ((Tesseract.bbox_r bb - Tesseract.bbox_l bb)
   * (Tesseract.bbox_b bb - Tesseract.bbox_t bb))%Q.

Definition tess : Tesseract.TesserOcr :=
  {| Tesseract.Image := Tesseract.BoundingBox * Z;
     Tesseract.PageBackend := unit;
     Tesseract.BoundingRectangle := Tesseract.BoundingBox * Z;
     Tesseract.area := box_area;
     Tesseract.get_page_image := fun _ _ crop => (crop, 0%Z);
     Tesseract.rotate := fun im angle => (im.1, (im.2 + angle)%Z);
     Tesseract.size := fun _ => (300%Z, 100%Z);
     Tesseract.DetectOrientationScript := fun im =>
       if Qle_bool (Tesseract.bbox_r im.1) 50 then None
       else Some {| Tesseract.orient_deg := 0; Tesseract.script_name := "Latin" |};
     Tesseract.parse_tesseract_orientation := fun deg => deg;
     Tesseract.map_tesseract_script := fun script => script;
     Tesseract.GetComponentImages := fun _ _ =>
       [ {| Tesseract.box_x := 0; Tesseract.box_y := 0;
            Tesseract.box_w := 30; Tesseract.box_h := 10 |} ];
     Tesseract.GetUTF8Text := fun _ _ _ => "text";
     Tesseract.MeanTextConf := fun _ _ _ => 90%Z;
     Tesseract.tesseract_box_to_bounding_rectangle := fun bbox _ _ orientation _ =>
       (bbox, orientation);
     Tesseract.strip := fun s => s |}.

Definition ocr_model (is_auto : bool) : Tesseract.TesseractOcrModel :=
  {| Tesseract._is_auto := is_auto;
     Tesseract.scale := 3;
     Tesseract.reader := {| Tesseract.reader_lang := if is_auto then None else Some "eng" |};
     Tesseract.script_readers := ∅;
     Tesseract.script_prefix := "";
     Tesseract._tesserocr_languages := ["eng"; "osd"; "Latin"] |}.

Definition rectangle (l t r b : Z) : Tesseract.BoundingBox :=
  {| Tesseract.bbox_l := inject_Z l; Tesseract.bbox_t := inject_Z t;
     Tesseract.bbox_r := inject_Z r; Tesseract.bbox_b := inject_Z b;
     Tesseract.coord_origin := Tesseract.TOPLEFT |}.

Definition empty_rect : Tesseract.BoundingBox := rectangle 10 0 10 20.
Definition blank_rect : Tesseract.BoundingBox := rectangle 0 0 40 20.
Definition text_rect : Tesseract.BoundingBox := rectangle 60 0 200 20.

(** *** Two threads that both came back from [_get_pipeline] *)

Definition two_threads_done : CacheLock.state :=
  {| CacheLock.lock := None; CacheLock.cache := Some 0%nat;
     CacheLock.constructor_calls := 1; CacheLock.constructor_raises := 0;
     CacheLock.threads := [CacheLock.Returned 0; CacheLock.Returned 0] |}.

(** Two threads whose constructor calls both raised. *)
Definition two_threads_raised : CacheLock.state :=
  {| CacheLock.lock := None; CacheLock.cache := None;
     CacheLock.constructor_calls := 2; CacheLock.constructor_raises := 2;
     CacheLock.threads := [CacheLock.Raised; CacheLock.Raised] |}.

End Scenario.

(** ** More of [document_converter.py] *)

(** [P] holds in every state a generator passes through when it is pulled
    to its end by a consumer that leaves the state alone. *)
Fixpoint along {St A} (P : St -> Prop) (g : GenStep St A) : Prop :=
  match g with
  | GYield _ s k => P s /\ along P (k s)
  | GReturn s => P s
  | GRaise _ s => P s
  end.

Module ConverterMore.

Import Converter.

(** The subclasses of [FormatOption] (lines 71-128): each gives
    [pipeline_cls] and [backend] a default. *)
Inductive FormatOptionCls : Type :=
| CsvFormatOption | ExcelFormatOption | WordFormatOption | PowerpointFormatOption
| MarkdownFormatOption | AsciiDocFormatOption | HTMLFormatOption
| PatentUsptoFormatOption | XMLJatsFormatOption | ImageFormatOption
| PdfFormatOption | AudioFormatOption.

Definition class_pipeline_cls (cls : FormatOptionCls) : PipelineCls :=
  match cls with
  | CsvFormatOption | ExcelFormatOption | WordFormatOption | PowerpointFormatOption
  | MarkdownFormatOption | AsciiDocFormatOption | HTMLFormatOption
  | PatentUsptoFormatOption | XMLJatsFormatOption => SimplePipeline
  | ImageFormatOption | PdfFormatOption => StandardPdfPipeline
  | AudioFormatOption => AsrPipeline
  end.

Definition class_backend (cls : FormatOptionCls) : BackendCls :=
  match cls with
  | CsvFormatOption => CsvDocumentBackend
  | ExcelFormatOption => MsExcelDocumentBackend
  | WordFormatOption => MsWordDocumentBackend
  | PowerpointFormatOption => MsPowerpointDocumentBackend
  | MarkdownFormatOption => MarkdownDocumentBackend
  | AsciiDocFormatOption => AsciiDocBackend
  | HTMLFormatOption => HTMLDocumentBackend
  | PatentUsptoFormatOption => PatentUsptoDocumentBackend
  | XMLJatsFormatOption => JatsDocumentBackend
  | ImageFormatOption => DoclingParseV4DocumentBackend
  | PdfFormatOption => DoclingParseV4DocumentBackend
  | AudioFormatOption => NoOpBackend
  end.

(** The input format a subclass is named after. *)
Definition named_after (cls : FormatOptionCls) : InputFormat :=
  match cls with
  | CsvFormatOption => CSV
  | ExcelFormatOption => XLSX
  | WordFormatOption => DOCX
  | PowerpointFormatOption => PPTX
  | MarkdownFormatOption => MD
  | AsciiDocFormatOption => ASCIIDOC
  | HTMLFormatOption => HTML
  | PatentUsptoFormatOption => XML_USPTO
  | XMLJatsFormatOption => XML_JATS
  | ImageFormatOption => IMAGE
  | PdfFormatOption => PDF
  | AudioFormatOption => AUDIO
  end.

Section more.

Context {collaborators : Collaborators}.

(** [cls(pipeline_cls=..., pipeline_options=..., backend=...)]: a keyword
    that is not given takes the default of the subclass; the validator
    then fills in missing options. *)
Definition construct (cls : FormatOptionCls) (pipeline_cls_arg : option PipelineCls)
    (pipeline_options_arg : option PipelineOptions) (backend_arg : option BackendCls)
  : FormatOption PipelineOptions :=
  set_optional_field_default
    {| pipeline_cls := default (class_pipeline_cls cls) pipeline_cls_arg;
       pipeline_options := pipeline_options_arg;
       backend := default (class_backend cls) backend_arg |}.

(** [later] has the configuration of [earlier], every pipeline [earlier]
    has cached, under the same key, and has created no fewer objects. *)
Definition extends (earlier later : DocumentConverter) : Prop :=
  allowed_formats later = allowed_formats earlier
  /\ format_to_options later = format_to_options earlier
  /\ (forall k p, initialized_pipelines earlier !! k = Some p ->
                  initialized_pipelines later !! k = Some p)
  /\ (next_object earlier <= next_object later)%nat.

(** Every cached pipeline sits under the key computed from its own class
    and options. *)
Definition keyed_by_content (self : DocumentConverter) : Prop :=
  forall k p, initialized_pipelines self !! k = Some p ->
              k = (pipeline_class_of p,
                   _get_pipeline_options_hash (pipeline_options_of p)).

(** What [convert] does with the outcome of processing its document. *)
Definition checked (raises_on_error : bool)
    (processed : (exn + ConversionResult) * DocumentConverter)
  : (exn + ConversionResult) * DocumentConverter :=
  match processed with
  | (inr conv_res, self) =>
      if raises_on_error && negb (status_ok conv_res)
      then (inl (ConversionError (conversion_failed_msg conv_res)), self)
      else (inr conv_res, self)
  | (inl e, self) => (inl e, self)
  end.

End more.

End ConverterMore.

(** ** The worker pool under any schedule *)
Module ConverterPool.

Import Converter.

Section pool.

Context {collaborators : Collaborators}.

(** A run of the pool in which the tasks reach the converter in the order
    [schedule], a list of positions in the batch.  A task touches the
    converter once, in [_get_pipeline] and under its lock, so that every
    run of the pool is the run of some schedule.  The result of a task
    is filed under its position, the way [pool.map] hands results out. *)
Fixpoint pool_map_scheduled (raises_on_error : bool) (input_batch : list InputDocument)
    (schedule : list nat) (self : DocumentConverter)
  : gmap nat (exn + ConversionResult) * DocumentConverter :=
  match schedule with
  | [] => (∅, self)
  | i :: later =>
      match input_batch !! i with
      | None => pool_map_scheduled raises_on_error input_batch later self
      | Some in_doc =>
          let '(r, self') := _process_document in_doc raises_on_error self in
          let '(futures, self'') :=
            pool_map_scheduled raises_on_error input_batch later self' in
          (<[i := r]> futures, self'')
      end
  end.

(** [execute] looks at the class and the options of a pipeline, not at
    which object it is. *)
Definition execute_by_content : Prop :=
  forall p p' in_doc raises_on_error,
    pipeline_class_of p = pipeline_class_of p' ->
    pipeline_options_of p = pipeline_options_of p' ->
    execute p in_doc raises_on_error = execute p' in_doc raises_on_error.

(** The options the converter holds for one pipeline class have
    different digests. *)
Definition digests_tell_options_apart (self : DocumentConverter) : Prop :=
  forall f f' fopt fopt' o o',
    format_to_options self !! f = Some fopt ->
    format_to_options self !! f' = Some fopt' ->
    pipeline_cls fopt = pipeline_cls fopt' ->
    pipeline_options fopt = Some o ->
    pipeline_options fopt' = Some o' ->
    _get_pipeline_options_hash o = _get_pipeline_options_hash o' ->
    o = o'.

(** Every cached pipeline was constructed, without an exception, for an
    option the converter holds, and sits under the key of that option. *)
Definition built_from_options (self : DocumentConverter) : Prop :=
  forall k p,
    initialized_pipelines self !! k = Some p ->
    pipeline_init (pipeline_class_of p) (pipeline_options_of p) = None
    /\ k = (pipeline_class_of p, _get_pipeline_options_hash (pipeline_options_of p))
    /\ exists f fopt,
         format_to_options self !! f = Some fopt
         /\ pipeline_cls fopt = pipeline_class_of p
         /\ pipeline_options fopt = Some (pipeline_options_of p).

(** Two outcomes of [_get_pipeline] that differ at most in which object
    the pipeline is. *)
Definition same_pipeline (r r' : exn + option (Pipeline PipelineOptions)) : Prop :=
  match r, r' with
  | inl e, inl e' => e = e'
  | inr None, inr None => True
  | inr (Some p), inr (Some p') =>
      pipeline_class_of p = pipeline_class_of p'
      /\ pipeline_options_of p = pipeline_options_of p'
  | _, _ => False
  end.

(** The states a pool can be in while it runs from [self]. *)
Definition running_from (self s : DocumentConverter) : Prop :=
  built_from_options s
  /\ allowed_formats s = allowed_formats self
  /\ format_to_options s = format_to_options self.

End pool.

End ConverterPool.

(** ** More of [tesseract_ocr_model.py]: the constructor and [__call__] *)
Module TesseractMore.

(** [tesserocr.PSM] and [tesserocr.OEM], as far as the model names them. *)
Inductive PSM : Type := OSD_ONLY | AUTO.
Inductive OEM : Type := DEFAULT.

(** A value of a keyword argument of [tesserocr.PyTessBaseAPI]. *)
Inductive kwarg : Type :=
| KStr (s : string)
| KPsm (psm : PSM)
| KBool (b : bool)
| KOem (oem : OEM).

#[global] Instance PSM_eq_dec : EqDecision PSM.
Proof. solve_decision. Defined.
#[global] Instance OEM_eq_dec : EqDecision OEM.
Proof. solve_decision. Defined.
#[global] Instance kwarg_eq_dec : EqDecision kwarg.
Proof. solve_decision. Defined.

(** A dict of keyword arguments. *)
Definition kwargs : Type := gmap string kwarg.

(** Python's [a | b] on dicts: the keys of both, with the value of [b]
    where both have one. *)
Definition dict_or (a b : kwargs) : kwargs := b ∪ a.

(** A [PyTessBaseAPI] object as the OCR loop tells readers apart: by the
    language it was opened with. *)
Definition reader_of (kw : kwargs) : Tesseract.Reader :=
  {| Tesseract.reader_lang :=
       match kw !! "lang" with
       | Some (KStr l) => Some l
       | _ => None
       end |}.

(** The fields of [TesseractOcrOptions] that the model reads. *)
Record TesseractOcrOptions : Type := {
  lang : list string;
  path : option string;
}.

(** What the constructor finds on the machine: what [import tesserocr]
    raises ([None]: it succeeds), what [tesserocr.tesseract_version()]
    returns ([None]: it raises), the language list of [tesserocr.get_languages()] or the
    exception it raises, and what [tesserocr.PyTessBaseAPI] raises when
    the engine cannot be initialised with the given keyword arguments
    ([None]: it returns). *)
Record Installation : Type := {
  import_tesserocr : option exn;
  tesseract_version : option string;
  get_languages : exn + list string;
  PyTessBaseAPI : kwargs -> option exn;
}.

Definition install_errmsg : string :=
  "tesserocr is not correctly installed. "
  +:+ "Please install it via `pip install tesserocr` to use this OCR engine. "
  +:+ "Note that tesserocr might have to be manually compiled for working with "
  +:+ "your Tesseract installation. The Docling documentation provides examples for it. "
  +:+ "Alternatively, Docling has support for other OCR engines. See the documentation: "
  +:+ "https://docling-project.github.io/docling/installation/".

Definition missing_langs_errmsg : string :=
  "tesserocr is not correctly configured. No language models have been detected. "
  +:+ "Please ensure that the TESSDATA_PREFIX envvar points to tesseract languages dir. "
  +:+ "You can find more information how to setup other OCR engines in Docling "
  +:+ "documentation: "
  +:+ "https://docling-project.github.io/docling/installation/".

(** The attributes of a constructed model.  Those assigned only under
    [if self.enabled:] are [None] until they are assigned; [reader] and
    [osd_reader] are given by the keyword arguments they were opened
    with. *)
Record TesseractOcrModel : Type := {
  enabled : bool;
  options : TesseractOcrOptions;
  _is_auto : bool;
  scale : Z;
  reader : option kwargs;
  script_readers : gmap string Tesseract.Reader;
  _tesserocr_languages : option (list string);
  script_prefix : option string;
  osd_reader : option kwargs;
}.

(** [tesserocr_kwargs] as lines 88-97 leave it. *)
Definition tesserocr_kwargs (options : TesseractOcrOptions) : kwargs :=
  let tesserocr_kwargs : kwargs :=
    {[ "psm" := KPsm AUTO; "init" := KBool true; "oem" := KOem DEFAULT ]} in
  match path options with
  | Some p => <["path" := KStr p]> tesserocr_kwargs
  | None => tesserocr_kwargs
  end.

(** The keyword arguments of the reader (lines 99-104). *)
Definition reader_kwargs (options : TesseractOcrOptions) : kwargs :=
  let lang := String.concat "+" (lang options) in
  if bool_decide (lang = "auto") then tesserocr_kwargs options
  else dict_or {[ "lang" := KStr lang ]} (tesserocr_kwargs options).

(** The keyword arguments of the OSD reader (lines 105-107). *)
Definition osd_reader_kwargs (options : TesseractOcrOptions) : kwargs :=
  dict_or {[ "lang" := KStr "osd"; "psm" := KPsm OSD_ONLY ]} (tesserocr_kwargs options).

(** [TesseractOcrModel.__init__] (lines 30-108): the model, or the
    exception raised.  Only the import and the version call are inside a
    [try], the first with [except ImportError], the second with
    [except Exception]; what [get_languages] or [PyTessBaseAPI] raises
    goes to the caller. *)
Definition __init__ (enabled : bool) (options : TesseractOcrOptions)
    (installation : Installation) : exn + TesseractOcrModel :=
  let _is_auto := bool_decide ("auto" ∈ lang options) in
  let scale := 3%Z in
  if enabled then
    match import_tesserocr installation with
    | Some (ImportError _) => inl (ImportError install_errmsg)
    | Some e => inl e
    | None =>
      match tesseract_version installation with
      | None => inl (ImportError install_errmsg)
      | Some _ =>
          match get_languages installation with
          | inl e => inl e
          | inr [] => inl (ImportError missing_langs_errmsg)
          | inr (language :: languages) =>
              let _tesserocr_languages := language :: languages in
              let script_prefix :=
                if existsb (String.prefix "script/") _tesserocr_languages
                then "script/" else "" in
              let reader := reader_kwargs options in
              match PyTessBaseAPI installation reader with
              | Some e => inl e
              | None =>
                  let osd_reader := osd_reader_kwargs options in
                  match PyTessBaseAPI installation osd_reader with
                  | Some e => inl e
                  | None =>
                      inr {| enabled := enabled; options := options;
                             _is_auto := _is_auto; scale := scale;
                             reader := Some reader; script_readers := ∅;
                             _tesserocr_languages := Some _tesserocr_languages;
                             script_prefix := Some script_prefix;
                             osd_reader := Some osd_reader |}
                  end
              end
          end
      end
    end
  else
    inr {| enabled := enabled; options := options; _is_auto := _is_auto;
           scale := scale; reader := None; script_readers := ∅;
           _tesserocr_languages := None; script_prefix := None;
           osd_reader := None |}.

(** What the OCR loop reads of the model, when the three assertions at
    its head hold. *)
Definition loop_view (self : TesseractOcrModel) : option Tesseract.TesseractOcrModel :=
  match reader self, osd_reader self, _tesserocr_languages self, script_prefix self with
  | Some r, Some _, Some languages, Some prefix =>
      Some {| Tesseract._is_auto := _is_auto self;
              Tesseract.scale := scale self;
              Tesseract.reader := reader_of r;
              Tesseract.script_readers := script_readers self;
              Tesseract.script_prefix := prefix;
              Tesseract._tesserocr_languages := languages |}
  | _, _, _, _ => None
  end.

Definition set_script_readers (m : gmap string Tesseract.Reader)
    (self : TesseractOcrModel) : TesseractOcrModel :=
  {| enabled := enabled self; options := options self; _is_auto := _is_auto self;
     scale := scale self; reader := reader self; script_readers := m;
     _tesserocr_languages := _tesserocr_languages self;
     script_prefix := script_prefix self; osd_reader := osd_reader self |}.

(** What [__call__] takes from [BaseOcrModel], the page and the
    settings. *)
Class BaseOcr {tesserocr : Tesseract.TesserOcr} : Type := {
  Page : Type;
  (** [page._backend] *)
  _backend : Page -> option Tesseract.PageBackend;
  (** [page._backend.is_valid()] *)
  is_valid : Tesseract.PageBackend -> bool;
  (** [self.get_ocr_rects(page)] *)
  get_ocr_rects : Page -> list Tesseract.BoundingBox;
  (** [self.post_process_cells(all_ocr_cells, page)]: the page it leaves *)
  post_process_cells : list Tesseract.TextCell -> Page -> Page;
  (** [settings.debug.visualize_ocr] *)
  visualize_ocr : bool;
  (** The exception, if any, raised by a call that [__call__] makes while
      it reads the page at a position with the model as it is then:
      [get_ocr_rects], the backend, the OSD detector, a recogniser, the
      opening of a script reader, [post_process_cells], or the functions
      of [docling.utils.ocr_utils], which raise a [ValueError] for an
      argument they do not accept.  [Tesseract.TesserOcr] has these calls
      return; that they may raise instead is recorded here, and nothing
      in [__call__] catches what they raise. *)
  raised_reading : Tesseract.TesseractOcrModel -> nat -> Page -> option exn;
}.

Section call.

Context {tesserocr : Tesseract.TesserOcr} {base : BaseOcr}.

(** The calls [__call__] makes: those of the loop over the rectangles of
    a page, and its own on the base class. *)
Inductive call_event : Type :=
| EGetOcrRects (page_i : nat)
| ELoop (page_i : nat) (e : Tesseract.event)
| EPostProcessCells (page_i : nat) (cells : list Tesseract.TextCell)
| EDrawOcrRectsAndCells (page_i : nat).

(** The state the generator runs over: the model and the calls made so
    far. *)
Record State : Type := {
  model : TesseractOcrModel;
  trace : list call_event;
}.

(** [for page_i, page in enumerate(page_batch)] (lines 124-250).  When a
    call raises while a page is read, the exception leaves the generator;
    the state recorded with it is the one in which the page was begun. *)
Fixpoint pages_loop (page_batch : list (nat * Page)) (st : State)
  : GenStep State Page :=
  match page_batch with
  | [] => GReturn st
  | (page_i, page) :: rest =>
      match _backend page with
      | None => GRaise AssertionError st
      | Some backend =>
          if negb (is_valid backend) then GYield page st (pages_loop rest)
          else
            match loop_view (model st) with
            | None => GRaise AssertionError st
            | Some view =>
                match raised_reading view page_i page with
                | Some e => GRaise e st
                | None =>
                    let ocr_rects := get_ocr_rects page in
                    let '(view', all_ocr_cells, ev) :=
                      Tesseract.ocr_rects_loop view backend page_i
                        (Tesseract.enumerate ocr_rects) in
                    let page' := post_process_cells all_ocr_cells page in
                    let st' :=
                      {| model :=
                           set_script_readers (Tesseract.script_readers view')
                             (model st);
                         trace :=
                           trace st ++ [EGetOcrRects page_i] ++ (ELoop page_i <$> ev)
                           ++ [EPostProcessCells page_i all_ocr_cells]
                           ++ (if visualize_ocr then [EDrawOcrRectsAndCells page_i]
                               else []) |} in
                    GYield page' st' (pages_loop rest)
                end
            end
      end
  end.

(** [yield from page_batch] *)
Fixpoint yield_from (page_batch : list Page) (st : State) : GenStep State Page :=
  match page_batch with
  | [] => GReturn st
  | page :: rest => GYield page st (yield_from rest)
  end.

(** [TesseractOcrModel.__call__] (lines 117-250). *)
Definition __call__ (page_batch : list Page) (st : State) : GenStep State Page :=
  if negb (enabled (model st)) then yield_from page_batch st
  else pages_loop (Tesseract.enumerate page_batch) st.

(** The three attributes the loop asserts, and the prefix, are set. *)
Definition ready (self : TesseractOcrModel) : Prop :=
  is_Some (reader self) /\ is_Some (osd_reader self)
  /\ is_Some (_tesserocr_languages self) /\ is_Some (script_prefix self).

(** [out] is what an enabled model yields for the [page] at position
    [page_i]: the page itself if its backend is not valid; else, no call
    having raised while it was read, the page [post_process_cells] leaves
    for some cells, all of them marked as coming from OCR. *)
Definition ocr_of (page_i : nat) (page out : Page) : Prop :=
  exists backend,
    _backend page = Some backend
    /\ if is_valid backend
       then exists view cells,
              raised_reading view page_i page = None
              /\ out = post_process_cells cells page
              /\ Forall (fun c => Tesseract.from_ocr c = true) cells
       else out = page.

(** Why an enabled model stops at the [page] at position [page_i] with
    the exception [e]: the page has no backend and the assertion fails,
    or a call made while the page was read raised [e]. *)
Definition stops_at (page_i : nat) (page : Page) (e : exn) : Prop :=
  (_backend page = None /\ e = AssertionError)
  \/ exists backend view,
       _backend page = Some backend /\ is_valid backend = true
       /\ raised_reading view page_i page = Some e.

(** Between two states of a run the model differs at most in its script
    readers, which are kept, and the calls made are kept. *)
Definition continues (st st' : State) : Prop :=
  model st' = set_script_readers (script_readers (model st')) (model st)
  /\ script_readers (model st) ⊆ script_readers (model st')
  /\ trace st `prefix_of` trace st'
  /\ (_is_auto (model st) = false -> model st' = model st).

End call.

End TesseractMore.

(** ** The pool of script readers *)
Module TesseractPool.

Import Tesseract.

Section pool.

Context {tesserocr : TesserOcr}.

(** Two models differ at most in their script readers. *)
Definition same_settings (self self' : TesseractOcrModel) : Prop :=
  self' = set_script_readers (script_readers self') self.

(** Every script reader is filed under its script, and was opened with
    the language of that script, which is installed. *)
Definition pool_ok (self : TesseractOcrModel) : Prop :=
  forall script r,
    script_readers self !! script = Some r ->
    reader_lang r = Some (script_prefix self +:+ script)
    /\ script_prefix self +:+ script ∈ _tesserocr_languages self.

(** The languages of the readers opened, in the order of the calls. *)
Definition new_readers (evs : list event) : list string :=
  omap (fun e => match e with ENewReader lang => Some lang | _ => None end) evs.

(** The reader a call is made on. *)
Definition event_reader (e : event) : option Reader :=
  match e with
  | ESetImage r _ | EGetComponentImages r | ESetRectangle r _
  | EGetUTF8Text r | EMeanTextConf r => Some r
  | _ => None
  end.

Definition is_get_text (e : event) : bool :=
  match e with
  | EGetUTF8Text _ => true
  | _ => false
  end.

(** A call is made on the default reader or on a reader opened with an
    installed language. *)
Definition on_known_reader (self : TesseractOcrModel) (e : event) : Prop :=
  forall r, event_reader e = Some r ->
    r = reader self
    \/ exists lang, reader_lang r = Some lang /\ lang ∈ _tesserocr_languages self.

(** What the body of the loop, and the loop, keep. *)
Record body_facts (self self' : TesseractOcrModel) (cells : list TextCell)
    (evs : list event) : Prop := {
  bf_settings : same_settings self self';
  bf_grows : script_readers self ⊆ script_readers self';
  bf_pool : pool_ok self -> pool_ok self';
  bf_fixed :
    _is_auto self = false ->
    self' = self /\ new_readers evs = []
    /\ Forall (fun e => forall r, event_reader e = Some r -> r = reader self) evs;
  bf_new :
    forall lang, lang ∈ new_readers evs ->
      lang ∈ _tesserocr_languages self
      /\ exists script,
           lang = script_prefix self +:+ script
           /\ script_readers self !! script = None
           /\ is_Some (script_readers self' !! script);
  bf_once : NoDup (new_readers evs);
  bf_cells : Forall (fun c => from_ocr c = true /\ orig c = text c) cells;
  bf_count : length cells = length (filter (fun e => is_get_text e = true) evs);
  bf_known : pool_ok self -> Forall (on_known_reader self) evs;
}.

End pool.

End TesseractPool.

(** ** More of [standard_pdf_pipeline.py]: what [_assemble_document]
    does before the confidence aggregation *)
Module StandardPdfAssemble.

(** [AssembledUnit], of a page or of the document. *)
Record AssembledUnit (E : Type) : Type := {
  elements : list E;
  headers : list E;
  body : list E;
}.

Arguments elements {E} _.
Arguments headers {E} _.
Arguments body {E} _.

(** [for el in els: acc.append(el)] *)
Definition append_each {E} (acc els : list E) : list E :=
  foldl (fun acc el => acc ++ [el]) acc els.

(** Lines 184-200: the three lists filled page by page, [assembled]
    being [p.assembled] of each page of [conv_res.pages]. *)
Definition assemble_units {E} (assembled : list (option (AssembledUnit E)))
  : AssembledUnit E :=
  let '(all_elements, all_headers, all_body) :=
    foldl
      (fun '(all_elements, all_headers, all_body) p_assembled =>
         match p_assembled with
         | Some unit =>
             let all_body := append_each all_body (body unit) in
             let all_headers := append_each all_headers (headers unit) in
             let all_elements := append_each all_elements (elements unit) in
             (all_elements, all_headers, all_body)
         | None => (all_elements, all_headers, all_body)
         end)
      ([], [], []) assembled in
  {| elements := all_elements; headers := all_headers; body := all_body |}.

(** What the image generation takes from PIL and [docling_core]. *)
Class Imaging : Type := {
  Image : Type;
  ImageRef : Type;
  BoundingBox : Type;
  float : Type;
  (** [ImageRef.from_pil(image, dpi=dpi)] *)
  from_pil : Image -> Z -> ImageRef;
  (** [int(72 * scale)] *)
  dpi : float -> Z;
  (** [image.crop(bbox.scaled(scale=scale).to_top_left_origin(
        page_height=height * scale).as_tuple())] *)
  crop : Image -> BoundingBox -> float -> float -> Image;
}.

Section images.

Context {imaging : Imaging}.

Record Size : Type := {
  width : float;
  height : float;
}.

(** A page of [conv_res.pages]. *)
Record Page : Type := {
  page_no : Z;
  size : option Size;
  image : option Image;
}.

(** A page of [conv_res.document.pages]. *)
Record PageItem : Type := {
  item_page_no : Z;
  page_image : option ImageRef;
}.

Record ProvenanceItem : Type := {
  prov_page_no : Z;
  bbox : BoundingBox;
}.

(** What [isinstance] tells of an element of the document. *)
Inductive ItemKind : Type := PictureItem | TableItem | OtherDocItem | NotDocItem.

Record Item : Type := {
  kind : ItemKind;
  prov : list ProvenanceItem;
  item_image : option ImageRef;
}.

(** The document: its pages by number and its elements in the order of
    [iterate_items()]. *)
Record Document : Type := {
  doc_pages : gmap Z PageItem;
  items : list Item;
}.

Record PdfPipelineOptions : Type := {
  generate_page_images : bool;
  generate_picture_images : bool;
  generate_table_images : bool;
  images_scale : float;
}.

Definition set_page_image (ref : ImageRef) (item : PageItem) : PageItem :=
  {| item_page_no := item_page_no item; page_image := Some ref |}.

Definition set_item_image (ref : ImageRef) (element : Item) : Item :=
  {| kind := kind element; prov := prov element; item_image := Some ref |}.

(** Lines 206-211: [for page in conv_res.pages], the exception raised if
    any and the pages of the document as the loop leaves them. *)
Fixpoint page_images_loop (options : PdfPipelineOptions) (pages : list Page)
    (doc_pages : gmap Z PageItem) : option exn * gmap Z PageItem :=
  match pages with
  | [] => (None, doc_pages)
  | page :: rest =>
      match image page with
      | None => (Some AssertionError, doc_pages)
      | Some page_image =>
          let page_no := (page_no page + 1)%Z in
          match doc_pages !! page_no with
          | None => (Some (KeyError (pretty page_no)), doc_pages)
          | Some item =>
              page_images_loop options rest
                (<[page_no :=
                     set_page_image
                       (from_pil page_image (dpi (images_scale options))) item]>
                   doc_pages)
          end
      end
  end.

(** [next((p for p in conv_res.pages if p.page_no == page_ix), None)] *)
Fixpoint next_page (pages : list Page) (page_ix : Z) : option Page :=
  match pages with
  | [] => None
  | p :: rest => if bool_decide (page_no p = page_ix) then Some p else next_page rest page_ix
  end.

Definition is_doc_item (k : ItemKind) : bool :=
  match k with
  | NotDocItem => false
  | _ => true
  end.

Definition is_picture (k : ItemKind) : bool :=
  match k with
  | PictureItem => true
  | _ => false
  end.

Definition is_table (k : ItemKind) : bool :=
  match k with
  | TableItem => true
  | _ => false
  end.

(** The element chosen for an image by lines 222-230. *)
Definition wants_image (options : PdfPipelineOptions) (element : Item) : bool :=
  negb (negb (is_doc_item (kind element)) || bool_decide (length (prov element) = 0%nat))
  && ((is_picture (kind element) && generate_picture_images options)
      || (is_table (kind element) && generate_table_images options)).

(** The body of the loop over the elements (lines 222-251). *)
Definition element_image (options : PdfPipelineOptions) (pages : list Page)
    (element : Item) : exn + Item :=
  let scale := images_scale options in
  if negb (is_doc_item (kind element)) || bool_decide (length (prov element) = 0%nat)
  then inr element
  else if (is_picture (kind element) && generate_picture_images options)
          || (is_table (kind element) && generate_table_images options)
  then
    match prov element with
    | [] => inr element
    | prov0 :: _ =>
        let page_ix := (prov_page_no prov0 - 1)%Z in
        match next_page pages page_ix with
        | None => inl AssertionError
        | Some page =>
            match size page with
            | None => inl AssertionError
            | Some page_size =>
                match image page with
                | None => inl AssertionError
                | Some page_image =>
                    let cropped_im :=
                      crop page_image (bbox prov0) scale (height page_size) in
                    inr (set_item_image (from_pil cropped_im (dpi scale)) element)
                end
            end
        end
    end
  else inr element.

(** [for element, _level in conv_res.document.iterate_items()]: the
    exception raised if any and the elements as the loop leaves them. *)
Fixpoint element_images_loop (options : PdfPipelineOptions) (pages : list Page)
    (elements : list Item) : option exn * list Item :=
  match elements with
  | [] => (None, [])
  | element :: rest =>
      match element_image options pages element with
      | inl e => (Some e, element :: rest)
      | inr element' =>
          let '(o, rest') := element_images_loop options pages rest in
          (o, element' :: rest')
      end
  end.

(** Lines 204-251: page images, then the images of pictures and
    tables. *)
Definition generate_images (options : PdfPipelineOptions) (pages : list Page)
    (document : Document) : option exn * Document :=
  let '(o, doc_pages') :=
    if generate_page_images options
    then page_images_loop options pages (doc_pages document)
    else (None, doc_pages document) in
  match o with
  | Some e => (Some e, {| doc_pages := doc_pages'; items := items document |})
  | None =>
      if generate_picture_images options || generate_table_images options
      then
        let '(o, items') := element_images_loop options pages (items document) in
        (o, {| doc_pages := doc_pages'; items := items' |})
      else (None, {| doc_pages := doc_pages'; items := items document |})
  end.

(** [element'] is [element], or [element] with a new image. *)
Definition at_most_image (element element' : Item) : Prop :=
  kind element' = kind element /\ prov element' = prov element
  /\ (element' = element \/ is_Some (item_image element')).

End images.

End StandardPdfAssemble.

(** ** More of the concrete setting *)
Module ScenarioMore.

Import Converter Scenario.

(** A converter for PDF and IMAGE with the default options. *)
Definition defaults : @DocumentConverter sequential :=
  converter sequential (Some [PDF; IMAGE]) None.

Definition default_pdf_option : FormatOption Options :=
  pdf_options None true DoclingParseV4DocumentBackend.

Definition broken_pdf : InputDocument :=
  {| file := "broken.pdf"; format := PDF; valid := false;
     backend_of := DoclingParseV4DocumentBackend |}.

Definition two_sources : list (string * InputFormat) :=
  [("a.docx", DOCX); ("a.pdf", PDF)].

(** A setting in which the file "broken.pdf" gives a document that is
    not valid. *)
Definition documents_checked
    (conv_input : _DocumentConversionInput (string * InputFormat))
    (format_options : gmap InputFormat (FormatOption Options)) : list InputDocument :=
  (fun d => {| file := file d; format := format d;
               valid := valid d && negb (bool_decide (file d = "broken.pdf"));
               backend_of := backend_of d |})
    <$> documents conv_input format_options.

Definition checking : Collaborators :=
  {| PipelineOptions := Options;
     Source := string * InputFormat;
     str_model_dump := str_dump;
     md5_hexdigest := digest;
     get_default_options := fun _ => {| artifacts_path := None; do_ocr := true |};
     pipeline_init := init;
     doc_batch_size := 2;
     doc_batch_concurrency := 2;
     execute := run;
     docs := documents_checked |}.

Definition checked_pdf : @DocumentConverter checking :=
  converter checking (Some [PDF]) None.

(** The stock option for PDF, given by the caller. *)
Definition stock_pdf : gmap InputFormat (FormatOption Options) :=
  {[ PDF := @ConverterMore.construct sequential ConverterMore.PdfFormatOption
              None None None ]}.

(** *** An OCR model built by the constructor *)

Definition auto_and_english : TesseractMore.TesseractOcrOptions :=
  {| TesseractMore.lang := ["auto"; "eng"]; TesseractMore.path := Some "/usr/share/tessdata" |}.

Definition installed : TesseractMore.Installation :=
  {| TesseractMore.import_tesserocr := None;
     TesseractMore.tesseract_version := Some "tesseract 5.3.0";
     TesseractMore.get_languages := inr ["eng"; "osd"; "Latin"];
     TesseractMore.PyTessBaseAPI := fun _ => None |}.

Definition unbuilt : TesseractMore.TesseractOcrModel :=
  {| TesseractMore.enabled := false; TesseractMore.options := auto_and_english;
     TesseractMore._is_auto := false; TesseractMore.scale := 0;
     TesseractMore.reader := None; TesseractMore.script_readers := ∅;
     TesseractMore._tesserocr_languages := None;
     TesseractMore.script_prefix := None; TesseractMore.osd_reader := None |}.

(** [TesseractOcrModel(enabled=True, options=auto_and_english, ...)] on
    that installation. *)
Definition built : TesseractMore.TesseractOcrModel :=
  match TesseractMore.__init__ true auto_and_english installed with
  | inr self => self
  | inl _ => unbuilt
  end.

(** A page: whether it has a backend (always a valid one), the
    rectangles to read and the cells found. *)
Record ScenarioPage : Type := {
  has_valid_backend : bool;
  unreadable : option exn;
  rects : list Tesseract.BoundingBox;
  cells : list (@Tesseract.TextCell tess);
}.

Definition base : @TesseractMore.BaseOcr tess :=
  @TesseractMore.Build_BaseOcr tess ScenarioPage
    (fun page => if has_valid_backend page then Some tt else None)
    (fun _ => true)
    rects
    (fun all_ocr_cells page =>
       {| has_valid_backend := has_valid_backend page;
          unreadable := unreadable page; rects := rects page;
          cells := all_ocr_cells |})
    false
    (fun _ _ page => unreadable page).

Definition text_page : @TesseractMore.Page tess base :=
  {| has_valid_backend := true; unreadable := None;
     rects := [empty_rect; text_rect]; cells := [] |}.

Definition detached_page : @TesseractMore.Page tess base :=
  {| has_valid_backend := false; unreadable := None; rects := [text_rect];
     cells := [] |}.

(** A page on which the detector reports an orientation that
    [parse_tesseract_orientation] does not accept. *)
Definition skewed_page : @TesseractMore.Page tess base :=
  {| has_valid_backend := true;
     unreadable := Some (ValueError "invalid tesseract document orientation 45");
     rects := [text_rect]; cells := [] |}.

Definition fresh : @TesseractMore.State tess :=
  {| TesseractMore.model := built; TesseractMore.trace := [] |}.

(** *** A two-page document with a picture on its second page *)

Definition imaging : StandardPdfAssemble.Imaging :=
  {| StandardPdfAssemble.Image := string;
     StandardPdfAssemble.ImageRef := string * Z;
     StandardPdfAssemble.BoundingBox := string;
     StandardPdfAssemble.float := Q;
     StandardPdfAssemble.from_pil := fun image dpi => (image, dpi);
     StandardPdfAssemble.dpi := fun scale => Qfloor (72 * scale);
     StandardPdfAssemble.crop := fun image bbox _ _ => image +:+ "[" +:+ bbox +:+ "]" |}.

Definition page_of (n : Z) (name : string) : @StandardPdfAssemble.Page imaging :=
  @StandardPdfAssemble.Build_Page imaging n
    (Some (@StandardPdfAssemble.Build_Size imaging 612%Q 792%Q)) (Some name).

Definition two_pages : list (@StandardPdfAssemble.Page imaging) :=
  [page_of 0 "first"; page_of 1 "second"].

Definition blank_pages : gmap Z (@StandardPdfAssemble.PageItem imaging) :=
  {[ 1%Z := @StandardPdfAssemble.Build_PageItem imaging 1 None;
     2%Z := @StandardPdfAssemble.Build_PageItem imaging 2 None ]}.

Definition second_page_box : @StandardPdfAssemble.ProvenanceItem imaging :=
  @StandardPdfAssemble.Build_ProvenanceItem imaging 2 "box".

Definition picture_on_second : @StandardPdfAssemble.Item imaging :=
  @StandardPdfAssemble.Build_Item imaging StandardPdfAssemble.PictureItem
    [second_page_box] None.

Definition all_images : @StandardPdfAssemble.PdfPipelineOptions imaging :=
  @StandardPdfAssemble.Build_PdfPipelineOptions imaging true true false 2%Q.

End ScenarioMore.

(** * Theorems *)

(** ** The converter *)
Module ConverterFacts.

Import Converter.

Section facts.

Context {collaborators : Collaborators}.

Implicit Types (self : DocumentConverter) (fopt : FormatOption PipelineOptions).

#[local] Abbreviation Stream := (GenStep DocumentConverter ConversionResult).

(** *** [_get_pipeline] *)

Lemma get_pipeline_cached self f fopt k p :
  format_to_options self !! f = Some fopt ->
  cache_key fopt = Some k ->
  initialized_pipelines self !! k = Some p ->
  _get_pipeline f self = (inr (Some p), self).
Proof.
  intros Hf Hk Hp. unfold _get_pipeline. rewrite Hf.
  unfold cache_key in Hk. destruct (pipeline_options fopt) as [o|]; [|done].
  simpl in Hk. injection Hk as <-. by rewrite !Hp.
Qed.

Lemma get_pipeline_raises self f fopt o e :
  format_to_options self !! f = Some fopt ->
  pipeline_options fopt = Some o ->
  initialized_pipelines self !! (pipeline_cls fopt, _get_pipeline_options_hash o) = None ->
  pipeline_init (pipeline_cls fopt) o = Some e ->
  _get_pipeline f self = (inl e, self).
Proof.
  intros Hf Ho Hk He. unfold _get_pipeline. by rewrite Hf, Ho, Hk, He.
Qed.

(** What a call that returns a pipeline leaves behind. *)
Lemma get_pipeline_returns self f p self' :
  _get_pipeline f self = (inr (Some p), self') ->
  exists fopt k,
    format_to_options self !! f = Some fopt /\ cache_key fopt = Some k /\
    initialized_pipelines self' !! k = Some p /\
    allowed_formats self' = allowed_formats self /\
    format_to_options self' = format_to_options self /\
    ((self' = self /\ initialized_pipelines self !! k = Some p) \/
     (initialized_pipelines self !! k = None /\
      pipeline_id p = next_object self /\
      next_object self' = S (next_object self) /\
      initialized_pipelines self' = <[k := p]> (initialized_pipelines self))).
Proof.
  unfold _get_pipeline. intros H.
  destruct (format_to_options self !! f) as [fopt|] eqn:Hf; [|done].
  destruct (pipeline_options fopt) as [o|] eqn:Ho; [|done].
  exists fopt, (pipeline_cls fopt, _get_pipeline_options_hash o).
  split; [done|]. split; [by unfold cache_key; rewrite Ho|].
  destruct (initialized_pipelines self !! _) as [q|] eqn:Hq.
  - simpl in H. injection H as <- <-. eauto 10.
  - destruct (pipeline_init _ _); [done|]. simpl in H.
    rewrite lookup_insert_eq in H. injection H as <- <-. simpl.
    rewrite lookup_insert_eq. eauto 10.
Qed.

(** Any call leaves the configuration alone and only ever adds to the
    cache. *)
Lemma get_pipeline_frame self f r self' :
  _get_pipeline f self = (r, self') ->
  allowed_formats self' = allowed_formats self /\
  format_to_options self' = format_to_options self /\
  (forall k p, initialized_pipelines self !! k = Some p ->
               initialized_pipelines self' !! k = Some p).
Proof.
  unfold _get_pipeline. intros H.
  destruct (format_to_options self !! f) as [fopt|]; [|by injection H as <- <-].
  destruct (pipeline_options fopt) as [o|]; [|by injection H as <- <-].
  destruct (initialized_pipelines self !! _) as [q|] eqn:Hq.
  - simpl in H. by injection H as <- <-.
  - destruct (pipeline_init _ _); [by injection H as <- <-|]. simpl in H.
    rewrite lookup_insert_eq in H. injection H as <- <-. simpl.
    split; [done|]. split; [done|]. intros k p Hk.
    rewrite lookup_insert_ne; [done|]. intros <-. congruence.
Qed.

Lemma get_pipeline_well_formed self f r self' :
  well_formed self -> _get_pipeline f self = (r, self') -> well_formed self'.
Proof.
  intros [Hlt Hinj]. unfold _get_pipeline. intros H.
  destruct (format_to_options self !! f) as [fopt|]; [|by injection H as <- <-].
  destruct (pipeline_options fopt) as [o|]; [|by injection H as <- <-].
  destruct (initialized_pipelines self !! _) as [q|] eqn:Hq.
  - simpl in H. by injection H as <- <-.
  - destruct (pipeline_init _ _); [by injection H as <- <-|]. simpl in H.
    rewrite lookup_insert_eq in H. injection H as <- <-.
    split; simpl.
    + intros k p. rewrite lookup_insert. case_decide.
      * intros [= <-]. simpl. lia.
      * intros Hk. apply Hlt in Hk. lia.
    + intros k k' p p'. rewrite !lookup_insert.
      repeat case_decide; intros Hk Hk' Hid; simplify_eq; simpl in *; try done.
      * apply Hlt in Hk'. lia.
      * apply Hlt in Hk. lia.
      * eauto.
Qed.

(** *** [__init__] *)

Lemma get_default_option_total format : exists o, _get_default_option format = inr o.
Proof. unfold _get_default_option. destruct format; vm_compute; eauto. Qed.

Lemma format_to_options_of_total formats format_options acc :
  exists m, format_to_options_of formats format_options acc = inr m.
Proof.
  revert acc. induction formats as [|f formats IH]; intros acc; simpl; [eauto|].
  destruct (format_options !! f); [done|].
  by destruct (get_default_option_total f) as [o ->].
Qed.

(** The constructor never raises, and the converter it returns has an
    empty cache. *)
Lemma init_returns allowed_formats format_options :
  exists self,
    __init__ allowed_formats format_options = inr self
    /\ initialized_pipelines self = ∅ /\ well_formed self.
Proof.
  unfold __init__.
  destruct (format_to_options_of_total (default all_formats allowed_formats)
              (default ∅ format_options) ∅) as [m ->].
  eexists. split; [done|]. split; [done|].
  split; simpl; intros *; by rewrite lookup_empty.
Qed.

(** *** [_execute_pipeline] and [_process_document] *)

Lemma execute_pipeline_frame self in_doc roe r self' :
  _execute_pipeline in_doc roe self = (r, self') ->
  allowed_formats self' = allowed_formats self /\
  format_to_options self' = format_to_options self /\
  (forall k p, initialized_pipelines self !! k = Some p ->
               initialized_pipelines self' !! k = Some p).
Proof.
  unfold _execute_pipeline. intros H.
  destruct (valid in_doc).
  - destruct (_get_pipeline (format in_doc) self) as [[e|[p|]] s1] eqn:Hg;
      apply get_pipeline_frame in Hg;
      repeat case_match; by simplify_eq.
  - repeat case_match; by simplify_eq.
Qed.

Lemma process_document_frame self in_doc roe r self' :
  _process_document in_doc roe self = (r, self') ->
  allowed_formats self' = allowed_formats self /\
  format_to_options self' = format_to_options self /\
  (forall k p, initialized_pipelines self !! k = Some p ->
               initialized_pipelines self' !! k = Some p).
Proof.
  unfold _process_document.
  generalize (match allowed_formats self with
              | None => false
              | Some formats => bool_decide (format in_doc ∈ formats)
              end).
  intros [] H; [by eapply execute_pipeline_frame|].
  destruct roe; by simplify_eq.
Qed.

Lemma process_document_well_formed self in_doc roe r self' :
  well_formed self -> _process_document in_doc roe self = (r, self') ->
  well_formed self'.
Proof.
  intros Hwf. unfold _process_document, _execute_pipeline. intros H.
  destruct (_get_pipeline (format in_doc) self) as [g s1] eqn:Hg.
  apply (get_pipeline_well_formed _ _ _ _ Hwf) in Hg.
  repeat case_match; by simplify_eq.
Qed.

Lemma allowed_bool self f :
  match allowed_formats self with
  | None => false
  | Some formats => bool_decide (f ∈ formats)
  end = true <-> allowed self f.
Proof.
  unfold allowed. destruct (allowed_formats self) as [formats|].
  - rewrite bool_decide_eq_true. split; [by exists formats|].
    by intros (? & [= <-] & ?).
  - split; [done|]. by intros (? & ? & ?).
Qed.

Lemma process_document_construction_raises self in_doc roe fopt o e :
  allowed self (format in_doc) -> valid in_doc = true ->
  format_to_options self !! format in_doc = Some fopt ->
  pipeline_options fopt = Some o ->
  initialized_pipelines self !! (pipeline_cls fopt, _get_pipeline_options_hash o) = None ->
  pipeline_init (pipeline_cls fopt) o = Some e ->
  _process_document in_doc roe self = (inl e, self).
Proof.
  intros Ha Hv Hf Ho Hk He. unfold _process_document.
  apply allowed_bool in Ha. rewrite Ha.
  unfold _execute_pipeline. rewrite Hv.
  by rewrite (get_pipeline_raises _ _ _ _ _ Hf Ho Hk He).
Qed.

(** Where a lenient FAILURE result does come from: no pipeline for the
    format, or an invalid document.  It carries no error item. *)
Lemma execute_pipeline_failure_result self in_doc :
  (valid in_doc = false \/ format_to_options self !! format in_doc = None) ->
  _execute_pipeline in_doc false self
  = (inr {| input := in_doc; status := FAILURE; errors := [] |}, self).
Proof.
  unfold _execute_pipeline, _get_pipeline. intros [Hv|Hf].
  - by rewrite Hv.
  - rewrite Hf. by destruct (valid in_doc).
Qed.

(** *** Generators *)

Lemma drain_eta {St A} (g : GenStep St A) : drain g = (yields g, outcome g, (drain g).2).
Proof. unfold yields, outcome. by destruct (drain g) as [[??]?]. Qed.

Lemma process_in_order_frame roe in_docs self :
  allowed_formats (process_in_order roe in_docs self).2 = allowed_formats self /\
  format_to_options (process_in_order roe in_docs self).2 = format_to_options self /\
  (forall k p, initialized_pipelines self !! k = Some p ->
               initialized_pipelines (process_in_order roe in_docs self).2 !! k = Some p).
Proof.
  revert self. induction in_docs as [|d in_docs IH]; intros self; simpl; [done|].
  destruct (_process_document d roe self) as [[e|r] s1] eqn:Hd;
    apply process_document_frame in Hd as (Ha & Hf & Hm); [done|].
  destruct (IH s1) as (Ha' & Hf' & Hm').
  destruct (process_in_order roe in_docs s1) as [[rs o] s2]. simpl in *.
  split_and!; [congruence|congruence|eauto].
Qed.

Lemma process_in_order_app roe pre post self :
  process_in_order roe (pre ++ post) self
  = match process_in_order roe pre self with
    | (rs, None, self1) =>
        let '(rs', o, self2) := process_in_order roe post self1 in (rs ++ rs', o, self2)
    | (rs, Some e, self1) => (rs, Some e, self1)
    end.
Proof.
  revert self. induction pre as [|d pre IH]; intros self; simpl.
  - by destruct (process_in_order roe post self) as [[??]?].
  - destruct (_process_document d roe self) as [[e|r] s1]; [done|].
    rewrite IH. destruct (process_in_order roe pre s1) as [[rs [e|]] s2]; [done|].
    by destruct (process_in_order roe post s2) as [[??]?].
Qed.

Lemma drain_yield_map roe batch after self :
  drain (yield_map roe batch after self)
  = then_drain (process_in_order roe batch self) after.
Proof.
  revert self. induction batch as [|d batch IH]; intros self; simpl.
  - by destruct (drain (after self)) as [[??]?].
  - destruct (_process_document d roe self) as [[e|r] s1]; [done|]. simpl.
    rewrite IH. destruct (process_in_order roe batch s1) as [[rs [e|]] s2]; simpl; [done|].
    by destruct (drain (after s2)) as [[??]?].
Qed.

Lemma pool_map_in_order roe batch self :
  match process_in_order roe batch self with
  | (rs, None, self1) => pool_map roe batch self = (inr <$> rs, self1)
  | (rs, Some e, _) =>
      exists more self2, pool_map roe batch self = ((inr <$> rs) ++ inl e :: more, self2)
  end.
Proof.
  revert self. induction batch as [|d batch IH]; intros self; simpl; [done|].
  destruct (_process_document d roe self) as [[e|r] s1].
  - destruct (pool_map roe batch s1) as [more s2]. by exists more, s2.
  - specialize (IH s1).
    destruct (process_in_order roe batch s1) as [[rs [e|]] s2].
    + destruct IH as (more & s3 & ->). by exists more, s3.
    + by rewrite IH.
Qed.

Lemma drain_yield_futures_ok rs after self :
  drain (yield_futures (inr <$> rs) after self) = then_drain (rs, None, self) after.
Proof.
  induction rs as [|r rs IH]; csimpl.
  - by destruct (drain (after self)) as [[??]?].
  - rewrite IH. simpl. by destruct (drain (after self)) as [[??]?].
Qed.

Lemma drain_yield_futures_raise rs e more after self :
  drain (yield_futures ((inr <$> rs) ++ inl e :: more) after self) = (rs, Some e, self).
Proof. induction rs as [|r rs IH]; csimpl; [done|]. by rewrite IH. Qed.

Lemma concat_chunkify_fuel {A} fuel n (l : list A) :
  (length l <= fuel)%nat -> concat (chunkify_fuel fuel n l) = l.
Proof.
  revert l. induction fuel as [|fuel IH]; intros [|x l] Hl; simpl in *; try done; [lia|].
  rewrite IH; [by rewrite take_drop|]. rewrite length_drop. lia.
Qed.

Lemma concat_chunkify {A} (l : list A) n : concat (chunkify l n) = l.
Proof. by apply concat_chunkify_fuel. Qed.

(** The stream of [_convert] gives the results of processing the documents
    in order, whether a batch goes through the pool or not. *)
Lemma convert_batches_in_order batches roe self :
  (drain (_convert_batches batches roe self)).1
  = (process_in_order roe (concat batches) self).1.
Proof.
  revert self. induction batches as [|b batches IH]; intros self; simpl; [done|].
  rewrite process_in_order_app.
  assert (Hthen : forall s1 rs,
    (then_drain (rs, None, s1) (_convert_batches batches roe)).1
    = (let '(rs', o, self2) := process_in_order roe (concat batches) s1
       in (rs ++ rs', o, self2)).1).
  { intros s1 rs. simpl. specialize (IH s1).
    destruct (drain _) as [[??]?], (process_in_order _ _ _) as [[??]?].
    simpl in *. by simplify_eq. }
  case_match.
  - pose proof (pool_map_in_order roe b self) as Hp.
    destruct (pool_map roe b self) as [futures s1].
    destruct (process_in_order roe b self) as [[rs [e|]] s2].
    + destruct Hp as (more & s3 & [= -> ->]). by rewrite drain_yield_futures_raise.
    + injection Hp as -> ->. rewrite drain_yield_futures_ok. apply Hthen.
  - rewrite drain_yield_map.
    destruct (process_in_order roe b self) as [[rs [e|]] s2]; [done|]. apply Hthen.
Qed.

Lemma convert_in_order conv_input roe self :
  (drain (_convert conv_input roe self)).1
  = (process_in_order roe (docs conv_input (format_to_options self)) self).1.
Proof. unfold _convert. by rewrite convert_batches_in_order, concat_chunkify. Qed.

(** In lenient mode the loop of [convert_all] hands every result on. *)
Lemma convert_all_loop_lenient had_result (it : Stream) :
  drain (convert_all_loop false had_result it) = drain it.
Proof.
  revert had_result. induction it as [a s k IH|s|e s]; intros had_result; simpl.
  - by rewrite IH.
  - by rewrite andb_false_r.
  - done.
Qed.

Lemma yields_yield {St A} (a : A) (s : St) k : yields (GYield a s k) = a :: yields (k s).
Proof. unfold yields. simpl. by destruct (drain (k s)) as [[??]?]. Qed.

Lemma outcome_yield {St A} (a : A) (s : St) k : outcome (GYield a s k) = outcome (k s).
Proof. unfold outcome. simpl. by destruct (drain (k s)) as [[??]?]. Qed.

Lemma status_ok_succeeded r : status_ok r = true <-> succeeded r.
Proof.
  unfold status_ok, succeeded. rewrite bool_decide_eq_true.
  rewrite !elem_of_cons, elem_of_nil. tauto.
Qed.

Lemma status_ok_failed r :
  status_ok r = false <-> status r <> SUCCESS /\ status r <> PARTIAL_SUCCESS.
Proof.
  unfold status_ok. rewrite bool_decide_eq_false.
  rewrite !elem_of_cons, elem_of_nil. tauto.
Qed.

(** *** The loop of [convert_all] in strict mode *)

Lemma strict_loop_first_failure (it : Stream) had_result pre r post :
  yields it = pre ++ r :: post ->
  Forall succeeded pre -> ~ succeeded r ->
  yields (convert_all_loop true had_result it) = pre /\
  outcome (convert_all_loop true had_result it)
  = Some (ConversionError (conversion_failed_msg r)).
Proof.
  revert had_result pre.
  induction it as [a s k IH|s|e s]; intros had_result pre Hy Hpre Hr.
  - rewrite yields_yield in Hy. cbn [convert_all_loop].
    destruct pre as [|a' pre]; simplify_eq/=.
    + assert (status_ok r = false) as ->.
      { apply not_true_is_false. by rewrite status_ok_succeeded. }
      done.
    + apply Forall_cons in Hpre as [Ha Hpre].
      apply status_ok_succeeded in Ha. rewrite Ha. cbn [negb andb].
      rewrite yields_yield, outcome_yield.
      destruct (IH s true pre) as [-> ->]; done.
  - by destruct pre.
  - by destruct pre.
Qed.

Lemma strict_loop_no_result (it : Stream) :
  yields it = [] ->
  yields (convert_all_loop true false it) = [] /\
  outcome (convert_all_loop true false it)
  = Some (default (ConversionError no_result_msg) (outcome it)).
Proof.
  destruct it as [a s k|s|e s]; [|done..].
  by rewrite yields_yield.
Qed.

Lemma strict_loop_yields_succeeded (it : Stream) had_result :
  Forall succeeded (yields (convert_all_loop true had_result it)).
Proof.
  revert had_result. induction it as [a s k IH|s|e s]; intros had_result.
  - cbn [convert_all_loop]. destruct (status_ok a) eqn:Ha; cbn [negb andb].
    + rewrite yields_yield. apply Forall_cons. split; [|apply IH].
      by apply status_ok_succeeded.
    + by apply Forall_nil.
  - cbn [convert_all_loop]. destruct had_result; by apply Forall_nil.
  - by apply Forall_nil.
Qed.

(** *** The pipeline cache *)

(** An option whose key equals the key of a call that returned [p]
    resolves to [p] without touching the converter. *)
Lemma get_pipeline_same_key self f1 f2 fopt1 fopt2 p self1 :
  format_to_options self !! f1 = Some fopt1 ->
  format_to_options self !! f2 = Some fopt2 ->
  is_Some (cache_key fopt1) ->
  cache_key fopt1 = cache_key fopt2 ->
  _get_pipeline f1 self = (inr (Some p), self1) ->
  _get_pipeline f2 self1 = (inr (Some p), self1).
Proof.
  intros Hf1 Hf2 [k Hk] Heq Hg.
  apply get_pipeline_returns in Hg
    as (fopt & k' & Hf & Hk' & Hp & _ & Hfo & _).
  simplify_eq. eapply get_pipeline_cached; [by rewrite Hfo| |done]. congruence.
Qed.

Lemma cache_key_eq fopt1 fopt2 a b :
  pipeline_options fopt1 = Some a -> pipeline_options fopt2 = Some b ->
  pipeline_cls fopt1 = pipeline_cls fopt2 ->
  str_model_dump a = str_model_dump b ->
  is_Some (cache_key fopt1) /\ cache_key fopt1 = cache_key fopt2.
Proof.
  intros Ha Hb Hc Hd. unfold cache_key, _get_pipeline_options_hash.
  rewrite Ha, Hb. simpl. rewrite Hc, Hd. eauto.
Qed.

(** *** The claims about the converter *)

(** C1 (amended).  In lenient mode, a pipeline constructor that raises
    while [_get_pipeline] builds the pipeline of a document is not turned
    into a result: [_process_document] raises the constructor's exception
    and leaves the converter as it was, and the stream of [convert_all]
    yields the results of the documents before it and then raises that
    exception. *)
Theorem C1_construction_failure_propagates
    source headers max_num_pages max_file_size page_range self
    pre in_doc post rs fopt o e :
  docs {| path_or_stream_iterator := source;
          limits := {| max_num_pages := max_num_pages;
                       max_file_size := max_file_size;
                       page_range := page_range |};
          headers := headers |} (format_to_options self)
  = pre ++ in_doc :: post ->
  (process_in_order false pre self).1 = (rs, None) ->
  let self1 := (process_in_order false pre self).2 in
  allowed self (format in_doc) ->
  valid in_doc = true ->
  format_to_options self !! format in_doc = Some fopt ->
  pipeline_options fopt = Some o ->
  initialized_pipelines self1 !! (pipeline_cls fopt, _get_pipeline_options_hash o) = None ->
  pipeline_init (pipeline_cls fopt) o = Some e ->
  _process_document in_doc false self1 = (inl e, self1)
  /\ yields (convert_all source headers false max_num_pages max_file_size
               page_range self) = rs
  /\ outcome (convert_all source headers false max_num_pages max_file_size
                page_range self) = Some e.
Proof.
  intros Hdocs Hpre self1 Ha Hv Hf Ho Hk He.
  destruct (process_in_order_frame false pre self) as (Haf & Hfo & _).
  fold self1 in Haf, Hfo.
  assert (Hraise : _process_document in_doc false self1 = (inl e, self1)).
  { apply (process_document_construction_raises _ _ false fopt o e); try done.
    - destruct Ha as (formats & ? & ?). exists formats. by rewrite Haf.
    - by rewrite Hfo. }
  split; [done|].
  unfold yields, outcome, convert_all.
  rewrite convert_all_loop_lenient, convert_in_order, Hdocs, process_in_order_app.
  fold self1 in Hraise.
  destruct (process_in_order false pre self) as [[rs' o'] s1]. simpl in *.
  injection Hpre as -> ->. subst self1. simpl. rewrite Hraise. simpl.
  by rewrite app_nil_r.
Qed.


(** C3.  In strict mode the stream of [convert_all] raises at the first
    result of [_convert] whose status is neither SUCCESS nor
    PARTIAL_SUCCESS, having yielded exactly the results before it; it only
    ever yields results with one of these two statuses; and when
    [_convert] produces no result at all it raises (the error about an
    unrecognised format if [_convert] itself ended quietly). *)
Theorem C3_strict_mode source headers max_num_pages max_file_size page_range self :
  let conv_res_iter :=
    _convert {| path_or_stream_iterator := source;
                limits := {| max_num_pages := max_num_pages;
                             max_file_size := max_file_size;
                             page_range := page_range |};
                headers := headers |} true self in
  let results :=
    convert_all source headers true max_num_pages max_file_size page_range self in
  (forall pre r post,
     yields conv_res_iter = pre ++ r :: post ->
     Forall succeeded pre ->
     status r <> SUCCESS /\ status r <> PARTIAL_SUCCESS ->
     yields results = pre /\
     outcome results = Some (ConversionError (conversion_failed_msg r)))
  /\ (yields conv_res_iter = [] ->
      yields results = [] /\
      (exists e, outcome results = Some e) /\
      (outcome conv_res_iter = None ->
       outcome results = Some (ConversionError no_result_msg)))
  /\ Forall succeeded (yields results).
Proof.
  intros conv_res_iter results. unfold results, convert_all. fold conv_res_iter.
  split; [|split].
  - intros pre r post Hy Hpre Hr. apply (strict_loop_first_failure _ _ _ _ _ Hy Hpre).
    unfold succeeded. tauto.
  - intros Hy. destruct (strict_loop_no_result _ Hy) as [-> ->].
    split; [done|]. split; [eauto|]. by intros ->.
  - apply strict_loop_yields_succeeded.
Qed.

(** C7.  A document whose format is not in the allowed-format set gets,
    in lenient mode, a SKIPPED result with exactly one error item, of the
    user-input component type; in strict mode [_process_document] raises a
    [ConversionError] and produces no result.  The converter is left as
    it was. *)
Theorem C7_format_not_allowed self in_doc :
  ~ allowed self (format in_doc) ->
  (exists item,
     _process_document in_doc false self
     = (inr {| input := in_doc; status := SKIPPED; errors := [item] |}, self)
     /\ component_type item = USER_INPUT)
  /\ (exists msg,
        _process_document in_doc true self = (inl (ConversionError msg), self)).
Proof.
  intros Hna. unfold _process_document.
  destruct (match allowed_formats self with
            | None => false
            | Some formats => bool_decide (format in_doc ∈ formats)
            end) eqn:Hb.
  - by apply allowed_bool in Hb.
  - split; eauto.
Qed.

Lemma process_document_not_allowed self in_doc :
  ~ allowed self (format in_doc) ->
  _process_document in_doc false self
  = (inr {| input := in_doc; status := SKIPPED;
            errors := [ {| component_type := USER_INPUT; module_name := "";
                           error_message :=
                             "File format not allowed: " +:+ file in_doc |} ] |},
     self).
Proof.
  intros Hna. unfold _process_document.
  destruct (match allowed_formats self with
            | None => false
            | Some formats => bool_decide (format in_doc ∈ formats)
            end) eqn:Hb; [|done].
  by apply allowed_bool in Hb.
Qed.

(** What [convert] returns in lenient mode when its source has one
    document. *)
Lemma convert_lenient_one_document
    source headers max_num_pages max_file_size page_range self in_doc :
  docs {| path_or_stream_iterator := [source];
          limits := {| max_num_pages := max_num_pages;
                       max_file_size := max_file_size;
                       page_range := page_range |};
          headers := headers |} (format_to_options self) = [in_doc] ->
  let all_res :=
    convert_all [source] headers false max_num_pages max_file_size page_range self in
  convert source headers false max_num_pages max_file_size page_range self
  = _process_document in_doc false self
  /\ ~ (yields all_res = [] /\ outcome all_res = None).
Proof.
  intros Hd all_res. unfold all_res, convert, convert_all, _convert. rewrite Hd.
  unfold chunkify. cbn [length chunkify_fuel take drop _convert_batches].
  rewrite take_nil.
  destruct (_process_document in_doc false self) as [[e|r] s1] eqn:Hp;
    case_match; cbn [pool_map yield_map yield_futures]; rewrite Hp; simpl;
    (split; [done|]); by intros [? ?].
Qed.

(** C9.  In lenient mode, [docs] giving one document per source, the
    stream of [convert_all] for the one source of [convert] never ends
    without a result or an exception, so that [next] does not raise
    [StopIteration] on it: [convert] returns what [_process_document]
    returns for the document of the source, or raises what it raises, and
    leaves the converter as processing left it.  For a source whose
    format is not allowed that is the SKIPPED result with its one
    user-input error item. *)
Theorem C9_convert_returns_the_one_result
    source headers max_num_pages max_file_size page_range self :
  one_document_per_source ->
  let all_res :=
    convert_all [source] headers false max_num_pages max_file_size page_range self in
  exists in_doc,
    docs {| path_or_stream_iterator := [source];
            limits := {| max_num_pages := max_num_pages;
                         max_file_size := max_file_size;
                         page_range := page_range |};
            headers := headers |} (format_to_options self) = [in_doc]
    /\ convert source headers false max_num_pages max_file_size page_range self
       = _process_document in_doc false self
    /\ ~ (yields all_res = [] /\ outcome all_res = None)
    /\ (~ allowed self (format in_doc) ->
        exists item,
          convert source headers false max_num_pages max_file_size page_range self
          = (inr {| input := in_doc; status := SKIPPED; errors := [item] |}, self)
          /\ component_type item = USER_INPUT).
Proof.
  intros Hone all_res.
  specialize (Hone {| path_or_stream_iterator := [source];
                      limits := {| max_num_pages := max_num_pages;
                                   max_file_size := max_file_size;
                                   page_range := page_range |};
                      headers := headers |} (format_to_options self)).
  simpl in Hone.
  destruct (docs _ (format_to_options self)) as [|in_doc [|? ?]] eqn:Hd; try done.
  exists in_doc. split; [done|].
  destruct (convert_lenient_one_document source headers max_num_pages max_file_size
              page_range self in_doc Hd) as [Hc Hne].
  split_and!; [done|done|].
  intros Hna. rewrite Hc, (process_document_not_allowed _ _ Hna). eauto.
Qed.

(** C10.  The backend class takes no part in the cache key: two format
    options with the same pipeline class and options that serialise alike
    resolve to the identical cached pipeline although their backends
    differ. *)
Theorem C10_backend_not_in_key self f1 f2 fopt1 fopt2 a b p1 :
  format_to_options self !! f1 = Some fopt1 ->
  format_to_options self !! f2 = Some fopt2 ->
  pipeline_options fopt1 = Some a ->
  pipeline_options fopt2 = Some b ->
  pipeline_cls fopt1 = pipeline_cls fopt2 ->
  str_model_dump a = str_model_dump b ->
  backend fopt1 <> backend fopt2 ->
  (_get_pipeline f1 self).1 = inr (Some p1) ->
  let self1 := (_get_pipeline f1 self).2 in
  _get_pipeline f2 self1 = (inr (Some p1), self1).
Proof.
  intros Hf1 Hf2 Ha Hb Hc Hd _ Hg1 self1.
  assert (Hg : _get_pipeline f1 self = (inr (Some p1), self1)).
  { unfold self1. destruct (_get_pipeline f1 self). simpl in *. by subst. }
  destruct (cache_key_eq _ _ _ _ Ha Hb Hc Hd) as [Hs Heq].
  exact (get_pipeline_same_key _ _ _ _ _ _ _ Hf1 Hf2 Hs Heq Hg).
Qed.

End facts.
End ConverterFacts.

(** ** The lock around the pipeline cache *)
Module CacheLockFacts.
Import CacheLock.

Lemma initial_invariant N : invariant N (initial N).
Proof.
  split; simpl.
  - apply length_replicate.
  - intros t c Ht. apply lookup_replicate in Ht as [-> _]. done.
  - done.
  - intros t Ht. apply lookup_replicate in Ht as [? _]. done.
  - left. split; [done|]. split; [done|].
    apply Forall_forall. intros c Hc. by apply elem_of_replicate in Hc as [-> _].
Qed.

Lemma lookup_set_pc t c s t' c' :
  set_pc t c s !! t' = Some c' ->
  (t' = t /\ c' = c) \/ (t' <> t /\ threads s !! t' = Some c').
Proof.
  unfold set_pc. intros H.
  apply list_lookup_insert_Some in H as [(-> & -> & _)|[? ?]]; [by left|by right].
Qed.

Lemma Forall_set_pc (P Q : pc -> bool) t c c0 s :
  threads s !! t = Some c0 ->
  Forall (fun c => P c = true) (threads s) ->
  Q c = true ->
  (forall t' c', t' <> t -> threads s !! t' = Some c' -> P c' = true -> Q c' = true) ->
  Forall (fun c => Q c = true) (set_pc t c s).
Proof.
  intros Ht HP Hc Hothers. apply Forall_lookup. intros t' c' H'.
  apply lookup_set_pc in H' as [[-> ->]|[Hne H']]; [done|].
  eapply Hothers; [done..|]. by eapply (proj1 (Forall_lookup _ _) HP).
Qed.

Ltac step_cases Hstep t Ht Hx :=
  inversion Hstep as
    [t ? Ht Hx|t ? Ht Hx|t ? ? Ht Hx|t ? Ht|t ? Ht|t ? ? Ht|t ? ? Ht Hx|t ? Ht Hx];
  subst; simpl in *.

Lemma step_length s s' : step s s' -> length (threads s') = length (threads s).
Proof. intros H. step_cases H t Ht Hx; unfold set_pc; by rewrite length_insert. Qed.

Lemma step_holder N s s' t c :
  invariant N s -> step s s' ->
  threads s' !! t = Some c -> in_block c = true -> lock s' = Some t.
Proof.
  intros Hinv Hstep H Hb.
  step_cases Hstep t0 Ht Hx;
    apply lookup_set_pc in H as [[-> ->]|[Hne H]]; try done;
    pose proof (inv_holder _ _ Hinv _ _ Ht) as E0; simpl in E0;
    try (pose proof (inv_holder _ _ Hinv _ _ H Hb) as E1);
    first [ by apply E0 | specialize (E0 eq_refl); congruence | congruence ].
Qed.

Lemma step_lock N s s' t :
  invariant N s -> step s s' -> lock s' = Some t ->
  exists c, threads s' !! t = Some c /\ in_block c = true.
Proof.
  intros Hinv Hstep Hl.
  step_cases Hstep t0 Ht Hx; try done;
    pose proof (lookup_lt_Some _ _ _ Ht) as Hlt;
    try (pose proof (inv_holder _ _ Hinv _ _ Ht eq_refl) as E0);
    simplify_eq; eexists; (split; [by apply list_lookup_insert_eq|done]).
Qed.

Lemma phase_at_return N s t :
  invariant N s -> threads s !! t = Some AtReturn -> is_Some (cache s).
Proof.
  intros Hinv Ht.
  destruct (inv_phase _ _ Hinv) as [(_ & _ & HF)|[(_ & _ & _ & HF)|(p & -> & _)]];
    [| |by eauto];
    by pose proof (proj1 (Forall_lookup _ _) HF _ _ Ht).
Qed.

Lemma step_raised N s s' t :
  invariant N s -> step s s' ->
  threads s' !! t = Some Raised -> (0 < constructor_raises s')%nat.
Proof.
  intros Hinv Hstep H.
  step_cases Hstep t0 Ht Hx;
    apply lookup_set_pc in H as [[-> ?]|[Hne H]]; simplify_eq;
    try (pose proof (inv_raised _ _ Hinv _ H)); try lia.
  destruct (phase_at_return _ _ _ Hinv Ht) as [? ?]. congruence.
Qed.

Lemma step_phase N s s' : invariant N s -> step s s' -> phase s'.
Proof.
  intros Hinv Hstep.
  assert (Hout : forall t c t' c', threads s !! t = Some c -> in_block c = true ->
                   t' <> t -> threads s !! t' = Some c' -> in_block c' = false).
  { intros t c t' c' Ht Hc Hne Ht'. destruct (in_block c') eqn:Hc'; [|done].
    pose proof (inv_holder _ _ Hinv _ _ Ht Hc).
    pose proof (inv_holder _ _ Hinv _ _ Ht' Hc'). congruence. }
  unfold phase.
  destruct (inv_phase _ _ Hinv)
    as [(Hc & Hn & HF)|[(Hc & Hn & Hex & HF)|(p & Hc & Hn & HF)]];
    step_cases Hstep t Ht Hx;
    try (by pose proof (proj1 (Forall_lookup _ _) HF _ _ Ht));
    try congruence.
  - (* acquire, nothing constructed *)
    left. split_and!; try done. eapply Forall_set_pc; eauto.
  - (* test, absent *)
    left. split_and!; try done. eapply Forall_set_pc; eauto.
  - (* the constructor returns *)
    right; left. split_and!; try (done || lia).
    + exists t, (constructor_calls s).
      apply list_lookup_insert_eq. by eapply lookup_lt_Some.
    + eapply Forall_set_pc; eauto.
      intros t' c' Hne Ht' Hc'. pose proof (Hout _ _ _ _ Ht eq_refl Hne Ht').
      by destruct c'.
  - (* the constructor raises *)
    left. split_and!; try (done || lia). eapply Forall_set_pc; eauto.
  - (* acquire while a pipeline waits to be stored: the lock is taken *)
    destruct Hex as (t' & p & Ht').
    pose proof (inv_holder _ _ Hinv _ _ Ht' eq_refl). congruence.
  - (* store *)
    right; right. eexists. split_and!; try done.
    eapply Forall_set_pc; eauto.
    intros t' c' Hne Ht' Hc'. pose proof (Hout _ _ _ _ Ht eq_refl Hne Ht').
    by destruct c'.
  - (* acquire, cached *)
    right; right. exists p. split_and!; try done. eapply Forall_set_pc; eauto.
  - (* test, present *)
    right; right. exists p. split_and!; try done. eapply Forall_set_pc; eauto.
  - (* return *)
    right; right. exists p. split_and!; try done.
    eapply Forall_set_pc; eauto. simplify_eq. simpl. by apply bool_decide_eq_true.
Qed.

Lemma step_invariant N s s' : invariant N s -> step s s' -> invariant N s'.
Proof.
  intros Hinv Hstep. split.
  - rewrite (step_length _ _ Hstep). apply Hinv.
  - intros t c. by eapply step_holder.
  - intros t. by eapply step_lock.
  - intros t. by eapply step_raised.
  - by eapply step_phase.
Qed.

Lemma reachable_invariant N s : reachable N s -> invariant N s.
Proof.
  unfold reachable. intros H. apply rtc_ind_r with (x := initial N) (1 := initial_invariant N) in H; [done|].
  intros ?? _ Hs Hi. by eapply step_invariant.
Qed.


(** A thread inside the block can always take its next step. *)
Lemma in_block_steps s t c :
  threads s !! t = Some c -> in_block c = true -> exists s', step s s'.
Proof.
  intros Ht Hc. destruct c; try done.
  - destruct (cache s) as [p|] eqn:Hp; eexists.
    + by eapply step_test_present.
    + by eapply step_test_absent.
  - eexists. by eapply step_construct_returns.
  - eexists. by eapply step_store.
  - destruct (cache s) as [p|] eqn:Hp; eexists.
    + by eapply step_return.
    + by eapply step_return_missing.
Qed.

(** No deadlock: as long as a thread has not left [_get_pipeline], some
    thread can move. *)
Lemma progress N s :
  reachable N s -> ~ all_finished s -> exists s', step s s'.
Proof.
  intros Hr Hnf. apply reachable_invariant in Hr as Hinv.
  apply not_Forall_Exists in Hnf; [|intros c; apply _].
  apply Exists_exists in Hnf as (c & Hin & Hc). simpl in Hc.
  apply list_elem_of_lookup in Hin as [t Ht].
  destruct (in_block c) eqn:Hb; [by eapply in_block_steps|].
  destruct c; try done.
  destruct (lock s) as [t'|] eqn:Hl.
  - destruct (inv_lock _ _ Hinv _ Hl) as (c' & Ht' & Hb'). by eapply in_block_steps.
  - eexists. by eapply step_acquire.
Qed.

(** C8.  Under first use of one cache key by [N] threads, in every state
    the threads can reach: at most one thread is between the membership
    test and the return (the lock covers the test and the insertion); at
    most one constructor call has returned a pipeline; all threads that
    returned hold the same instance; and once every thread has left
    [_get_pipeline] with no constructor call having raised, the
    constructor was called exactly once. *)
Theorem C8_constructed_once N s :
  reachable N s ->
  (forall t t' c c',
     threads s !! t = Some c -> threads s !! t' = Some c' ->
     in_block c = true -> in_block c' = true -> t = t')
  /\ (constructor_calls s <= S (constructor_raises s))%nat
  /\ (forall t t' p p',
        threads s !! t = Some (Returned p) -> threads s !! t' = Some (Returned p') ->
        p = p')
  /\ ((0 < N)%nat -> all_finished s -> constructor_raises s = 0%nat ->
      constructor_calls s = 1%nat).
Proof.
  intros Hr. apply reachable_invariant in Hr as Hinv. split_and!.
  - intros t t' c c' Ht Ht' Hc Hc'.
    pose proof (inv_holder _ _ Hinv _ _ Ht Hc).
    pose proof (inv_holder _ _ Hinv _ _ Ht' Hc'). congruence.
  - destruct (inv_phase _ _ Hinv) as [(_ & ? & _)|[(_ & ? & _)|(? & _ & ? & _)]]; lia.
  - intros t t' p p' Ht Ht'.
    destruct (inv_phase _ _ Hinv)
      as [(_ & _ & HF)|[(_ & _ & _ & HF)|(q & _ & _ & HF)]];
      pose proof (proj1 (Forall_lookup _ _) HF _ _ Ht) as H1;
      pose proof (proj1 (Forall_lookup _ _) HF _ _ Ht') as H2; try done.
    simpl in H1, H2. apply bool_decide_eq_true in H1, H2. congruence.
  - intros HN Hfin Hz.
    assert (exists c, threads s !! 0%nat = Some c) as [c Hc].
    { apply lookup_lt_is_Some. rewrite (inv_length _ _ Hinv). lia. }
    pose proof (proj1 (Forall_lookup _ _) Hfin _ _ Hc) as Hf.
    destruct (inv_phase _ _ Hinv)
      as [(_ & _ & HF)|[(_ & _ & (t & p & Ht) & HF)|(q & _ & ? & _)]]; [| |lia].
    + pose proof (proj1 (Forall_lookup _ _) HF _ _ Hc) as Hb.
      destruct c; try done. pose proof (inv_raised _ _ Hinv _ Hc). lia.
    + by pose proof (proj1 (Forall_lookup _ _) Hfin _ _ Ht).
Qed.

End CacheLockFacts.

(** ** Confidence aggregation and the OCR loop *)
Module StandardPdfFacts.
Import StandardPdf.

Section facts.
Context {numpy : Numpy}.

(** C4.  For a document with at least one page the aggregation sets the
    layout, table and OCR scores of the document to [nanmean] of the
    per-page scores and the parse score to [nanquantile] of the per-page
    parse scores at q = 0.1, and touches nothing else; for a document
    with no page it returns the result unchanged. *)
Theorem C4_confidence_aggregation (conv_res : ConversionResult) :
  (pages conv_res <> [] ->
   let per_page := values (confidence conv_res) in
   let aggregated := aggregate_confidence conv_res in
   layout_score (document_scores (confidence aggregated))
   = nanmean (layout_score <$> per_page)
   /\ table_score (document_scores (confidence aggregated))
      = nanmean (table_score <$> per_page)
   /\ ocr_score (document_scores (confidence aggregated))
      = nanmean (ocr_score <$> per_page)
   /\ parse_score (document_scores (confidence aggregated))
      = nanquantile (parse_score <$> per_page) (1 # 10)
   /\ confidence_pages (confidence aggregated) = confidence_pages (confidence conv_res)
   /\ pages aggregated = pages conv_res)
  /\ (pages conv_res = [] -> aggregate_confidence conv_res = conv_res).
Proof.
  unfold aggregate_confidence. split.
  - intros Hp. rewrite bool_decide_eq_true_2; [done|].
    destruct (pages conv_res); [done|simpl; lia].
  - intros ->. by rewrite bool_decide_eq_false_2 by (simpl; lia).
Qed.

End facts.

Lemma drop_nan_Some (xs : list Q) : drop_nan (Some <$> xs) = xs.
Proof.
  unfold drop_nan. induction xs as [|x xs IH]; csimpl; [done|]. by rewrite IH.
Qed.

(** With exact rationals for floats: NaN entries do not count. *)
Lemma exact_nanmean_ignores_nan (xs : list (option Q)) :
  exact_nanmean xs = exact_nanmean (Some <$> drop_nan xs).
Proof. unfold exact_nanmean. by rewrite drop_nan_Some. Qed.

Lemma exact_nanmean_value (xs : list Q) x :
  exact_nanmean (Some <$> (x :: xs))
  = Some (Qred (Qsum (x :: xs) / inject_Z (Z.of_nat (length (x :: xs))))).
Proof. unfold exact_nanmean. by rewrite drop_nan_Some. Qed.

Lemma exact_nanquantile_ignores_nan (xs : list (option Q)) q :
  exact_nanquantile xs q = exact_nanquantile (Some <$> drop_nan xs) q.
Proof. unfold exact_nanquantile. by rewrite drop_nan_Some. Qed.

End StandardPdfFacts.

Module TesseractFacts.
Import Tesseract.

Section facts.
Context {tesserocr : TesserOcr}.

Lemma body_zero_area self backend page_i i ocr_rect :
  (area ocr_rect == 0)%Q ->
  ocr_rect_body self backend page_i i ocr_rect = (self, [], []).
Proof.
  intros Hz. unfold ocr_rect_body.
  by rewrite (proj2 (Qeq_bool_iff _ _) Hz).
Qed.

Lemma loop_skips_zero_area self backend page_i (rects : list (nat * BoundingBox)) :
  ocr_rects_loop self backend page_i rects
  = ocr_rects_loop self backend page_i (filter (fun ir => nonzero_area ir = true) rects).
Proof.
  revert self. induction rects as [|[i r] rects IH]; intros self; [done|].
  rewrite filter_cons. cbn [ocr_rects_loop]. case_decide as Hnz.
  - cbn [ocr_rects_loop].
    destruct (ocr_rect_body self backend page_i i r) as [[s1 cells] ev].
    by rewrite <- IH.
  - rewrite body_zero_area.
    + rewrite <- IH.
      by destruct (ocr_rects_loop self backend page_i rects) as [[??]?].
    + apply Qeq_bool_iff. unfold nonzero_area in Hnz. simpl in Hnz.
      by destruct (Qeq_bool (area r) 0).
Qed.

Lemma recognize_events local_reader im ocr_rect sc o :
  Forall (fun e => recognizer_call e = true) (recognize local_reader im ocr_rect sc o).2.
Proof.
  unfold recognize. simpl. repeat (apply Forall_cons; split; [done|]).
  apply Forall_forall. intros e He. apply list_elem_of_In, in_flat_map in He
    as (box & _ & He).
  simpl in He. by destruct He as [<-|[<-|[<-|[]]]].
Qed.

Lemma select_reader_events self osd sc r :
  EGetPageImage sc r ∉ (select_reader self osd).2.
Proof.
  unfold select_reader. intros He.
  repeat case_match; simpl in He;
    repeat (apply elem_of_cons in He as [He|He]; [done|]);
    by apply elem_of_nil in He.
Qed.

Lemma recognize_renders_nothing lr im ocr_rect sc' o sc r :
  EGetPageImage sc r ∉ (recognize lr im ocr_rect sc' o).2.
Proof.
  intros Hin.
  by pose proof (proj1 (Forall_forall _ _) (recognize_events lr im ocr_rect sc' o) _ Hin).
Qed.

Ltac split_elem H :=
  repeat first
    [ apply elem_of_cons in H as [H|H]
    | apply elem_of_app in H as [H|H]
    | apply elem_of_nil in H; destruct H ].

(** Every crop the body asks of the backend has a non-zero area. *)
Lemma body_renders_nonzero self backend page_i i ocr_rect sc r :
  EGetPageImage sc r ∈ (ocr_rect_body self backend page_i i ocr_rect).2 ->
  ~ (area r == 0)%Q.
Proof.
  unfold ocr_rect_body.
  destruct (Qeq_bool (area ocr_rect) 0) eqn:Hz; [by rewrite elem_of_nil|].
  assert (Hnz : ~ (area ocr_rect == 0)%Q).
  { intros H. apply Qeq_bool_iff in H. congruence. }
  pose proof (select_reader_events self) as Hsel.
  pose proof (fun lr im o => recognize_renders_nothing lr im ocr_rect (scale self) o sc r)
    as Hrec.
  destruct (DetectOrientationScript _) as [osd|]; destruct (_is_auto self);
    try (specialize (Hsel osd sc r); destruct (select_reader self osd) as [[s1 lr] ev1]);
    try match goal with |- context [recognize ?a ?b ?c ?d ?e] =>
          specialize (Hrec a b e); destruct (recognize a b c d e) as [cells ev] end;
    simpl in *; intros H; split_elem H; by simplify_eq.
Qed.

Lemma loop_renders_nonzero self backend page_i (rects : list (nat * BoundingBox)) sc r :
  EGetPageImage sc r ∈ (ocr_rects_loop self backend page_i rects).2 ->
  ~ (area r == 0)%Q.
Proof.
  revert self. induction rects as [|[i r'] rects IH]; intros self; simpl.
  - by rewrite elem_of_nil.
  - pose proof (body_renders_nonzero self backend page_i i r' sc r) as Hb.
    destruct (ocr_rect_body self backend page_i i r') as [[s1 cells] ev].
    specialize (IH s1).
    destruct (ocr_rects_loop s1 backend page_i rects) as [[s2 cs] evs].
    simpl in *. rewrite elem_of_app. intros [?|?]; eauto.
Qed.

(** C5.  A rectangle of area zero is skipped: the loop body makes no call
    for it (nothing is rendered, nothing goes to the OSD detector or to a
    recogniser), adds no cell and leaves the model as it was; the loop
    over all rectangles does and returns what it does and returns over
    the rectangles of non-zero area alone; and no crop of a zero-area
    rectangle is ever asked of the backend. *)
Theorem C5_zero_area_skipped self backend page_i (ocr_rects : list BoundingBox) :
  (forall i ocr_rect,
     (area ocr_rect == 0)%Q ->
     ocr_rect_body self backend page_i i ocr_rect = (self, [], []))
  /\ ocr_rects_loop self backend page_i (enumerate ocr_rects)
     = ocr_rects_loop self backend page_i
         (filter (fun ir => nonzero_area ir = true) (enumerate ocr_rects))
  /\ (forall sc ocr_rect,
        (area ocr_rect == 0)%Q ->
        EGetPageImage sc ocr_rect
          ∉ (ocr_rects_loop self backend page_i (enumerate ocr_rects)).2).
Proof.
  split_and!.
  - intros i ocr_rect. apply body_zero_area.
  - apply loop_skips_zero_area.
  - intros sc ocr_rect Hz Hin. by apply loop_renders_nonzero in Hin.
Qed.


End facts.
End TesseractFacts.

(** ** The concrete setting: witnesses and a counterexample *)
Module ScenarioFacts.

Import Converter Scenario.


(** C1, as stated, fails: in lenient mode, with a PDF pipeline whose
    constructor raises (the artifacts folder is missing), the caller of
    [convert_all] receives no result for the document, FAILURE or other;
    the constructor's [RuntimeError] comes out of the stream, through the
    lazy loop and through the pool alike. *)
Lemma C1_lenient_construction_failure_is_raised :
  yields (stream 1 1 false [("a.pdf", PDF)] missing_folder) = []
  /\ outcome (stream 1 1 false [("a.pdf", PDF)] missing_folder)
     = Some missing_folder_error
  /\ yields (stream 4 2 false [("a.pdf", PDF)] missing_folder) = []
  /\ outcome (stream 4 2 false [("a.pdf", PDF)] missing_folder)
     = Some missing_folder_error.
Proof. by vm_compute. Qed.

Lemma C1_witness :
  yields (@convert_all sequential [("a.docx", DOCX); ("a.pdf", PDF)]
            None false 100 100 (1, 100)%Z (converter_of 1 1 missing_folder))
  = [result_of (docx "a.docx") SUCCESS]
  /\ outcome (@convert_all sequential [("a.docx", DOCX); ("a.pdf", PDF)]
                None false 100 100 (1, 100)%Z (converter_of 1 1 missing_folder))
     = Some missing_folder_error.
Proof.
  refine (proj2 (@ConverterFacts.C1_construction_failure_propagates sequential
    [("a.docx", DOCX); ("a.pdf", PDF)] None 100 100 (1, 100)%Z
    (converter_of 1 1 missing_folder)
    [docx "a.docx"] (pdf "a.pdf") [] [result_of (docx "a.docx") SUCCESS]
    (pdf_options (Some "/missing") true DoclingParseV4DocumentBackend)
    {| artifacts_path := Some "/missing"; do_ocr := true |} missing_folder_error
    _ _ _ _ _ _ _ _)).
  - by vm_compute.
  - by vm_compute.
  - exists [PDF; IMAGE; DOCX]. split; [by vm_compute|].
    by apply (bool_decide_unpack _); vm_compute.
  - by vm_compute.
  - by vm_compute.
  - by vm_compute.
  - by vm_compute.
  - by vm_compute.
Defined.

(** *** The pipeline cache *)



Lemma C10_witness :
  @_get_pipeline sequential IMAGE (@_get_pipeline sequential PDF shared).2
  = (inr (Some first_pipeline), (@_get_pipeline sequential PDF shared).2).
Proof.
  refine (@ConverterFacts.C10_backend_not_in_key sequential shared PDF IMAGE
    (pdf_options None true DoclingParseV4DocumentBackend)
    (pdf_options None true NoOpBackend)
    {| artifacts_path := None; do_ocr := true |}
    {| artifacts_path := None; do_ocr := true |}
    first_pipeline _ _ _ _ _ _ _ _);
    by vm_compute.
Defined.

(** *** Strict and lenient streams *)

Lemma C3_witness :
  (yields (@convert_all sequential
             [("a.docx", DOCX); ("scan.pdf", PDF); ("b.docx", DOCX)]
             None true 100 100 (1, 100)%Z shared)
   = [result_of (docx "a.docx") SUCCESS]
   /\ outcome (@convert_all sequential
                 [("a.docx", DOCX); ("scan.pdf", PDF); ("b.docx", DOCX)]
                 None true 100 100 (1, 100)%Z shared)
      = Some (ConversionError
                (conversion_failed_msg (result_of (pdf "scan.pdf") FAILURE))))
  /\ outcome (@convert_all sequential [] None true 100 100 (1, 100)%Z shared)
     = Some (ConversionError no_result_msg).
Proof.
  split.
  - refine (proj1 (@ConverterFacts.C3_strict_mode sequential
      [("a.docx", DOCX); ("scan.pdf", PDF); ("b.docx", DOCX)]
      None 100 100 (1, 100)%Z shared)
      [result_of (docx "a.docx") SUCCESS] (result_of (pdf "scan.pdf") FAILURE)
      [result_of (docx "b.docx") SUCCESS] _ _ _).
    + by vm_compute.
    + apply Forall_cons. split; [by left|apply Forall_nil_2].
    + by split.
  - refine (proj2 (proj2 (proj1 (proj2 (@ConverterFacts.C3_strict_mode sequential
      [] None 100 100 (1, 100)%Z shared)) _)) _);
      by vm_compute.
Defined.

Lemma C7_witness :
  (exists item,
     @_process_document sequential (audio "talk.mp3") false only_pdf
     = (inr {| input := audio "talk.mp3"; status := SKIPPED; errors := [item] |},
        only_pdf)
     /\ component_type item = USER_INPUT)
  /\ (exists msg,
        @_process_document sequential (audio "talk.mp3") true only_pdf
        = (inl (ConversionError msg), only_pdf)).
Proof.
  refine (@ConverterFacts.C7_format_not_allowed sequential only_pdf (audio "talk.mp3") _).
  intros (formats & Hf & Hin). vm_compute in Hf. injection Hf as <-.
  by apply list_elem_of_singleton in Hin.
Defined.

Lemma one_document_per_source_here : @one_document_per_source sequential.
Proof. intros conv_input format_options. apply length_fmap. Qed.

(** C9, as stated, fails: in lenient mode [convert] on a source whose
    format is not recognised as an allowed one, "notes.md" for a
    converter of PDF alone, returns a SKIPPED result; it raises no
    [StopIteration]. *)
Lemma C9_unrecognised_source_is_skipped :
  (@convert sequential ("notes.md", MD) None false 100 100 (1, 100)%Z only_pdf).1
  = inr {| input := notes_md; status := SKIPPED;
           errors := [ {| component_type := USER_INPUT; module_name := "";
                          error_message := "File format not allowed: notes.md" |} ] |}.
Proof. by vm_compute. Qed.

Lemma C9_witness :
  exists in_doc,
    @docs sequential
      {| path_or_stream_iterator := [("notes.md", MD)];
         limits := {| max_num_pages := 100; max_file_size := 100;
                      page_range := (1, 100)%Z |};
         headers := None |} (@format_to_options sequential only_pdf) = [in_doc]
    /\ @convert sequential ("notes.md", MD) None false 100 100 (1, 100)%Z only_pdf
       = @_process_document sequential in_doc false only_pdf
    /\ ~ (yields (@convert_all sequential [("notes.md", MD)] None false 100 100
                    (1, 100)%Z only_pdf) = []
          /\ outcome (@convert_all sequential [("notes.md", MD)] None false 100 100
                        (1, 100)%Z only_pdf) = None)
    /\ (~ @allowed sequential only_pdf (format in_doc) ->
        exists item,
          @convert sequential ("notes.md", MD) None false 100 100 (1, 100)%Z only_pdf
          = (inr {| input := in_doc; status := SKIPPED; errors := [item] |}, only_pdf)
          /\ component_type item = USER_INPUT).
Proof.
  exact (@ConverterFacts.C9_convert_returns_the_one_result sequential
           ("notes.md", MD) None 100 100 (1, 100)%Z only_pdf
           one_document_per_source_here).
Defined.

(** *** The lock *)

Import CacheLock.

Lemma two_threads_run : reachable 2 two_threads_done.
Proof.
  unfold reachable, initial. simpl.
  eapply rtc_l; [by eapply (step_acquire 0)|]. simpl.
  eapply rtc_l; [by eapply (step_test_absent 0)|]. simpl.
  eapply rtc_l; [by eapply (step_construct_returns 0)|]. simpl.
  eapply rtc_l; [by eapply (step_store 0)|]. simpl.
  eapply rtc_l; [by eapply (step_return 0)|]. simpl.
  eapply rtc_l; [by eapply (step_acquire 1)|]. simpl.
  eapply rtc_l; [by eapply (step_test_present 1)|]. simpl.
  eapply rtc_l; [by eapply (step_return 1)|]. simpl.
  apply rtc_refl.
Qed.

(** With a constructor that raises, every caller calls it: the number of
    calls is the number of threads. *)
Lemma two_threads_raise : reachable 2 two_threads_raised.
Proof.
  unfold reachable, initial. simpl.
  eapply rtc_l; [by eapply (step_acquire 1)|]. simpl.
  eapply rtc_l; [by eapply (step_test_absent 1)|]. simpl.
  eapply rtc_l; [by eapply (step_construct_raises 1)|]. simpl.
  eapply rtc_l; [by eapply (step_acquire 0)|]. simpl.
  eapply rtc_l; [by eapply (step_test_absent 0)|]. simpl.
  eapply rtc_l; [by eapply (step_construct_raises 0)|]. simpl.
  apply rtc_refl.
Qed.

(** C8, as stated, fails when the constructor raises: two threads use one
    cache key for the first time, the constructor call of the first
    raises, nothing is stored, and the second thread, finding the key
    absent, calls the constructor again.  Both threads have left
    [_get_pipeline] and the constructor was called twice. *)
Lemma C8_raising_constructor_is_called_again :
  reachable 2 two_threads_raised
  /\ all_finished two_threads_raised
  /\ constructor_calls two_threads_raised = 2%nat.
Proof. split_and!; [exact two_threads_raise|by repeat constructor|reflexivity]. Qed.

Lemma C8_witness : constructor_calls two_threads_done = 1%nat.
Proof.
  refine (proj2 (proj2 (proj2
    (CacheLockFacts.C8_constructed_once 2 two_threads_done two_threads_run))) _ _ _).
  - lia.
  - repeat constructor.
  - reflexivity.
Defined.

(** *** Confidence aggregation *)

(** The example of the specification: the 10th percentile of the parse
    scores 0.9, 0.95, 0.2, 0.97 and 0.99 is 0.48, their mean 0.802. *)
Lemma parse_score_example :
  StandardPdf.exact_nanquantile
    [Some (9 # 10); Some (95 # 100); Some (2 # 10); Some (97 # 100); Some (99 # 100)]
    (1 # 10)
  = Some (12 # 25)
  /\ StandardPdf.exact_nanmean
       [Some (9 # 10); Some (95 # 100); Some (2 # 10); Some (97 # 100); Some (99 # 100)]
     = Some (401 # 500).
Proof. by vm_compute. Qed.

Lemma C4_witness :
  (@StandardPdf.layout_score StandardPdf.exact_numpy
     (StandardPdf.document_scores
        (StandardPdf.confidence (StandardPdf.aggregate_confidence five_pages)))
   = Some (7 # 10)
   /\ @StandardPdf.table_score StandardPdf.exact_numpy
        (StandardPdf.document_scores
           (StandardPdf.confidence (StandardPdf.aggregate_confidence five_pages)))
      = nan
   /\ @StandardPdf.ocr_score StandardPdf.exact_numpy
        (StandardPdf.document_scores
           (StandardPdf.confidence (StandardPdf.aggregate_confidence five_pages)))
      = Some (1 # 2)
   /\ @StandardPdf.parse_score StandardPdf.exact_numpy
        (StandardPdf.document_scores
           (StandardPdf.confidence (StandardPdf.aggregate_confidence five_pages)))
      = Some (12 # 25))
  /\ StandardPdf.aggregate_confidence no_pages = no_pages.
Proof.
  pose proof (@StandardPdfFacts.C4_confidence_aggregation StandardPdf.exact_numpy
                five_pages) as [H5 _].
  pose proof (@StandardPdfFacts.C4_confidence_aggregation StandardPdf.exact_numpy
                no_pages) as [_ H0].
  destruct H5 as (Hl & Ht & Ho & Hp & _); [done|].
  split; [|by apply H0].
  rewrite Hl, Ht, Ho, Hp. by vm_compute.
Defined.

(** *** The OCR loop *)

Lemma C5_witness :
  @Tesseract.ocr_rect_body tess (ocr_model false) tt 0 0 empty_rect
  = (ocr_model false, [], [])
  /\ @Tesseract.ocr_rects_loop tess (ocr_model false) tt 0
       (Tesseract.enumerate [empty_rect; text_rect])
     = @Tesseract.ocr_rects_loop tess (ocr_model false) tt 0 [(1%nat, text_rect)].
Proof.
  pose proof (@TesseractFacts.C5_zero_area_skipped tess (ocr_model false) tt 0
                [empty_rect; text_rect]) as (Hbody & Hloop & _).
  split.
  - apply Hbody. by vm_compute.
  - exact Hloop.
Defined.


End ScenarioFacts.

(** ** More about the converter *)
Module ConverterMoreFacts.

Import Converter ConverterMore ConverterPool.

Section facts.

Context {collaborators : Collaborators}.

Implicit Types (self : DocumentConverter) (fopt : FormatOption PipelineOptions).

#[local] Abbreviation Stream := (GenStep DocumentConverter ConversionResult).

(** *** Format options and the constructor *)

Lemma default_option_value format :
  exists cls b,
    _get_default_option format = inr (new_FormatOption cls b).
Proof. destruct format; vm_compute; eauto. Qed.

Lemma format_to_options_of_spec formats format_options acc :
  exists m,
    format_to_options_of formats format_options acc = inr m
    /\ forall f,
         m !! f
         = if bool_decide (f ∈ formats)
           then match format_options !! f with
                | Some custom => Some custom
                | None => match _get_default_option f with
                          | inr o => Some o
                          | inl _ => None
                          end
                end
           else acc !! f.
Proof.
  revert acc. induction formats as [|g formats IH]; intros acc.
  - exists acc. split; [done|]. intros f.
    by rewrite bool_decide_eq_false_2 by apply not_elem_of_nil.
  - simpl.
    assert (Hgoal : forall o,
      match format_options !! g with
      | Some custom => Some custom
      | None => match _get_default_option g with inr o' => Some o' | inl _ => None end
      end = Some o ->
      exists m, format_to_options_of formats format_options (<[g:=o]> acc) = inr m /\
        forall f, m !! f
          = if bool_decide (f ∈ g :: formats)
            then match format_options !! f with
                 | Some custom => Some custom
                 | None => match _get_default_option f with
                           | inr o' => Some o'
                           | inl _ => None
                           end
                 end
            else acc !! f).
    { intros o Ho. destruct (IH (<[g:=o]> acc)) as (m & Hm & Hl).
      exists m. split; [done|]. intros f. rewrite Hl.
      destruct (decide (f = g)) as [->|Hne].
      - rewrite (bool_decide_eq_true_2 (g ∈ g :: formats)) by apply list_elem_of_here.
        case_bool_decide; [done|]. by rewrite lookup_insert_eq.
      - rewrite lookup_insert_ne by done.
        rewrite (bool_decide_ext (f ∈ g :: formats) (f ∈ formats)); [done|].
        rewrite elem_of_cons. split; [by intros [?|?]|by right]. }
    destruct (format_options !! g) as [custom|] eqn:Hc.
    + by apply Hgoal.
    + destruct (ConverterFacts.get_default_option_total g) as [o Ho].
      rewrite Ho in Hgoal |- *. by apply Hgoal.
Qed.

Lemma init_spec allowed_formats_arg format_options_arg :
  exists self,
    __init__ allowed_formats_arg format_options_arg = inr self
    /\ allowed_formats self = Some (default all_formats allowed_formats_arg)
    /\ initialized_pipelines self = ∅
    /\ (forall f, f ∉ default all_formats allowed_formats_arg ->
                  format_to_options self !! f = None)
    /\ (forall f custom,
          f ∈ default all_formats allowed_formats_arg ->
          default ∅ format_options_arg !! f = Some custom ->
          format_to_options self !! f = Some custom)
    /\ (forall f,
          f ∈ default all_formats allowed_formats_arg ->
          default ∅ format_options_arg !! f = None ->
          inr <$> format_to_options self !! f = Some (_get_default_option f)).
Proof.
  unfold __init__.
  destruct (format_to_options_of_spec (default all_formats allowed_formats_arg)
              (default ∅ format_options_arg) ∅) as (m & -> & Hl).
  eexists. split; [done|]. simpl. split_and!; try done.
  - intros f Hf. by rewrite Hl, bool_decide_eq_false_2, lookup_empty.
  - intros f custom Hf Hc. by rewrite Hl, bool_decide_eq_true_2, Hc.
  - intros f Hf Hc. rewrite Hl, bool_decide_eq_true_2, Hc by done.
    by destruct (ConverterFacts.get_default_option_total f) as [o ->].
Qed.

(** X1.  The constructor never raises; the converter it returns knows
    exactly the allowed formats, each with the caller's option if one was
    given and with the default option otherwise, and has nothing cached. *)
Theorem X1_init_binds_allowed_formats allowed_formats_arg format_options_arg :
  exists self,
    __init__ allowed_formats_arg format_options_arg = inr self
    /\ allowed_formats self = Some (default all_formats allowed_formats_arg)
    /\ initialized_pipelines self = ∅
    /\ (forall f, f ∉ default all_formats allowed_formats_arg ->
                  format_to_options self !! f = None)
    /\ (forall f custom,
          f ∈ default all_formats allowed_formats_arg ->
          default ∅ format_options_arg !! f = Some custom ->
          format_to_options self !! f = Some custom)
    /\ (forall f,
          f ∈ default all_formats allowed_formats_arg ->
          default ∅ format_options_arg !! f = None ->
          inr <$> format_to_options self !! f = Some (_get_default_option f)).
Proof. apply init_spec. Qed.

(** X2.  A subclass of [FormatOption] built without arguments is the
    default option of the format it is named after, so a converter given
    such options is the converter given none. *)
Theorem X2_stock_options_change_nothing allowed_formats_arg
    (format_options : gmap InputFormat (FormatOption PipelineOptions)) :
  (forall cls, _get_default_option (named_after cls) = inr (construct cls None None None))
  /\ ((forall f o, format_options !! f = Some o ->
         exists cls, named_after cls = f /\ o = construct cls None None None) ->
      __init__ allowed_formats_arg (Some format_options)
      = __init__ allowed_formats_arg None).
Proof.
  assert (Hstock : forall cls,
    _get_default_option (named_after cls) = inr (construct cls None None None)).
  { intros cls. by destruct cls; vm_compute. }
  split; [done|]. intros Hfo.
  destruct (init_spec allowed_formats_arg (Some format_options))
    as (s1 & H1 & Ha1 & Hc1 & Hn1 & Hcu1 & Hd1).
  destruct (init_spec allowed_formats_arg None)
    as (s2 & H2 & Ha2 & Hc2 & Hn2 & Hcu2 & Hd2).
  rewrite H1, H2. f_equal.
  unfold __init__ in H1, H2.
  destruct (format_to_options_of _ (default ∅ (Some format_options)) ∅) as [|m1];
    [done|].
  destruct (format_to_options_of _ (default ∅ None) ∅) as [|m2]; [done|].
  simplify_eq/=. f_equal. apply map_eq. intros f.
  destruct (decide (f ∈ default all_formats allowed_formats_arg)) as [Hin|Hout].
  - specialize (Hd2 f Hin (lookup_empty _)).
    destruct (format_options !! f) as [o|] eqn:Ho.
    + rewrite (Hcu1 f o Hin Ho).
      destruct (Hfo f o Ho) as (cls & <- & ->).
      rewrite Hstock in Hd2. destruct (m2 !! named_after cls); by simplify_eq/=.
    + specialize (Hd1 f Hin Ho). rewrite <- Hd2 in Hd1.
      destruct (m1 !! f), (m2 !! f); by simplify_eq/=.
  - by rewrite Hn1, Hn2.
Qed.

(** *** How the converter changes *)

Lemma extends_refl self : extends self self.
Proof. by split_and!. Qed.

Lemma extends_trans s1 s2 s3 : extends s1 s2 -> extends s2 s3 -> extends s1 s3.
Proof.
  intros (Ha & Hf & Hc & Hn) (Ha' & Hf' & Hc' & Hn').
  split_and!; [congruence|congruence|eauto|lia].
Qed.

Lemma get_pipeline_extends self f r self' :
  _get_pipeline f self = (r, self') -> extends self self'.
Proof.
  intros H. destruct (ConverterFacts.get_pipeline_frame _ _ _ _ H) as (Ha & Hf & Hc).
  split_and!; try done.
  unfold _get_pipeline in H.
  destruct (format_to_options self !! f) as [fopt|]; [|by simplify_eq].
  destruct (pipeline_options fopt) as [o|]; [|by simplify_eq].
  destruct (initialized_pipelines self !! _) as [q|] eqn:Hq.
  - simpl in H. by simplify_eq.
  - destruct (pipeline_init _ _); [by simplify_eq|]. simpl in H.
    rewrite lookup_insert_eq in H. simplify_eq/=. lia.
Qed.

Lemma process_document_extends self in_doc roe r self' :
  _process_document in_doc roe self = (r, self') -> extends self self'.
Proof.
  unfold _process_document, _execute_pipeline. intros H.
  destruct (_get_pipeline (format in_doc) self) as [g s1] eqn:Hg.
  apply get_pipeline_extends in Hg.
  pose proof (extends_refl self).
  repeat case_match; by simplify_eq.
Qed.

Lemma get_pipeline_keyed self f r self' :
  keyed_by_content self -> _get_pipeline f self = (r, self') -> keyed_by_content self'.
Proof.
  intros Hk H. unfold _get_pipeline in H.
  destruct (format_to_options self !! f) as [fopt|]; [|by simplify_eq].
  destruct (pipeline_options fopt) as [o|]; [|by simplify_eq].
  destruct (initialized_pipelines self !! _) as [q|] eqn:Hq.
  - simpl in H. by simplify_eq.
  - destruct (pipeline_init _ _); [by simplify_eq|]. simpl in H.
    rewrite lookup_insert_eq in H. simplify_eq/=.
    intros k p. simpl. rewrite lookup_insert. case_decide.
    + intros [= <-]. by subst.
    + apply Hk.
Qed.

Lemma process_document_keyed self in_doc roe r self' :
  keyed_by_content self -> _process_document in_doc roe self = (r, self') ->
  keyed_by_content self'.
Proof.
  intros Hk. unfold _process_document, _execute_pipeline. intros H.
  destruct (_get_pipeline (format in_doc) self) as [g s1] eqn:Hg.
  apply (get_pipeline_keyed _ _ _ _ Hk) in Hg.
  repeat case_match; by simplify_eq.
Qed.

(** *** What holds along a stream *)

Lemma along_drain {St A} (P : St -> Prop) (g : GenStep St A) :
  along P g -> P (drain g).2.
Proof.
  induction g as [a s k IH|s|e s]; simpl; [|done..].
  intros [_ Hk]. specialize (IH s Hk). by destruct (drain (k s)) as [[??]?].
Qed.

Lemma along_next {St A} (P : St -> Prop) (g : GenStep St A) :
  along P g -> P (next g).2.
Proof. destruct g; simpl; [by intros [? _]|done..]. Qed.

Lemma along_loop (P : DocumentConverter -> Prop) roe had_result (it : Stream) :
  along P it -> along P (convert_all_loop roe had_result it).
Proof.
  revert had_result. induction it as [a s k IH|s|e s]; intros had_result; simpl.
  - intros [Hs Hk]. destruct (roe && negb (status_ok a)); simpl; [done|].
    split; [done|]. by apply IH.
  - intros Hs. by destruct (negb had_result && roe).
  - done.
Qed.

Section invariant.

Variable D : InputDocument -> Prop.
Variable Inv : DocumentConverter -> Prop.
Hypothesis Inv_step : forall in_doc roe self r self',
  D in_doc -> Inv self -> _process_document in_doc roe self = (r, self') -> Inv self'.

Lemma along_yield_map roe batch after self :
  Forall D batch -> Inv self -> (forall s, Inv s -> along Inv (after s)) ->
  along Inv (yield_map roe batch after self).
Proof.
  intros Hb Hs Hafter. revert self Hs.
  induction Hb as [|d batch Hd Hb IH]; intros self Hs; simpl; [by apply Hafter|].
  destruct (_process_document d roe self) as [[e|r] s1] eqn:Hp;
    pose proof (Inv_step _ _ _ _ _ Hd Hs Hp); simpl; [done|].
  split; [done|]. by apply IH.
Qed.

Lemma pool_map_inv roe batch self :
  Forall D batch -> Inv self -> Inv (pool_map roe batch self).2.
Proof.
  intros Hb. revert self.
  induction Hb as [|d batch Hd Hb IH]; intros self Hs; simpl; [done|].
  destruct (_process_document d roe self) as [r s1] eqn:Hp.
  pose proof (Inv_step _ _ _ _ _ Hd Hs Hp) as Hs1. specialize (IH s1 Hs1).
  by destruct (pool_map roe batch s1).
Qed.

Lemma along_yield_futures futures after self :
  Inv self -> (forall s, Inv s -> along Inv (after s)) ->
  along Inv (yield_futures futures after self).
Proof.
  intros Hs Hafter. induction futures as [|[e|r] futures IH]; simpl; eauto.
Qed.

Lemma along_convert_batches batches roe self :
  Forall (Forall D) batches -> Inv self ->
  along Inv (_convert_batches batches roe self).
Proof.
  intros Hb. revert self.
  induction Hb as [|b batches Hd Hb IH]; intros self Hs; simpl; [done|].
  case_match.
  - pose proof (pool_map_inv roe b self Hd Hs) as Hp.
    destruct (pool_map roe b self) as [futures s1]. by apply along_yield_futures.
  - by apply along_yield_map.
Qed.

Lemma along_convert_all source headers roe mnp mfs pr self :
  Forall D (docs {| path_or_stream_iterator := source;
                    limits := {| max_num_pages := mnp; max_file_size := mfs;
                                 page_range := pr |};
                    headers := headers |} (format_to_options self)) ->
  Inv self -> along Inv (convert_all source headers roe mnp mfs pr self).
Proof.
  intros Hd Hs. unfold convert_all, _convert.
  apply along_loop, along_convert_batches; [|done].
  apply Forall_concat. by rewrite ConverterFacts.concat_chunkify.
Qed.

End invariant.

Lemma Forall_any {A} (l : list A) : Forall (fun _ => True) l.
Proof. by apply Forall_true. Qed.

Lemma along_extends source headers roe mnp mfs pr self :
  along (extends self) (convert_all source headers roe mnp mfs pr self).
Proof.
  apply (along_convert_all (fun _ => True)); [|apply Forall_any|apply extends_refl].
  intros d r0 s r s' _ Hs Hd. eapply extends_trans; [done|].
  by eapply process_document_extends.
Qed.

(** X3.  [initialize_pipeline] raises a [ConversionError] for a format
    the converter has no option for and lets a constructor's exception
    through; when it returns, the pipeline of the format is cached: a
    later [_get_pipeline] finds it without changing the converter, and a
    valid document of the format is handed straight to [execute] of that
    pipeline. *)
Theorem X3_initialize_pipeline_prewarms self f :
  (format_to_options self !! f = None ->
   exists msg, initialize_pipeline f self = (inl (ConversionError msg), self))
  /\ (forall fopt o e,
        format_to_options self !! f = Some fopt ->
        pipeline_options fopt = Some o ->
        initialized_pipelines self
          !! (pipeline_cls fopt, _get_pipeline_options_hash o) = None ->
        pipeline_init (pipeline_cls fopt) o = Some e ->
        initialize_pipeline f self = (inl e, self))
  /\ ((initialize_pipeline f self).1 = inr tt ->
      let warmed := (initialize_pipeline f self).2 in
      extends self warmed
      /\ exists p,
           _get_pipeline f warmed = (inr (Some p), warmed)
           /\ forall in_doc roe,
                format in_doc = f -> allowed self f -> valid in_doc = true ->
                _process_document in_doc roe warmed = (execute p in_doc roe, warmed)).
Proof.
  unfold initialize_pipeline. split_and!.
  - intros Hf. unfold _get_pipeline. rewrite Hf. eauto.
  - intros fopt o e Hf Ho Hk He.
    by rewrite (ConverterFacts.get_pipeline_raises _ _ _ _ _ Hf Ho Hk He).
  - destruct (_get_pipeline f self) as [[e|[p|]] s1] eqn:Hg; simpl; try done.
    intros _. pose proof (get_pipeline_extends _ _ _ _ Hg) as Hext.
    split; [done|]. exists p.
    destruct (ConverterFacts.get_pipeline_returns _ _ _ _ Hg)
      as (fopt & k & Hf & Hk & Hp & Ha & Hfo & _).
    assert (Hagain : _get_pipeline f s1 = (inr (Some p), s1)).
    { eapply ConverterFacts.get_pipeline_cached; [by rewrite Hfo|done..]. }
    split; [done|]. intros in_doc roe <- Hal Hv.
    unfold _process_document.
    assert (allowed s1 (format in_doc)) as Hal1.
    { destruct Hal as (formats & ? & ?). exists formats. by rewrite Ha. }
    apply ConverterFacts.allowed_bool in Hal1. rewrite Hal1.
    unfold _execute_pipeline. by rewrite Hv, Hagain.
Qed.

(** *** The pool under any schedule *)

(** What [_get_pipeline] returns in a state whose cache was built from
    the options, told by the options alone. *)
Lemma get_pipeline_by_options self f :
  built_from_options self -> digests_tell_options_apart self ->
  match format_to_options self !! f with
  | None => (_get_pipeline f self).1 = inr None
  | Some fopt =>
      match pipeline_options fopt with
      | None => (_get_pipeline f self).1 = inr None
      | Some o =>
          match pipeline_init (pipeline_cls fopt) o with
          | Some e => (_get_pipeline f self).1 = inl e
          | None =>
              exists p,
                (_get_pipeline f self).1 = inr (Some p)
                /\ pipeline_class_of p = pipeline_cls fopt
                /\ pipeline_options_of p = o
          end
      end
  end.
Proof.
  intros Hb Hd. unfold _get_pipeline.
  destruct (format_to_options self !! f) as [fopt|] eqn:Hf; [|done].
  destruct (pipeline_options fopt) as [o|] eqn:Ho; [|done].
  destruct (initialized_pipelines self !! _) as [p|] eqn:Hp.
  - simpl.
    destruct (Hb _ _ Hp) as (Hi & Hk & f' & fopt' & Hf' & Hc' & Ho').
    injection Hk as Hc Hh.
    assert (o = pipeline_options_of p) as ->.
    { eapply (Hd f f' fopt fopt'); try done. congruence. }
    rewrite Hc, Hi. eauto.
  - destruct (pipeline_init (pipeline_cls fopt) o) as [e|]; [done|].
    simpl. rewrite lookup_insert_eq. simpl. eauto.
Qed.

Lemma get_pipeline_same self self' f :
  built_from_options self -> built_from_options self' ->
  digests_tell_options_apart self ->
  format_to_options self' = format_to_options self ->
  same_pipeline (_get_pipeline f self).1 (_get_pipeline f self').1.
Proof.
  intros Hb Hb' Hd Hfo.
  assert (Hd' : digests_tell_options_apart self').
  { unfold digests_tell_options_apart. rewrite Hfo. exact Hd. }
  pose proof (get_pipeline_by_options self f Hb Hd) as H.
  pose proof (get_pipeline_by_options self' f Hb' Hd') as H'.
  rewrite Hfo in H'.
  destruct (format_to_options self !! f) as [fopt|]; [|by rewrite H, H'].
  destruct (pipeline_options fopt) as [o|]; [|by rewrite H, H'].
  destruct (pipeline_init (pipeline_cls fopt) o) as [e|]; [by rewrite H, H'|].
  destruct H as (p & -> & Hc & Ho), H' as (p' & -> & Hc' & Ho').
  simpl. split; congruence.
Qed.

(** The result of processing a document does not depend on what is
    cached. *)
Lemma process_document_same self self' in_doc roe :
  execute_by_content ->
  built_from_options self -> built_from_options self' ->
  digests_tell_options_apart self ->
  allowed_formats self' = allowed_formats self ->
  format_to_options self' = format_to_options self ->
  (_process_document in_doc roe self').1 = (_process_document in_doc roe self).1.
Proof.
  intros He Hb Hb' Hd Ha Hfo.
  pose proof (get_pipeline_same self self' (format in_doc) Hb Hb' Hd Hfo) as Hs.
  unfold _process_document, _execute_pipeline. rewrite Ha.
  destruct (match allowed_formats self with
            | None => false
            | Some formats => bool_decide (format in_doc ∈ formats)
            end); [|by destruct roe].
  destruct (valid in_doc); [|by destruct roe].
  destruct (_get_pipeline (format in_doc) self) as [[e|[p|]] s1],
           (_get_pipeline (format in_doc) self') as [[e'|[p'|]] s1'];
    simpl in Hs; try done.
  - by subst.
  - destruct Hs as [Hc Ho]. simpl. symmetry. by apply He.
  - by destruct roe.
Qed.

Lemma get_pipeline_built self f r self' :
  built_from_options self -> _get_pipeline f self = (r, self') ->
  built_from_options self'.
Proof.
  intros Hb H. unfold _get_pipeline in H.
  destruct (format_to_options self !! f) as [fopt|] eqn:Hf; [|by simplify_eq].
  destruct (pipeline_options fopt) as [o|] eqn:Ho; [|by simplify_eq].
  destruct (initialized_pipelines self !! _) as [q|] eqn:Hq.
  - simpl in H. by simplify_eq.
  - destruct (pipeline_init _ _) eqn:Hi; [by simplify_eq|]. simpl in H.
    rewrite lookup_insert_eq in H. simplify_eq/=.
    intros k p. simpl. rewrite lookup_insert. case_decide as Hk.
    + intros [= <-]. simpl. split_and!; [done|done|]. exists f, fopt. by split_and!.
    + apply Hb.
Qed.

Lemma process_document_built self in_doc roe r self' :
  built_from_options self -> _process_document in_doc roe self = (r, self') ->
  built_from_options self'.
Proof.
  intros Hb. unfold _process_document, _execute_pipeline. intros H.
  destruct (_get_pipeline (format in_doc) self) as [g s1] eqn:Hg.
  apply (get_pipeline_built _ _ _ _ Hb) in Hg.
  repeat case_match; by simplify_eq.
Qed.

Lemma running_step self s in_doc roe r s' :
  running_from self s -> _process_document in_doc roe s = (r, s') ->
  running_from self s'.
Proof.
  intros (Hb & Ha & Hf) Hp.
  destruct (process_document_extends _ _ _ _ _ Hp) as (Ha' & Hf' & _).
  split_and!; [by eapply process_document_built|congruence..].
Qed.

Lemma pool_map_results self s roe batch i :
  execute_by_content -> built_from_options self ->
  digests_tell_options_apart self -> running_from self s ->
  (pool_map roe batch s).1 !! i
  = (fun d => (_process_document d roe self).1) <$> batch !! i.
Proof.
  intros He Hb Hd. revert s i.
  induction batch as [|d batch IH]; intros s i Hs; [done|]. simpl.
  destruct (_process_document d roe s) as [r s1] eqn:Hp.
  pose proof (running_step _ _ _ _ _ _ Hs Hp) as Hs1.
  specialize (IH s1). destruct (pool_map roe batch s1) as [rs s2].
  destruct i as [|i]; simpl.
  - f_equal. destruct Hs as (Hbs & Ha & Hf).
    rewrite <- (process_document_same self s d roe He Hb Hbs Hd Ha Hf).
    by rewrite Hp.
  - by apply IH.
Qed.

Lemma pool_map_scheduled_results self s roe batch schedule i :
  execute_by_content -> built_from_options self ->
  digests_tell_options_apart self -> running_from self s ->
  (pool_map_scheduled roe batch schedule s).1 !! i
  = if bool_decide (i ∈ schedule)
    then (fun d => (_process_document d roe self).1) <$> batch !! i
    else None.
Proof.
  intros He Hb Hd. revert s.
  induction schedule as [|j later IH]; intros s Hs; simpl.
  - apply lookup_empty.
  - destruct (batch !! j) as [d|] eqn:Hj.
    + destruct (_process_document d roe s) as [r s1] eqn:Hp.
      pose proof (running_step _ _ _ _ _ _ Hs Hp) as Hs1.
      specialize (IH s1 Hs1).
      destruct (pool_map_scheduled roe batch later s1) as [futures s2].
      simpl in *. destruct (decide (i = j)) as [->|Hne].
      * rewrite lookup_insert_eq, bool_decide_eq_true_2 by apply list_elem_of_here.
        rewrite Hj. simpl. f_equal. destruct Hs as (Hbs & Ha & Hf).
        rewrite <- (process_document_same self s d roe He Hb Hbs Hd Ha Hf).
        by rewrite Hp.
      * rewrite lookup_insert_ne, IH by done.
        apply (f_equal (fun b : bool => if b then _ else _)).
        apply bool_decide_ext. rewrite elem_of_cons.
        split; [by right|by intros [?|?]].
    + rewrite (IH s Hs). destruct (decide (i = j)) as [->|Hne].
      * rewrite Hj. simpl. by destruct (bool_decide _), (bool_decide _).
      * apply (f_equal (fun b : bool => if b then _ else _)).
        apply bool_decide_ext. rewrite elem_of_cons.
        split; [by right|by intros [?|?]].
Qed.

Lemma pool_order_is_immaterial self roe batch schedule i :
  execute_by_content -> built_from_options self ->
  digests_tell_options_apart self ->
  schedule ≡ₚ seq 0 (length batch) ->
  (pool_map_scheduled roe batch schedule self).1 !! i
  = (pool_map roe batch self).1 !! i.
Proof.
  intros He Hb Hd Hperm.
  assert (Hs : running_from self self) by by split_and!.
  rewrite (pool_map_scheduled_results self self) by done.
  rewrite (pool_map_results self self) by done.
  case_bool_decide as Hi; [done|].
  rewrite Hperm, elem_of_seq in Hi.
  rewrite (lookup_ge_None_2 batch i) by lia. done.
Qed.

(** X4.  For every positive batch size and every number of workers, lazy
    loop or pool, the stream of [_convert] yields the results of
    processing the documents one by one in submission order, up to the
    first document whose processing raises, and raises what that document
    raised; in lenient mode [convert_all] yields and raises the same.
    The pool is modelled by the run in which the tasks of a batch reach
    the converter in submission order, and that loses nothing: when
    [execute] looks at the class and the options of a pipeline only, the
    digests tell the options of the converter apart and the cache was
    built from these options, the results filed by position are the same
    in whatever order the tasks reach the converter. *)
Theorem X4_stream_in_submission_order conv_input roe self :
  yields (_convert conv_input roe self)
  = (process_in_order roe (docs conv_input (format_to_options self)) self).1.1
  /\ outcome (_convert conv_input roe self)
     = (process_in_order roe (docs conv_input (format_to_options self)) self).1.2
  /\ (forall had_result,
        drain (convert_all_loop false had_result (_convert conv_input roe self))
        = drain (_convert conv_input roe self))
  /\ (execute_by_content -> digests_tell_options_apart self ->
      built_from_options self ->
      forall input_batch schedule i,
        schedule ≡ₚ seq 0 (length input_batch) ->
        (pool_map_scheduled roe input_batch schedule self).1 !! i
        = (pool_map roe input_batch self).1 !! i).
Proof.
  unfold yields, outcome. rewrite ConverterFacts.convert_in_order.
  split_and!; try done.
  - intros. apply ConverterFacts.convert_all_loop_lenient.
  - intros He Hd Hb input_batch schedule i Hperm.
    by apply pool_order_is_immaterial.
Qed.

Lemma process_document_lenient_result self in_doc :
  (forall f fopt o,
     format_to_options self !! f = Some fopt -> pipeline_options fopt = Some o ->
     pipeline_init (pipeline_cls fopt) o = None) ->
  (forall p d, exists r, execute p d false = inr r /\ input r = d) ->
  exists r self',
    _process_document in_doc false self = (inr r, self') /\ input r = in_doc.
Proof.
  intros Hinit Hexec. unfold _process_document, _execute_pipeline.
  destruct (match allowed_formats self with
            | None => false
            | Some formats => bool_decide (format in_doc ∈ formats)
            end); [|by eauto].
  destruct (valid in_doc); [|by eauto].
  destruct (_get_pipeline (format in_doc) self) as [[e|[p|]] s1] eqn:Hg.
  - exfalso. unfold _get_pipeline in Hg.
    destruct (format_to_options self !! format in_doc) as [fopt|] eqn:Hf; [|done].
    destruct (pipeline_options fopt) as [o|] eqn:Ho; [|done].
    destruct (initialized_pipelines self !! _) as [q|] eqn:Hq; [done|].
    rewrite (Hinit _ _ _ Hf Ho) in Hg. simpl in Hg. by rewrite lookup_insert_eq in Hg.
  - destruct (Hexec p in_doc) as (r & -> & Hr). eauto.
  - eauto.
Qed.

Lemma process_in_order_lenient in_docs self :
  (forall f fopt o,
     format_to_options self !! f = Some fopt -> pipeline_options fopt = Some o ->
     pipeline_init (pipeline_cls fopt) o = None) ->
  (forall p d, exists r, execute p d false = inr r /\ input r = d) ->
  (process_in_order false in_docs self).1.2 = None
  /\ input <$> (process_in_order false in_docs self).1.1 = in_docs.
Proof.
  intros Hinit Hexec. revert self Hinit.
  induction in_docs as [|d in_docs IH]; intros self Hinit; simpl; [done|].
  destruct (process_document_lenient_result self d Hinit Hexec) as (r & s1 & Hd & Hr).
  rewrite Hd. apply process_document_extends in Hd as (_ & Hfo & _).
  destruct (IH s1) as [Ho Hi]; [by rewrite Hfo|].
  destruct (process_in_order false in_docs s1) as [[rs o] s2].
  cbn [fst snd] in *. split; [done|]. csimpl. by rewrite Hr, Hi.
Qed.

(** X5.  In lenient mode, if no constructor raises for the options the
    converter holds and [execute] returns a result for the document it is
    given, [convert_all] ends without an exception and yields exactly one
    result per document, in the order of the documents. *)
Theorem X5_lenient_one_result_per_document
    source headers max_num_pages max_file_size page_range self :
  (forall f fopt o,
     format_to_options self !! f = Some fopt -> pipeline_options fopt = Some o ->
     pipeline_init (pipeline_cls fopt) o = None) ->
  (forall p d, exists r, execute p d false = inr r /\ input r = d) ->
  outcome (convert_all source headers false max_num_pages max_file_size
             page_range self) = None
  /\ input <$> yields (convert_all source headers false max_num_pages max_file_size
                         page_range self)
     = docs {| path_or_stream_iterator := source;
               limits := {| max_num_pages := max_num_pages;
                            max_file_size := max_file_size;
                            page_range := page_range |};
               headers := headers |} (format_to_options self).
Proof.
  intros Hinit Hexec. unfold yields, outcome, convert_all.
  rewrite ConverterFacts.convert_all_loop_lenient, ConverterFacts.convert_in_order.
  by apply process_in_order_lenient.
Qed.

(** X6.  Nothing a conversion does removes or replaces a cached pipeline
    or touches the configuration: in every state the stream of
    [convert_all] passes through, in strict or lenient mode, and in the
    state [convert] leaves, the converter has the allowed formats and the
    options it started with and every pipeline it had cached, under the
    same key. *)
Theorem X6_cache_only_grows
    source one_source headers roe max_num_pages max_file_size page_range self :
  along (extends self)
    (convert_all source headers roe max_num_pages max_file_size page_range self)
  /\ extends self
       (drain (convert_all source headers roe max_num_pages max_file_size
                 page_range self)).2
  /\ extends self
       (convert one_source headers roe max_num_pages max_file_size page_range self).2.
Proof.
  split_and!.
  - apply along_extends.
  - apply along_drain, along_extends.
  - unfold convert. apply along_next, along_extends.
Qed.

(** X7.  If, before a conversion, no object is cached under two keys and
    every cached pipeline sits under the key computed from its own class
    and options, then the same is true in every state the stream passes
    through. *)
Theorem X7_cache_invariants
    source headers roe max_num_pages max_file_size page_range self :
  well_formed self -> keyed_by_content self ->
  along (fun s => well_formed s /\ keyed_by_content s)
    (convert_all source headers roe max_num_pages max_file_size page_range self).
Proof.
  intros Hwf Hk. apply (along_convert_all (fun _ => True)); [|apply Forall_any|done].
  intros d r0 s r s' _ [Hw Hc] Hd. split.
  - by eapply ConverterFacts.process_document_well_formed.
  - by eapply process_document_keyed.
Qed.

Lemma invalid_document_turned_away self in_doc :
  allowed self (format in_doc) -> valid in_doc = false ->
  _process_document in_doc false self
  = (inr {| input := in_doc; status := FAILURE; errors := [] |}, self)
  /\ _process_document in_doc true self
     = (inl (ConversionError ("Input document " +:+ file in_doc +:+ " is not valid.")),
        self).
Proof.
  intros Ha Hv. apply ConverterFacts.allowed_bool in Ha.
  unfold _process_document, _execute_pipeline. by rewrite Ha, Hv.
Qed.

(** X8.  Documents of allowed formats that are not valid never reach a
    pipeline, whatever the batch size and the concurrency: in lenient
    mode [convert_all] yields for each of them, in order, a FAILURE
    result without an error item, ends normally and leaves the converter
    exactly as it was, nothing looked up and nothing constructed; in
    strict mode the first such document, if the documents start with it,
    makes [convert_all] raise a [ConversionError] before any result. *)
Theorem X8_invalid_documents_meet_no_pipeline
    source headers max_num_pages max_file_size page_range self :
  let in_docs :=
    docs {| path_or_stream_iterator := source;
            limits := {| max_num_pages := max_num_pages;
                         max_file_size := max_file_size;
                         page_range := page_range |};
            headers := headers |} (format_to_options self) in
  (Forall (fun d => allowed self (format d) /\ valid d = false) in_docs ->
   drain (convert_all source headers false max_num_pages max_file_size
            page_range self)
   = ((fun d => {| input := d; status := FAILURE; errors := [] |}) <$> in_docs,
      None, self))
  /\ (forall d rest,
        in_docs = d :: rest -> allowed self (format d) -> valid d = false ->
        yields (convert_all source headers true max_num_pages max_file_size
                  page_range self) = []
        /\ outcome (convert_all source headers true max_num_pages max_file_size
                      page_range self)
           = Some (ConversionError
                     ("Input document " +:+ file d +:+ " is not valid."))).
Proof.
  intros in_docs. split.
  - intros Hall. rewrite ConverterFacts.drain_eta. f_equal; [|].
    + unfold yields, outcome, convert_all.
      rewrite ConverterFacts.convert_all_loop_lenient.
      rewrite <- surjective_pairing, ConverterFacts.convert_in_order.
      fold in_docs. clearbody in_docs.
      induction Hall as [|d ds [Ha Hv] _ IH]; [done|]. simpl.
      destruct (invalid_document_turned_away self d Ha Hv) as [-> _].
      destruct (process_in_order false ds self) as [[rs o] s']. simpl in *.
      by simplify_eq.
    + apply (along_drain (fun s => s = self)).
      apply (along_convert_all
               (fun d => allowed self (format d) /\ valid d = false)); [|done..].
      intros d roe s r s' [Ha Hv] -> Hp.
      destruct (invalid_document_turned_away self d Ha Hv) as [Hl Hs].
      destruct roe; congruence.
  - intros d rest Hd Ha Hv.
    destruct (invalid_document_turned_away self d Ha Hv) as [_ Hs].
    assert (Hin : (drain (_convert
                     {| path_or_stream_iterator := source;
                        limits := {| max_num_pages := max_num_pages;
                                     max_file_size := max_file_size;
                                     page_range := page_range |};
                        headers := headers |} true self)).1
                  = ([], Some (ConversionError
                                 ("Input document " +:+ file d +:+ " is not valid.")))).
    { rewrite ConverterFacts.convert_in_order. fold in_docs. rewrite Hd. simpl.
      by rewrite Hs. }
    unfold convert_all.
    destruct (ConverterFacts.strict_loop_no_result
      (_convert {| path_or_stream_iterator := source;
                   limits := {| max_num_pages := max_num_pages;
                                max_file_size := max_file_size;
                                page_range := page_range |};
                   headers := headers |} true self)) as [Hy Ho].
    { unfold yields. by rewrite Hin. }
    split; [done|]. rewrite Ho. unfold outcome. by rewrite Hin.
Qed.

(** X9.  When its source gives one document, [convert] does what
    [_process_document] does on that document, except that in strict mode
    a result whose status is neither SUCCESS nor PARTIAL_SUCCESS becomes a
    [ConversionError]; the converter it leaves is the one processing
    left. *)
Theorem X9_convert_is_checked_processing
    source headers roe max_num_pages max_file_size page_range self in_doc :
  docs {| path_or_stream_iterator := [source];
          limits := {| max_num_pages := max_num_pages;
                       max_file_size := max_file_size;
                       page_range := page_range |};
          headers := headers |} (format_to_options self) = [in_doc] ->
  convert source headers roe max_num_pages max_file_size page_range self
  = checked roe (_process_document in_doc roe self).
Proof.
  intros Hd. unfold convert, convert_all, _convert. rewrite Hd.
  unfold chunkify. cbn [length chunkify_fuel take drop _convert_batches].
  rewrite take_nil.
  destruct (_process_document in_doc roe self) as [[e|r] s1] eqn:Hp;
    case_match; cbn [pool_map yield_map yield_futures]; rewrite Hp; simpl; try done.
  - by destruct (roe && negb (status_ok r)).
  - by destruct (roe && negb (status_ok r)).
Qed.

Lemma default_option_has_default_options f d :
  _get_default_option f = inr d ->
  pipeline_options d = Some (get_default_options (pipeline_cls d)).
Proof.
  destruct (default_option_value f) as (cls & b & ->). by intros [= <-].
Qed.

(** X10.  Formats whose default options name the same pipeline class
    share one pipeline: in a converter that holds the default options for
    two formats, once [_get_pipeline] has returned a pipeline for the one
    it returns the same object for the other and constructs nothing. *)
Theorem X10_default_formats_share_pipelines self f1 f2 d1 d2 p :
  _get_default_option f1 = inr d1 ->
  _get_default_option f2 = inr d2 ->
  format_to_options self !! f1 = Some d1 ->
  format_to_options self !! f2 = Some d2 ->
  pipeline_cls d1 = pipeline_cls d2 ->
  (_get_pipeline f1 self).1 = inr (Some p) ->
  let self1 := (_get_pipeline f1 self).2 in
  _get_pipeline f2 self1 = (inr (Some p), self1).
Proof.
  intros Hd1 Hd2 Hf1 Hf2 Hc Hg1 self1.
  assert (Hg : _get_pipeline f1 self = (inr (Some p), self1)).
  { unfold self1. destruct (_get_pipeline f1 self). simpl in *. by subst. }
  apply default_option_has_default_options in Hd1, Hd2.
  assert (Hs : is_Some (cache_key d1)).
  { unfold cache_key. rewrite Hd1. eauto. }
  assert (Heq : cache_key d1 = cache_key d2).
  { unfold cache_key. rewrite Hd1, Hd2. simpl. by rewrite Hc. }
  exact (ConverterFacts.get_pipeline_same_key _ _ _ _ _ _ _ Hf1 Hf2 Hs Heq Hg).
Qed.

End facts.

End ConverterMoreFacts.

(** ** More about the OCR loop *)
Module TesseractPoolFacts.

Import Tesseract TesseractPool.

Section facts.

Context {tesserocr : TesserOcr}.

Lemma append_inj_r (p a b : string) : p +:+ a = p +:+ b -> a = b.
Proof. induction p as [|c p IH]; simpl; [done|]. intros [= H]. by apply IH. Qed.

Lemma same_settings_refl self : same_settings self self.
Proof. by destruct self. Qed.

Lemma same_settings_trans s1 s2 s3 :
  same_settings s1 s2 -> same_settings s2 s3 -> same_settings s1 s3.
Proof. unfold same_settings. intros H12 ->. by rewrite H12. Qed.

Lemma same_settings_fields self self' :
  same_settings self self' ->
  _is_auto self' = _is_auto self /\ scale self' = scale self
  /\ reader self' = reader self /\ script_prefix self' = script_prefix self
  /\ _tesserocr_languages self' = _tesserocr_languages self.
Proof. by intros ->. Qed.

(** What the block under [if self._is_auto:] does to the pool. *)
Lemma select_reader_pool self osd :
  let script := map_tesseract_script (script_name osd) in
  let lang := script_prefix self +:+ script in
  let result := select_reader self osd in
  same_settings self result.1.1
  /\ script_readers self ⊆ script_readers result.1.1
  /\ (pool_ok self -> pool_ok result.1.1)
  /\ (new_readers result.2 = []
      \/ new_readers result.2 = [lang]
         /\ lang ∈ _tesserocr_languages self
         /\ script_readers self !! script = None
         /\ is_Some (script_readers result.1.1 !! script))
  /\ Forall (fun e => event_reader e = None) result.2
  /\ (result.1.2 = reader self \/ pool_ok self ->
      result.1.2 = reader self
      \/ reader_lang result.1.2 = Some lang /\ lang ∈ _tesserocr_languages self).
Proof.
  intros script lang result. unfold result, select_reader. fold script. fold lang.
  case_bool_decide as Hl.
  - simpl. split_and!; try done; [apply same_settings_refl|by left| |by left].
    by repeat constructor.
  - assert (Hin : lang ∈ _tesserocr_languages self).
    { by destruct (decide (lang ∈ _tesserocr_languages self)). }
    destruct (script_readers self !! script) as [r|] eqn:Hr; simpl.
    + split_and!; try done; [apply same_settings_refl|by left|].
      intros [->|Hok]; [by left|]. right. by destruct (Hok _ _ Hr).
    + split_and!.
      * by destruct self.
      * by apply insert_subseteq.
      * intros Hok s r. simpl. rewrite lookup_insert. case_decide as Hs.
        -- intros [= <-]. by subst.
        -- apply Hok.
      * right. split_and!; try done. rewrite lookup_insert_eq. eauto.
      * by repeat constructor.
      * intros _. by right.
Qed.

Lemma recognize_readers lr im ocr_rect sc o :
  Forall (fun e => forall r, event_reader e = Some r -> r = lr)
    (recognize lr im ocr_rect sc o).2
  /\ new_readers (recognize lr im ocr_rect sc o).2 = [].
Proof.
  unfold recognize. simpl. split.
  - repeat (apply Forall_cons; split; [by intros ? [= <-]|]).
    induction (GetComponentImages lr im) as [|box boxes IH]; simpl; [done|].
    by repeat (apply Forall_cons; split; [by intros ? [= <-]|]).
  - unfold new_readers. simpl.
    induction (GetComponentImages lr im) as [|box boxes IH]; by simpl.
Qed.

Lemma recognize_cells lr im ocr_rect sc o :
  let cells := (recognize lr im ocr_rect sc o).1 in
  index <$> cells = seq 0 (length cells)
  /\ length cells = length (GetComponentImages lr im)
  /\ text <$> cells = (fun box => strip (GetUTF8Text lr im box)) <$> GetComponentImages lr im
  /\ confidence <$> cells = MeanTextConf lr im <$> GetComponentImages lr im
  /\ Forall (fun c => from_ocr c = true /\ orig c = text c) cells
  /\ length cells = length (filter (fun e => is_get_text e = true)
                              (recognize lr im ocr_rect sc o).2).
Proof.
  unfold recognize. cbn [fst snd]. cbn [filter list_filter is_get_text].
  rewrite !decide_False by done.
  generalize (GetComponentImages lr im). intros boxes.
  rewrite length_imap.
  assert (Hgen : forall (k : nat) (f : nat -> TessBox -> TextCell),
    (forall i b, index (f i b) = (k + i)%nat) ->
    index <$> imap f boxes = seq k (length boxes)).
  { induction boxes as [|b boxes IH]; intros k f Hf; csimpl; [done|].
    rewrite Hf, Nat.add_0_r. f_equal. apply IH. intros i b'.
    unfold compose. rewrite Hf. lia. }
  split_and!; try done.
  - by apply Hgen.
  - rewrite fmap_imap. unfold compose. simpl. apply imap_const.
  - rewrite fmap_imap. unfold compose. simpl. apply imap_const.
  - apply Forall_forall. intros c Hc. apply elem_of_lookup_imap in Hc as (i & b & -> & _).
    done.
  - clear Hgen. induction boxes as [|b boxes IH]; simpl; [done|].
    rewrite filter_cons_False by done. by f_equal.
Qed.

Lemma new_readers_app evs evs' :
  new_readers (evs ++ evs') = new_readers evs ++ new_readers evs'.
Proof. apply omap_app. Qed.

(** The shape of what the body of the loop returns: calls on no reader,
    then the choice of the reader, then one recognition, or none. *)
Lemma body_shape self backend page_i i ocr_rect :
  exists pre self' lr sel cells rec,
    ocr_rect_body self backend page_i i ocr_rect = (self', cells, pre ++ sel ++ rec)
    /\ Forall (fun e => event_reader e = None) pre
    /\ new_readers pre = []
    /\ ((self', lr, sel) = (self, reader self, [])
        \/ _is_auto self = true /\ exists osd, (self', lr, sel) = select_reader self osd)
    /\ ((cells, rec) = ([], [])
        \/ exists im o, (cells, rec) = recognize lr im ocr_rect (scale self) o).
Proof.
  unfold ocr_rect_body.
  destruct (Qeq_bool (area ocr_rect) 0).
  { exists [], self, (reader self), [], [], []. split_and!; try done; by left. }
  destruct (DetectOrientationScript _) as [osd|].
  - destruct (_is_auto self) eqn:Hauto.
    + destruct (select_reader self osd) as [[s1 lr] sel] eqn:Hsel.
      match goal with |- context [recognize ?a ?b ?c ?d ?e] =>
        destruct (recognize a b c d e) as [cells rec] eqn:Hrec end.
      eexists _, s1, lr, sel, cells, rec. split_and!; [done| | | |].
      * by repeat constructor.
      * done.
      * right. split; [done|]. by exists osd.
      * right. eexists _, _. by rewrite Hrec.
    + match goal with |- context [recognize ?a ?b ?c ?d ?e] =>
        destruct (recognize a b c d e) as [cells rec] eqn:Hrec end.
      eexists _, self, (reader self), [], cells, rec. split_and!; [done| | | |].
      * by repeat constructor.
      * done.
      * by left.
      * right. eexists _, _. by rewrite Hrec.
  - destruct (_is_auto self) eqn:Hauto.
    + eexists _, self, (reader self), [], [], []. split_and!.
      * by rewrite !app_nil_r.
      * by repeat constructor.
      * done.
      * by left.
      * by left.
    + match goal with |- context [recognize ?a ?b ?c ?d ?e] =>
        destruct (recognize a b c d e) as [cells rec] eqn:Hrec end.
      eexists _, self, (reader self), [], cells, rec. split_and!; [done| | | |].
      * by repeat constructor.
      * done.
      * by left.
      * right. eexists _, _. by rewrite Hrec.
Qed.

Lemma none_reader_count pre :
  Forall (fun e => event_reader e = None) pre ->
  filter (fun e => is_get_text e = true) pre = [].
Proof.
  induction 1 as [|e pre He _ IH]; [done|].
  rewrite filter_cons_False; [done|]. by destruct e.
Qed.

Lemma body_has_facts self backend page_i i ocr_rect :
  let result := ocr_rect_body self backend page_i i ocr_rect in
  body_facts self result.1.1 result.1.2 result.2.
Proof.
  destruct (body_shape self backend page_i i ocr_rect)
    as (pre & self' & lr & sel & cells & rec & -> & Hpre & Hnpre & Hsel & Hrec).
  cbn [fst snd].
  pose proof (none_reader_count _ Hpre) as Hcpre.
  assert (Hrecf :
    Forall (fun e => forall r, event_reader e = Some r -> r = lr) rec
    /\ new_readers rec = []
    /\ Forall (fun c => from_ocr c = true /\ orig c = text c) cells
    /\ length cells = length (filter (fun e => is_get_text e = true) rec)).
  { destruct Hrec as [[= -> ->]|(im & o & Hrec)]; [done|].
    pose proof (recognize_readers lr im ocr_rect (scale self) o) as [Hr Hn].
    pose proof (recognize_cells lr im ocr_rect (scale self) o) as (_ & _ & _ & _ & Hc & Hl).
    rewrite <- Hrec in *. done. }
  destruct Hrecf as (Hrr & Hrn & Hcells & Hcount).
  assert (Hprek : forall P : event -> Prop,
    (forall e, event_reader e = None -> P e) -> Forall P pre).
  { intros P HP. eapply Forall_impl; [exact Hpre|done]. }
  destruct Hsel as [[= -> -> ->]|[Hauto (osd & Hsel)]].
  - split; try done.
    + apply same_settings_refl.
    + intros _. split_and!; [done|by rewrite !new_readers_app, Hnpre, Hrn|].
      rewrite !Forall_app. split_and!; [|done|done].
      apply Hprek. by intros e ->.
    + intros lang. rewrite !new_readers_app, Hnpre, Hrn. by intros ?%elem_of_nil.
    + rewrite !new_readers_app, Hnpre, Hrn. constructor.
    + by rewrite !filter_app, Hcpre.
    + intros _. rewrite !Forall_app. split_and!; [|done|].
      * apply Hprek. by intros e He r; rewrite He.
      * eapply Forall_impl; [exact Hrr|]. intros e He r Hr. left. eauto.
  - pose proof (select_reader_pool self osd) as Hs. rewrite <- Hsel in Hs.
    cbn [fst snd] in Hs. destruct Hs as (Hset & Hsub & Hpool & Hnew & Hselr & Hlr).
    assert (Hcsel : filter (fun e => is_get_text e = true) sel = [])
      by by apply none_reader_count.
    split; try done.
    + by rewrite Hauto.
    + intros lang. rewrite !new_readers_app, Hnpre, Hrn, app_nil_r. simpl.
      destruct Hnew as [->|(-> & Hin & Hnone & Hsome)]; [by intros ?%elem_of_nil|].
      intros ->%list_elem_of_singleton. eauto.
    + rewrite !new_readers_app, Hnpre, Hrn, app_nil_r. simpl.
      destruct Hnew as [->|(-> & _)]; [constructor|apply NoDup_singleton].
    + by rewrite !filter_app, Hcpre, Hcsel.
    + intros Hok. rewrite !Forall_app. split_and!.
      * apply Hprek. by intros e He r; rewrite He.
      * eapply Forall_impl; [exact Hselr|]. by intros e He r; rewrite He.
      * eapply Forall_impl; [exact Hrr|]. intros e He r Hr.
        rewrite (He r Hr). destruct Hlr as [->|[Hl Hi]]; [by right|by left|].
        right. eauto.
Qed.

Lemma loop_has_facts self backend page_i (rects : list (nat * BoundingBox)) :
  let result := ocr_rects_loop self backend page_i rects in
  body_facts self result.1.1 result.1.2 result.2.
Proof.
  revert self. induction rects as [|[i r] rects IH]; intros self; cbn [ocr_rects_loop].
  - split; try done; simpl.
    + apply same_settings_refl.
    + by intros ? ?%elem_of_nil.
    + constructor.
  - pose proof (body_has_facts self backend page_i i r) as Hb.
    destruct (ocr_rect_body self backend page_i i r) as [[s1 cells] ev].
    specialize (IH s1).
    destruct (ocr_rects_loop s1 backend page_i rects) as [[s2 cs] evs].
    cbn [fst snd] in *. destruct Hb, IH.
    destruct (same_settings_fields _ _ bf_settings0) as (Ha & Hsc & Hr & Hp & Hl).
    assert (Hnew1 : forall lang, lang ∈ new_readers evs ->
      lang ∈ _tesserocr_languages self
      /\ exists script, lang = script_prefix self +:+ script
           /\ script_readers s1 !! script = None
           /\ is_Some (script_readers s2 !! script)).
    { intros lang Hin. destruct (bf_new1 lang Hin) as (Hi & script & -> & Hn & Hs).
      rewrite Hl, Hp in *. eauto. }
    split.
    + by eapply same_settings_trans.
    + by etrans.
    + eauto.
    + intros Hf. destruct (bf_fixed0 Hf) as (-> & Hn & Hfa).
      destruct (bf_fixed1 Hf) as (-> & Hn' & Hfa').
      split_and!; [done|by rewrite new_readers_app, Hn, Hn'|by apply Forall_app].
    + intros lang. rewrite new_readers_app, elem_of_app. intros [Hin|Hin].
      * destruct (bf_new0 lang Hin) as (Hi & script & -> & Hn & Hs).
        split; [done|]. exists script. split_and!; try done.
        destruct Hs as [x Hx]. exists x. by eapply lookup_weaken.
      * destruct (Hnew1 lang Hin) as (Hi & script & -> & Hn & Hs).
        split; [done|]. exists script. split_and!; try done.
        by eapply lookup_weaken_None.
    + rewrite new_readers_app. apply NoDup_app. split_and!; [done| |done].
      intros lang Hin Hin'.
      destruct (bf_new0 lang Hin) as (_ & script & -> & _ & [x Hx]).
      destruct (Hnew1 _ Hin') as (_ & script' & Heq & Hn & _).
      apply append_inj_r in Heq as <-. congruence.
    + by apply Forall_app.
    + by rewrite length_app, filter_app, length_app, bf_count0, bf_count1.
    + intros Hok. apply Forall_app. split; [by apply bf_known0|].
      eapply Forall_impl; [by apply bf_known1, bf_pool0|].
      intros e He x Hx. rewrite <- Hr, <- Hl. eauto.
Qed.

(** X11.  The loop over the rectangles of a page changes nothing of the
    model but its pool of script readers, and the pool only grows: a
    reader filed under a script stays there.  If every reader in the pool
    was opened with the installed language of its script, that is still
    so afterwards. *)
Theorem X11_script_readers_only_grow self backend page_i (ocr_rects : list BoundingBox) :
  let self' := (ocr_rects_loop self backend page_i (enumerate ocr_rects)).1.1 in
  self' = set_script_readers (script_readers self') self
  /\ (forall script r, script_readers self !! script = Some r ->
                       script_readers self' !! script = Some r)
  /\ (pool_ok self -> pool_ok self').
Proof.
  intros self'. destruct (loop_has_facts self backend page_i (enumerate ocr_rects)).
  split_and!; [done| |done].
  intros script r Hr. by eapply lookup_weaken.
Qed.

(** X12.  A script reader is opened at most once per script and only for
    an installed language: over the whole loop the languages of the
    readers opened are pairwise different, each is in
    [_tesserocr_languages], and each is the prefix followed by a script
    that had no reader before the loop and has one after it. *)
Theorem X12_script_reader_opened_once self backend page_i (ocr_rects : list BoundingBox) :
  let result := ocr_rects_loop self backend page_i (enumerate ocr_rects) in
  NoDup (new_readers result.2)
  /\ forall lang, lang ∈ new_readers result.2 ->
       lang ∈ _tesserocr_languages self
       /\ exists script,
            lang = script_prefix self +:+ script
            /\ script_readers self !! script = None
            /\ is_Some (script_readers result.1.1 !! script).
Proof.
  intros result. destruct (loop_has_facts self backend page_i (enumerate ocr_rects)).
  by split.
Qed.

(** X13.  With a fixed language ([_is_auto] false) the loop leaves the
    model as it was, opens no reader, and every call on a recogniser is a
    call on [self.reader], whatever script the detector reports. *)
Theorem X13_fixed_language_uses_default_reader
    self backend page_i (ocr_rects : list BoundingBox) :
  _is_auto self = false ->
  let result := ocr_rects_loop self backend page_i (enumerate ocr_rects) in
  result.1.1 = self
  /\ new_readers result.2 = []
  /\ Forall (fun e => forall r, event_reader e = Some r -> r = reader self) result.2.
Proof.
  intros Hf result.
  destruct (loop_has_facts self backend page_i (enumerate ocr_rects)). eauto.
Qed.

(** X14.  In either mode, if the pool is in order, every call on a
    recogniser is made on [self.reader] or on a reader opened with an
    installed language: a script whose language is not installed falls
    back to [self.reader]. *)
Theorem X14_recognition_on_installed_language
    self backend page_i (ocr_rects : list BoundingBox) :
  pool_ok self ->
  Forall (fun e => forall r, event_reader e = Some r ->
            r = reader self
            \/ exists lang, reader_lang r = Some lang
                            /\ lang ∈ _tesserocr_languages self)
    (ocr_rects_loop self backend page_i (enumerate ocr_rects)).2.
Proof.
  intros Hok.
  destruct (loop_has_facts self backend page_i (enumerate ocr_rects)). eauto.
Qed.

(** X15.  Every cell the loop collects is marked as coming from OCR and
    has its text as its original text; there is one cell per call of
    [GetUTF8Text]; and the cells of one rectangle are numbered from 0, so
    the numbering starts again with every rectangle. *)
Theorem X15_cells_of_the_loop self backend page_i (ocr_rects : list BoundingBox) :
  let result := ocr_rects_loop self backend page_i (enumerate ocr_rects) in
  Forall (fun c => from_ocr c = true /\ orig c = text c) result.1.2
  /\ length result.1.2 = length (filter (fun e => is_get_text e = true) result.2)
  /\ forall i ocr_rect,
       let cells := (ocr_rect_body self backend page_i i ocr_rect).1.2 in
       index <$> cells = seq 0 (length cells).
Proof.
  intros result. destruct (loop_has_facts self backend page_i (enumerate ocr_rects)).
  split_and!; [done..|]. intros i ocr_rect.
  destruct (body_shape self backend page_i i ocr_rect)
    as (pre & self' & lr & sel & cells & rec & -> & _ & _ & _ & Hrec).
  cbn [fst snd]. destruct Hrec as [[= -> ->]|(im & o & Hrec)]; [done|].
  pose proof (recognize_cells lr im ocr_rect (scale self) o) as [Hi _].
  by rewrite <- Hrec in Hi.
Qed.

End facts.

End TesseractPoolFacts.

(** ** More about the OCR model *)
Module TesseractMoreFacts.

Import TesseractMore TesseractPool.

Lemma concat_plus_auto (langs : list string) :
  String.concat "+" langs = "auto" <-> langs = ["auto"].
Proof.
  split; [|by intros ->].
  destruct langs as [|x [|y rest]]; [done|simpl; by intros ->|].
  cbn [String.concat]. generalize (String.concat "+" (y :: rest)). intros s.
  do 5 (destruct x as [|? x]; [by intros [=]|intros [= ? H]; revert H]); done.
Qed.

Lemma enabled_init_returns options installation self :
  __init__ true options installation = inr self ->
  exists version language languages,
    import_tesserocr installation = None
    /\ tesseract_version installation = Some version
    /\ get_languages installation = inr (language :: languages)
    /\ PyTessBaseAPI installation (reader_kwargs options) = None
    /\ PyTessBaseAPI installation (osd_reader_kwargs options) = None
    /\ let base_kwargs : kwargs :=
         {[ "psm" := KPsm AUTO; "init" := KBool true; "oem" := KOem DEFAULT ]} in
       let tesserocr_kwargs :=
         match path options with
         | Some p => <["path" := KStr p]> base_kwargs
         | None => base_kwargs
         end in
       self
       = {| enabled := true; options := options;
            _is_auto := bool_decide ("auto" ∈ lang options); scale := 3;
            reader :=
              Some (if bool_decide (String.concat "+" (lang options) = "auto")
                    then tesserocr_kwargs
                    else dict_or {[ "lang" := KStr (String.concat "+" (lang options)) ]}
                           tesserocr_kwargs);
            script_readers := ∅;
            _tesserocr_languages := Some (language :: languages);
            script_prefix :=
              Some (if existsb (String.prefix "script/") (language :: languages)
                    then "script/" else "");
            osd_reader :=
              Some (dict_or {[ "lang" := KStr "osd"; "psm" := KPsm OSD_ONLY ]}
                      tesserocr_kwargs) |}.
Proof.
  unfold __init__.
  destruct (import_tesserocr installation) as [[]|]; [done..|].
  destruct (tesseract_version installation) as [version|]; [|done].
  destruct (get_languages installation) as [e|[|language languages]]; [done..|].
  destruct (PyTessBaseAPI installation (reader_kwargs options)); [done|].
  destruct (PyTessBaseAPI installation (osd_reader_kwargs options)); [done|].
  intros [= <-]. by eexists _, _, _.
Qed.

(** X16.  A disabled model is built without touching tesserocr: the
    constructor returns the same model whatever is installed, even with
    no tesserocr at all, and it holds no reader.  Called on a batch of
    pages the model yields the pages as they are, in order, makes no call
    and changes nothing. *)
Theorem X16_disabled_model_is_inert `{!Tesseract.TesserOcr} `{!BaseOcr} options :
  exists self,
    (forall installation, __init__ false options installation = inr self)
    /\ enabled self = false
    /\ reader self = None /\ osd_reader self = None /\ script_readers self = ∅
    /\ forall page_batch calls,
         drain (__call__ page_batch {| model := self; trace := calls |})
         = (page_batch, None, {| model := self; trace := calls |}).
Proof.
  eexists. split; [done|]. split_and!; try done.
  intros page_batch calls. unfold __call__. simpl.
  generalize {| model := {| enabled := false; options := options;
                            _is_auto := bool_decide ("auto" ∈ lang options);
                            scale := 3; reader := None; script_readers := ∅;
                            _tesserocr_languages := None; script_prefix := None;
                            osd_reader := None |};
                trace := calls |}.
  intros st. induction page_batch as [|page rest IH]; simpl; [done|].
  by rewrite IH.
Qed.

(** X17.  What the constructor of an enabled model does, case by case.
    If [import tesserocr] raises an [ImportError], or [tesseract_version]
    raises, it raises the [ImportError] of a wrong installation; any
    other exception of the import goes to the caller.  Otherwise an
    exception of [get_languages] goes to the caller, and an empty
    language list raises the [ImportError] of missing languages.
    Otherwise the reader is opened, then the OSD reader, and what either
    [PyTessBaseAPI] call raises goes to the caller.  The model is built
    when, and only when, none of this happens; it then has its reader,
    OSD reader, language list and prefix set, no script reader yet and
    scale 3, and is in automatic mode exactly when "auto" is among the
    languages of the options. *)
Theorem X17_enabled_model_import_errors options installation :
  ((exists msg, import_tesserocr installation = Some (ImportError msg))
   \/ (import_tesserocr installation = None
       /\ tesseract_version installation = None) ->
   __init__ true options installation = inl (ImportError install_errmsg))
  /\ (forall e,
        import_tesserocr installation = Some e ->
        (forall msg, e <> ImportError msg) ->
        __init__ true options installation = inl e)
  /\ (import_tesserocr installation = None ->
      is_Some (tesseract_version installation) ->
      (forall e, get_languages installation = inl e ->
                 __init__ true options installation = inl e)
      /\ (get_languages installation = inr [] ->
          __init__ true options installation = inl (ImportError missing_langs_errmsg))
      /\ (forall languages,
            get_languages installation = inr languages -> languages <> [] ->
            (forall e,
               PyTessBaseAPI installation (reader_kwargs options) = Some e ->
               __init__ true options installation = inl e)
            /\ (forall e,
                  PyTessBaseAPI installation (reader_kwargs options) = None ->
                  PyTessBaseAPI installation (osd_reader_kwargs options) = Some e ->
                  __init__ true options installation = inl e)
            /\ (PyTessBaseAPI installation (reader_kwargs options) = None ->
                PyTessBaseAPI installation (osd_reader_kwargs options) = None ->
                exists self,
                  __init__ true options installation = inr self
                  /\ enabled self = true
                  /\ ready self
                  /\ reader self = Some (reader_kwargs options)
                  /\ osd_reader self = Some (osd_reader_kwargs options)
                  /\ script_readers self = ∅
                  /\ _tesserocr_languages self = Some languages
                  /\ scale self = 3%Z
                  /\ (_is_auto self = true <-> "auto" ∈ lang options))))
  /\ (forall self,
        __init__ true options installation = inr self ->
        import_tesserocr installation = None
        /\ is_Some (tesseract_version installation)
        /\ (exists languages,
              get_languages installation = inr languages /\ languages <> [])
        /\ PyTessBaseAPI installation (reader_kwargs options) = None
        /\ PyTessBaseAPI installation (osd_reader_kwargs options) = None).
Proof.
  split_and!.
  - unfold __init__. by intros [[msg ->]|[-> ->]].
  - unfold __init__. intros e -> Hne. destruct e; try done. by destruct (Hne msg).
  - intros Hi [version Hv]. unfold __init__. rewrite Hi, Hv. split_and!.
    + by intros e ->.
    + by intros ->.
    + intros [|language languages] -> Hne; [done|]. split_and!.
      * by intros e ->.
      * by intros e -> ->.
      * intros -> ->. eexists. split; [done|]. unfold ready. simpl.
        split_and!; try done; try by eauto.
        apply bool_decide_eq_true.
  - intros self (version & language & languages & Hi & Hv & Hl & Hr & Ho & _)%enabled_init_returns.
    split_and!; [done|by eauto|by eauto|done|done].
Qed.

(** X18.  The reader of an enabled model is opened without a language
    exactly when the languages of the options are the one-element list
    ["auto"]; in every other case it is opened with the languages joined
    by "+", also when "auto" is one of several, although the model is
    then in automatic mode all the same.  It gets the page segmentation
    mode AUTO and the data path of the options, if any. *)
Theorem X18_reader_language options installation self :
  __init__ true options installation = inr self ->
  exists kw,
    reader self = Some kw
    /\ (kw !! "lang" = None <-> lang options = ["auto"])
    /\ (lang options <> ["auto"] ->
        kw !! "lang" = Some (KStr (String.concat "+" (lang options))))
    /\ (lang options = ["auto"] -> _is_auto self = true)
    /\ ("auto" ∈ lang options -> _is_auto self = true)
    /\ kw !! "psm" = Some (KPsm AUTO)
    /\ kw !! "path" = KStr <$> path options.
Proof.
  intros (version & language & languages & _ & _ & _ & _ & _ & ->)%enabled_init_returns.
  eexists. split; [done|]. cbn [_is_auto].
  pose proof (concat_plus_auto (lang options)) as Hauto.
  case_bool_decide as Hc.
  - apply Hauto in Hc as Hl. rewrite Hl.
    destruct (path options); by vm_compute.
  - assert (Hl : lang options <> ["auto"]) by by intros ?%Hauto.
    unfold dict_or.
    assert (Hlang : forall base : gmap string kwarg,
      base !! "lang" = None ->
      (base ∪ {[ "lang" := KStr (String.concat "+" (lang options)) ]}) !! "lang"
      = Some (KStr (String.concat "+" (lang options)))).
    { intros base Hb. rewrite lookup_union_r by done. apply lookup_singleton_eq. }
    assert (Hother : forall (base : gmap string kwarg) key,
      key <> "lang" ->
      (base ∪ {[ "lang" := KStr (String.concat "+" (lang options)) ]}) !! key
      = base !! key).
    { intros base key Hk. rewrite lookup_union, lookup_singleton_ne by done.
      by destruct (base !! key). }
    split_and!.
    + split; [|done]. destruct (path options); by rewrite Hlang.
    + intros _. destruct (path options); by rewrite Hlang.
    + done.
    + intros Hin. by apply bool_decide_eq_true_2.
    + destruct (path options); by rewrite Hother.
    + destruct (path options); by rewrite Hother.
Qed.

(** X19.  The OSD reader is opened with the language "osd" and the data
    path of the options, but with the page segmentation mode AUTO, not
    OSD_ONLY: in [{"lang": "osd", "psm": OSD_ONLY} | tesserocr_kwargs]
    the right operand has a "psm" of its own, and the right operand of
    [|] wins. *)
Theorem X19_osd_reader_keywords options installation self :
  __init__ true options installation = inr self ->
  exists kw,
    osd_reader self = Some kw
    /\ kw !! "lang" = Some (KStr "osd")
    /\ kw !! "psm" = Some (KPsm AUTO)
    /\ kw !! "init" = Some (KBool true)
    /\ kw !! "oem" = Some (KOem DEFAULT)
    /\ kw !! "path" = KStr <$> path options.
Proof.
  intros (version & language & languages & _ & _ & _ & _ & _ & ->)%enabled_init_returns.
  eexists. split; [done|]. destruct (path options); by vm_compute.
Qed.

Section call.

Context {tesserocr : Tesseract.TesserOcr} {base : BaseOcr}.

Lemma set_script_readers_same self :
  set_script_readers (script_readers self) self = self.
Proof. by destruct self. Qed.

Lemma continues_refl st : continues st st.
Proof. split_and!; [by rewrite set_script_readers_same|done|done|done]. Qed.

Lemma continues_trans st1 st2 st3 :
  continues st1 st2 -> continues st2 st3 -> continues st1 st3.
Proof.
  intros (Hm & Hs & Ht & Hf) (Hm' & Hs' & Ht' & Hf').
  split_and!.
  - rewrite Hm'. rewrite Hm. done.
  - by etrans.
  - by etrans.
  - intros Ha. rewrite Hf' by (by rewrite Hm). by apply Hf.
Qed.

Lemma loop_view_fields self view :
  loop_view self = Some view ->
  Tesseract._is_auto view = _is_auto self
  /\ Tesseract.script_readers view = script_readers self.
Proof.
  unfold loop_view. intros H. repeat case_match; by simplify_eq.
Qed.

Lemma ready_loop_view self : ready self -> is_Some (loop_view self).
Proof.
  intros ([r Hr] & [o Ho] & [l Hl] & [p Hp]). unfold loop_view.
  rewrite Hr, Ho, Hl, Hp. eauto.
Qed.

(** One page through the enabled loop: the state it leaves continues the
    one it started in. *)
Lemma page_step_continues st view backend page_i page :
  loop_view (model st) = Some view ->
  let result :=
    Tesseract.ocr_rects_loop view backend page_i
      (Tesseract.enumerate (get_ocr_rects page)) in
  forall more,
    continues st
      {| model := set_script_readers (Tesseract.script_readers result.1.1) (model st);
         trace := trace st ++ more |}.
Proof.
  intros Hv result more.
  destruct (loop_view_fields _ _ Hv) as [Ha Hs].
  destruct (TesseractPoolFacts.loop_has_facts view backend page_i
              (Tesseract.enumerate (get_ocr_rects page)))
    as [_ Hgrows _ Hfixed _ _ _ _ _].
  fold result in Hgrows, Hfixed.
  split_and!; simpl.
  - done.
  - by rewrite <- Hs.
  - by apply prefix_app_r.
  - intros Hf. rewrite <- Ha in Hf. destruct (Hfixed Hf) as (-> & _).
    rewrite Hs. apply set_script_readers_same.
Qed.

Lemma ready_continues st st' : continues st st' -> ready (model st) -> ready (model st').
Proof. intros (-> & _). by destruct (model st). Qed.

Lemma pages_loop_along st0 (page_batch : list (nat * Page)) st :
  continues st0 st -> along (continues st0) (pages_loop page_batch st).
Proof.
  revert st. induction page_batch as [|[page_i page] rest IH]; intros st Hc; simpl;
    [done|].
  destruct (_backend page) as [backend|]; [|done].
  destruct (is_valid backend); simpl.
  - destruct (loop_view (model st)) as [view|] eqn:Hv; [|done].
    destruct (raised_reading view page_i page); [done|].
    pose proof (page_step_continues st view backend page_i page Hv) as Hstep.
    cbn zeta in Hstep.
    destruct (Tesseract.ocr_rects_loop view backend page_i _) as [[view' cells] ev].
    simpl. specialize (Hstep ([EGetOcrRects page_i] ++ (ELoop page_i <$> ev)
       ++ [EPostProcessCells page_i cells]
       ++ (if visualize_ocr then [EDrawOcrRectsAndCells page_i] else []))).
    simpl in Hstep. pose proof (continues_trans _ _ _ Hc Hstep) as Hc'.
    split; [done|]. by apply IH.
  - split; [done|]. by apply IH.
Qed.

Lemma yield_from_along (P : State -> Prop) page_batch st :
  P st -> along P (yield_from page_batch st).
Proof.
  intros HP. induction page_batch as [|page rest IH]; simpl; [done|]. by split.
Qed.

(** X20.  Whatever the pages, in every state a run of [__call__] passes
    through the model differs from the one it started with at most in its
    script readers, each reader filed before the run is still filed under
    its script, and the calls made before are still on record; with a
    fixed language the model does not change at all. *)
Theorem X20_call_keeps_the_model page_batch st :
  along (continues st) (__call__ page_batch st)
  /\ continues st (drain (__call__ page_batch st)).2.
Proof.
  assert (H : along (continues st) (__call__ page_batch st)).
  { unfold __call__. destruct (enabled (model st)); simpl.
    - apply pages_loop_along, continues_refl.
    - apply yield_from_along, continues_refl. }
  split; [done|]. revert H. generalize (__call__ page_batch st).
  intros g. induction g as [a s k IH|s|e s]; simpl; [|done..].
  intros [_ Hk]. specialize (IH s Hk). by destruct (drain (k s)) as [[??]?].
Qed.

Lemma pages_loop_pages (page_batch : list (nat * Page)) st :
  ready (model st) ->
  Forall2 (fun ip out => ocr_of ip.1 ip.2 out)
    (take (length (yields (pages_loop page_batch st))) page_batch)
    (yields (pages_loop page_batch st))
  /\ match outcome (pages_loop page_batch st) with
     | None => length (yields (pages_loop page_batch st)) = length page_batch
     | Some e =>
         exists page_i page,
           page_batch !! length (yields (pages_loop page_batch st))
           = Some (page_i, page)
           /\ stops_at page_i page e
     end.
Proof.
  revert st. induction page_batch as [|[page_i page] rest IH]; intros st Hr.
  { split; [exact (Forall2_nil_2 _ _ _)|done]. }
  cbn [pages_loop].
  destruct (_backend page) as [backend|] eqn:Hb.
  2:{ split; [exact (Forall2_nil_2 _ _ _)|]. exists page_i, page.
      split; [done|]. by left. }
  destruct (is_valid backend) eqn:Hval; cbn [negb].
  - destruct (ready_loop_view _ Hr) as [view Hv]. rewrite Hv.
    destruct (raised_reading view page_i page) as [e|] eqn:Hraise.
    { split; [exact (Forall2_nil_2 _ _ _)|]. exists page_i, page.
      split; [done|]. right. by exists backend, view. }
    pose proof (page_step_continues st view backend page_i page Hv) as Hstep.
    cbn zeta in Hstep.
    destruct (TesseractPoolFacts.loop_has_facts view backend page_i
                (Tesseract.enumerate (get_ocr_rects page))) as [_ _ _ _ _ _ Hcells _ _].
    destruct (Tesseract.ocr_rects_loop view backend page_i _) as [[view' cells] ev].
    specialize (Hstep ([EGetOcrRects page_i] ++ (ELoop page_i <$> ev)
       ++ [EPostProcessCells page_i cells]
       ++ (if visualize_ocr then [EDrawOcrRectsAndCells page_i] else []))).
    cbn [fst snd] in Hstep, Hcells.
    match type of Hstep with continues _ ?s =>
      destruct (IH s) as [IHy IHo]; [by eapply ready_continues|] end.
    rewrite ConverterFacts.yields_yield, ConverterFacts.outcome_yield.
    cbn [length take lookup list_lookup]. split.
    + constructor; [|exact IHy].
      exists backend. rewrite Hval. split; [done|]. exists view, cells.
      split_and!; [done|done|].
      eapply Forall_impl; [exact Hcells|]. by intros c [? _].
    + destruct (outcome _); [exact IHo|]. by rewrite IHo.
  - destruct (IH st Hr) as [IHy IHo].
    rewrite ConverterFacts.yields_yield, ConverterFacts.outcome_yield.
    cbn [length take lookup list_lookup]. split.
    + constructor; [|exact IHy]. exists backend. by rewrite Hval.
    + destruct (outcome _); [exact IHo|]. by rewrite IHo.
Qed.

(** X21.  An enabled model yields a page for each page of the batch, in
    order, until it stops.  A page whose backend is not valid comes out
    as it went in; any other comes out as [post_process_cells] leaves it,
    given cells that are all marked as coming from OCR, no call having
    raised while it was read.  The model stops before the end of the
    batch only with an exception, at the first page that has no backend,
    with an [AssertionError], or at the first page during whose reading a
    call raises, with what that call raised; if it raises nothing it has
    yielded a page for every page of the batch. *)
Theorem X21_call_yields_a_page_per_page page_batch st :
  enabled (model st) = true ->
  ready (model st) ->
  let pages_out := yields (__call__ page_batch st) in
  (forall i page out,
     page_batch !! i = Some page -> pages_out !! i = Some out -> ocr_of i page out)
  /\ match outcome (__call__ page_batch st) with
     | None => length pages_out = length page_batch
     | Some e =>
         exists page,
           page_batch !! length pages_out = Some page
           /\ stops_at (length pages_out) page e
     end.
Proof.
  intros He Hr pages_out. unfold pages_out, __call__. rewrite He. cbn [negb].
  destruct (pages_loop_pages (Tesseract.enumerate page_batch) st Hr) as [Hy Ho].
  assert (Hen : forall i, Tesseract.enumerate page_batch !! i
                          = pair i <$> page_batch !! i).
  { intros i. unfold Tesseract.enumerate. apply list_lookup_imap. }
  split.
  - intros i page out Hp Hout.
    assert (Hi : (i < length (yields (pages_loop (Tesseract.enumerate page_batch) st)))%nat)
      by (by eapply lookup_lt_Some).
    pose proof (Forall2_lookup_lr _ _ _ i (i, page) out Hy) as H.
    apply H; [|done]. rewrite lookup_take_lt by done. by rewrite Hen, Hp.
  - destruct (outcome _) as [e|].
    + destruct Ho as (page_i & page & Hl & Hs). rewrite Hen in Hl.
      destruct (page_batch !! _) as [page'|] eqn:Hp; [|done].
      simpl in Hl. injection Hl as <- <-. by exists page'.
    + rewrite Ho. unfold Tesseract.enumerate. apply length_imap.
Qed.

End call.

End TesseractMoreFacts.

(** ** More about the PDF pipeline *)
Module StandardPdfMoreFacts.

Import StandardPdf.

(** X22.  The artifacts folder of the options goes before that of the
    settings, which is not even looked at then; a folder is returned only
    if it exists, after [expanduser]; with no path in either place the
    pipeline has no artifacts folder; and the constructor raises, a
    [RuntimeError], exactly when the path it settled on is not a
    folder. *)
Theorem X22_artifacts_path expanduser is_dir options_path settings_path :
  let chosen := from_option Some settings_path options_path in
  artifacts_path_of expanduser is_dir options_path settings_path
  = artifacts_path_of expanduser is_dir chosen None
  /\ (chosen = None ->
      artifacts_path_of expanduser is_dir options_path settings_path = inr None)
  /\ (forall p, chosen = Some p ->
        if is_dir (expanduser p)
        then artifacts_path_of expanduser is_dir options_path settings_path
             = inr (Some (expanduser p))
        else exists msg,
               artifacts_path_of expanduser is_dir options_path settings_path
               = inl (RuntimeError msg)).
Proof.
  unfold artifacts_path_of.
  destruct options_path as [p|], settings_path as [q|]; simpl;
    (split_and!; [done|done|]); intros p' [= <-];
    destruct (is_dir _); by eauto.
Qed.

Section facts.

Context {numpy : Numpy}.

(** X23.  The aggregation reads the per-page scores only: the document
    scores it leaves do not depend on those it found, so two results with
    the same per-page scores get the same document scores, and running
    the aggregation a second time changes nothing. *)
Theorem X23_aggregation_reads_pages_only (conv_res other : ConversionResult) :
  aggregate_confidence (aggregate_confidence conv_res) = aggregate_confidence conv_res
  /\ (confidence_pages (confidence other) = confidence_pages (confidence conv_res) ->
      pages conv_res <> [] -> pages other <> [] ->
      confidence (aggregate_confidence other)
      = confidence (aggregate_confidence conv_res)).
Proof.
  split.
  - destruct (decide (0 < length (pages conv_res))%nat) as [Hp|Hp].
    + unfold aggregate_confidence. rewrite (bool_decide_eq_true_2 _ Hp).
      cbn [pages]. by rewrite (bool_decide_eq_true_2 _ Hp).
    + unfold aggregate_confidence. by rewrite !(bool_decide_eq_false_2 _ Hp).
  - intros Heq Hp Ho. unfold aggregate_confidence.
    rewrite !bool_decide_eq_true_2.
    + cbn [confidence]. unfold values, set_ocr_score, set_table_score,
        set_parse_score, set_layout_score.
      cbn [confidence_pages document_scores parse_score layout_score table_score
           ocr_score].
      by rewrite Heq.
    + destruct (pages conv_res); [done|simpl; lia].
    + destruct (pages other); [done|simpl; lia].
Qed.

End facts.

End StandardPdfMoreFacts.

Module StandardPdfAssembleFacts.

Import StandardPdfAssemble.

Lemma append_each_app {E} (acc els : list E) : append_each acc els = acc ++ els.
Proof.
  unfold append_each. revert acc.
  induction els as [|el els IH]; intros acc; simpl; [by rewrite app_nil_r|].
  by rewrite IH, <- app_assoc.
Qed.

(** X24.  The elements, headers and body of the document are those of
    its pages one after the other, in the order of the pages; a page that
    was not assembled adds nothing. *)
Theorem X24_units_in_page_order {E} (assembled : list (option (AssembledUnit E))) :
  let units := omap id assembled in
  elements (assemble_units assembled) = concat (elements <$> units)
  /\ headers (assemble_units assembled) = concat (headers <$> units)
  /\ body (assemble_units assembled) = concat (body <$> units).
Proof.
  intros units. unfold units, assemble_units.
  assert (Hgen : forall es hs bs,
    foldl
      (fun '(all_elements, all_headers, all_body) p_assembled =>
         match p_assembled with
         | Some unit =>
             let all_body := append_each all_body (body unit) in
             let all_headers := append_each all_headers (headers unit) in
             let all_elements := append_each all_elements (elements unit) in
             (all_elements, all_headers, all_body)
         | None => (all_elements, all_headers, all_body)
         end)
      (es, hs, bs) assembled
    = (es ++ concat (elements <$> omap id assembled),
       hs ++ concat (headers <$> omap id assembled),
       bs ++ concat (body <$> omap id assembled))).
  { induction assembled as [|[unit|] assembled IH]; intros es hs bs; csimpl.
    - by rewrite !app_nil_r.
    - rewrite IH, !append_each_app, <- !app_assoc. done.
    - apply IH. }
  by rewrite Hgen.
Qed.

Section images.

Context {imaging : Imaging}.

Lemma page_images_untouched options pages m n :
  (n - 1)%Z ∉ page_no <$> pages ->
  (page_images_loop options pages m).2 !! n = m !! n.
Proof.
  revert m. induction pages as [|p pages IH]; intros m Hn; csimpl; [done|].
  apply not_elem_of_cons in Hn as [Hne Hn].
  destruct (image p) as [im|]; [|done].
  destruct (m !! (page_no p + 1)%Z) as [item|]; [|done].
  rewrite IH by done. apply lookup_insert_ne. lia.
Qed.

Lemma page_images_outcome options pages m :
  (page_images_loop options pages m).1 = None
  <-> Forall (fun p => is_Some (image p) /\ is_Some (m !! (page_no p + 1)%Z)) pages.
Proof.
  revert m. induction pages as [|p pages IH]; intros m; csimpl; [done|].
  rewrite Forall_cons.
  destruct (image p) as [im|]; [|split; [done|by intros [[[] ?] _]]].
  destruct (m !! (page_no p + 1)%Z) as [item|] eqn:Hm;
    [|split; [done|by intros [[_ []] _]]].
  rewrite IH. split.
  - intros H. split; [by eauto|]. eapply Forall_impl; [exact H|].
    intros q [Hi Hs]. split; [done|].
    apply lookup_insert_is_Some in Hs as [<-|[_ Hs]]; [by rewrite Hm|done].
  - intros [_ H]. eapply Forall_impl; [exact H|].
    intros q [Hi Hs]. split; [done|].
    apply lookup_insert_is_Some.
    destruct (decide ((page_no p + 1)%Z = (page_no q + 1)%Z)); [by left|by right].
Qed.

Lemma page_images_stored options pages m p im :
  NoDup (page_no <$> pages) ->
  (page_images_loop options pages m).1 = None ->
  p ∈ pages -> image p = Some im ->
  exists item,
    m !! (page_no p + 1)%Z = Some item
    /\ (page_images_loop options pages m).2 !! (page_no p + 1)%Z
       = Some (set_page_image (from_pil im (dpi (images_scale options))) item).
Proof.
  revert m. induction pages as [|q pages IH]; intros m Hnd Hout Hp Him;
    [by apply elem_of_nil in Hp|].
  csimpl in *. apply NoDup_cons in Hnd as [Hq Hnd].
  destruct (image q) as [imq|] eqn:Hiq; [|done].
  destruct (m !! (page_no q + 1)%Z) as [item|] eqn:Hm; [|done].
  apply elem_of_cons in Hp as [->|Hp].
  - exists item. rewrite Hm. split; [done|].
    rewrite page_images_untouched.
    + rewrite lookup_insert_eq. congruence.
    + by replace (page_no q + 1 - 1)%Z with (page_no q) by lia.
  - assert (Hne : page_no p <> page_no q).
    { intros Heq. apply Hq. rewrite <- Heq. by apply list_elem_of_fmap_2. }
    destruct (IH _ Hnd Hout Hp Him) as (item' & Hl & Hr).
    rewrite lookup_insert_ne in Hl by lia. eauto.
Qed.

(** X25.  The loop that stores the page images ends without an exception
    exactly when every page has an image and the document has a page
    under the page's number plus one.  Whether it ends so or not, a page
    of the document whose number minus one is no page's number is left as
    it was; and if it ends without an exception and no two pages have the
    same number, the document shows for every page, under its number plus
    one, the image of that page at [int(72 * images_scale)] dpi. *)
Theorem X25_page_images options pages doc_pages :
  let result := page_images_loop options pages doc_pages in
  (result.1 = None
   <-> Forall (fun p => is_Some (image p)
                        /\ is_Some (doc_pages !! (page_no p + 1)%Z)) pages)
  /\ (forall n, (n - 1)%Z ∉ page_no <$> pages -> result.2 !! n = doc_pages !! n)
  /\ (NoDup (page_no <$> pages) -> result.1 = None ->
      forall p im, p ∈ pages -> image p = Some im ->
        exists item,
          doc_pages !! (page_no p + 1)%Z = Some item
          /\ result.2 !! (page_no p + 1)%Z
             = Some (set_page_image (from_pil im (dpi (images_scale options))) item)).
Proof.
  intros result. split_and!.
  - apply page_images_outcome.
  - intros n. apply page_images_untouched.
  - intros Hnd Hout p im. by apply page_images_stored.
Qed.

Lemma element_image_spec options pages element :
  match element_image options pages element with
  | inr element' =>
      at_most_image element element'
      /\ (element' <> element -> wants_image options element = true)
  | inl e => e = AssertionError /\ wants_image options element = true
  end.
Proof.
  unfold element_image, wants_image, at_most_image.
  destruct (negb (is_doc_item (kind element)) || bool_decide (length (prov element) = 0%nat));
    simpl; [by split_and!; eauto|].
  destruct (is_picture (kind element) && generate_picture_images options
            || is_table (kind element) && generate_table_images options);
    [|by split_and!; eauto].
  destruct (prov element) as [|prov0 rest] eqn:Hprov; [by split_and!; eauto|].
  destruct (next_page pages _) as [page|]; [|done].
  destruct (size page); [|done]. destruct (image page); [|done].
  simpl. rewrite Hprov. split_and!; eauto.
Qed.

Lemma element_image_unwanted options pages element :
  wants_image options element = false ->
  element_image options pages element = inr element.
Proof.
  unfold element_image, wants_image.
  destruct (negb (is_doc_item (kind element)) || bool_decide (length (prov element) = 0%nat));
    simpl; [done|].
  by intros ->.
Qed.

(** X26.  The loop over the elements of the document gives an image to
    no element but a picture (when picture images are asked for) or a
    table (when table images are asked for) that has a provenance; every
    element keeps its kind and its provenance, the elements keep their
    number and order, and the only exception the loop raises is an
    [AssertionError].  With neither kind of image asked for it changes
    nothing, whatever the pages. *)
Theorem X26_element_images options pages (elements : list Item) :
  let result := element_images_loop options pages elements in
  Forall2 (fun element element' =>
             at_most_image element element'
             /\ (element' <> element -> wants_image options element = true))
    elements result.2
  /\ (forall e, result.1 = Some e -> e = AssertionError)
  /\ (generate_picture_images options = false ->
      generate_table_images options = false ->
      result = (None, elements)).
Proof.
  intros result. unfold result. split_and!.
  - induction elements as [|element rest IH]; simpl; [constructor|].
    pose proof (element_image_spec options pages element) as Hs.
    destruct (element_image options pages element) as [e|element'].
    + simpl. apply Forall2_same_length_lookup_2; [done|].
      intros i x y Hx Hy. simplify_eq. unfold at_most_image. by split_and!; eauto.
    + destruct (element_images_loop options pages rest) as [o rest']. simpl in *.
      by constructor.
  - induction elements as [|element rest IH]; simpl; [done|].
    pose proof (element_image_spec options pages element) as Hs.
    destruct (element_image options pages element) as [e|element'].
    + simpl. intros e' [= <-]. by destruct Hs.
    + destruct (element_images_loop options pages rest) as [o rest']. by simpl in *.
  - intros Hp Ht. induction elements as [|element rest IH]; simpl; [done|].
    rewrite element_image_unwanted, IH; [done|].
    unfold wants_image. rewrite Hp, Ht, !andb_false_r. simpl.
    by rewrite ?andb_false_r.
Qed.

Lemma next_page_found pages page_ix page :
  next_page pages page_ix = Some page -> page ∈ pages /\ page_no page = page_ix.
Proof.
  induction pages as [|p pages IH]; simpl; [done|].
  case_bool_decide as Hp.
  - intros [= <-]. split; [apply list_elem_of_here|done].
  - intros [Hin Hno]%IH. split; [by apply list_elem_of_further|done].
Qed.

(** X27.  Page images and crops agree on the numbering: when the page
    images were stored without an exception and page numbers are not
    repeated, the page from which the image of an element is cut is the
    page whose image the document shows under the page number of the
    element's first provenance; and the element's image is the crop of
    that page image at the box of that provenance. *)
Theorem X27_crop_from_the_page_shown
    options pages doc_pages element prov0 rest page page_size :
  NoDup (page_no <$> pages) ->
  (page_images_loop options pages doc_pages).1 = None ->
  wants_image options element = true ->
  prov element = prov0 :: rest ->
  next_page pages (prov_page_no prov0 - 1) = Some page ->
  size page = Some page_size ->
  exists page_image item,
    image page = Some page_image
    /\ (page_images_loop options pages doc_pages).2 !! prov_page_no prov0
       = Some (set_page_image (from_pil page_image (dpi (images_scale options))) item)
    /\ element_image options pages element
       = inr (set_item_image
                (from_pil (crop page_image (bbox prov0) (images_scale options)
                             (height page_size))
                   (dpi (images_scale options)))
                element).
Proof.
  intros Hnd Hout Hw Hprov Hnext Hsize.
  destruct (next_page_found _ _ _ Hnext) as [Hin Hno].
  pose proof (proj1 (page_images_outcome options pages doc_pages) Hout) as Hall.
  destruct (proj1 (Forall_forall _ _) Hall page Hin) as [[page_image Him] _].
  destruct (page_images_stored options pages doc_pages page page_image
              Hnd Hout Hin Him) as (item & _ & Hstored).
  exists page_image, item. split; [done|]. split.
  - by replace (prov_page_no prov0) with (page_no page + 1)%Z by lia.
  - unfold element_image. unfold wants_image in Hw.
    apply andb_true_iff in Hw as [Hw1 Hw2]. apply negb_true_iff in Hw1.
    by rewrite Hw1, Hw2, Hprov, Hnext, Hsize, Him.
Qed.

Lemma page_images_exceptions options pages m e :
  (page_images_loop options pages m).1 = Some e ->
  e = AssertionError \/ exists key, e = KeyError key.
Proof.
  revert m. induction pages as [|p pages IH]; intros m; csimpl; [done|].
  destruct (image p) as [im|]; [|intros [= <-]; by left].
  destruct (m !! (page_no p + 1)%Z) as [item|]; [apply IH|].
  intros [= <-]. right. eauto.
Qed.

Lemma element_images_length options pages (elements : list Item) :
  length (element_images_loop options pages elements).2 = length elements.
Proof.
  induction elements as [|element rest IH]; simpl; [done|].
  destruct (element_image options pages element) as [e|element']; [done|].
  destruct (element_images_loop options pages rest) as [o rest']. simpl in *.
  by rewrite IH.
Qed.

Lemma element_images_exceptions options pages (elements : list Item) e :
  (element_images_loop options pages elements).1 = Some e -> e = AssertionError.
Proof.
  induction elements as [|element rest IH]; simpl; [done|].
  pose proof (element_image_spec options pages element) as Hs.
  destruct (element_image options pages element) as [e'|element'].
  - simpl. intros [= <-]. by destruct Hs.
  - destruct (element_images_loop options pages rest) as [o rest']. by simpl in *.
Qed.

(** X28.  The image generation as a whole: with none of the three kinds
    of image asked for the document stays as it is and nothing is raised,
    whatever the pages; the document never gains or loses an element; the
    only exceptions are an [AssertionError] and the [KeyError] of a page
    the document does not have; and when storing the page images raises,
    no element is given an image. *)
Theorem X28_image_generation options pages document :
  let result := generate_images options pages document in
  (generate_page_images options = false ->
   generate_picture_images options = false ->
   generate_table_images options = false ->
   result = (None, document))
  /\ length (items result.2) = length (items document)
  /\ (forall e, result.1 = Some e ->
        e = AssertionError \/ exists key, e = KeyError key)
  /\ (generate_page_images options = true ->
      forall e, (page_images_loop options pages (doc_pages document)).1 = Some e ->
        result.1 = Some e /\ items result.2 = items document).
Proof.
  intros result. unfold result, generate_images. split_and!.
  - intros -> -> ->. simpl. by destruct document.
  - destruct (generate_page_images options);
      [destruct (page_images_loop options pages (doc_pages document)) as [[e|] m]|];
      try done;
      (destruct (generate_picture_images options || generate_table_images options);
       [|done]);
      pose proof (element_images_length options pages (items document)) as Hl;
      by destruct (element_images_loop options pages (items document)).
  - intros e.
    assert (Hel : forall m,
      (if generate_picture_images options || generate_table_images options
       then let '(o, items') := element_images_loop options pages (items document) in
            (o, {| doc_pages := m; items := items' |})
       else (None, {| doc_pages := m; items := items document |})).1 = Some e ->
      e = AssertionError \/ (exists key, e = KeyError key)).
    { intros m.
      destruct (generate_picture_images options || generate_table_images options);
        [|done].
      pose proof (element_images_exceptions options pages (items document) e) as He.
      destruct (element_images_loop options pages (items document)) as [o items'].
      simpl in *. by left; auto. }
    destruct (generate_page_images options); [|apply Hel].
    pose proof (page_images_exceptions options pages (doc_pages document)) as Hp.
    destruct (page_images_loop options pages (doc_pages document)) as [[e'|] m];
      [|apply Hel].
    simpl in *. intros [= <-]. by apply Hp.
  - intros -> e.
    destruct (page_images_loop options pages (doc_pages document)) as [o m].
    simpl. by intros ->.
Qed.

End images.

End StandardPdfAssembleFacts.

(** ** The further theorems in the concrete setting *)
Module ScenarioMoreFacts.

Import Converter Scenario ScenarioMore.

Lemma no_constructor_raises f fopt o :
  @format_to_options sequential shared !! f = Some fopt ->
  pipeline_options fopt = Some o ->
  @pipeline_init sequential (pipeline_cls fopt) o = None.
Proof. destruct f; vm_compute; intros; by simplify_eq. Qed.

Lemma shared_cache_empty : @initialized_pipelines sequential shared = ∅.
Proof. by vm_compute. Qed.

Lemma shared_allows_pdf : @allowed sequential shared PDF.
Proof.
  exists [PDF; IMAGE; DOCX]. split; [by vm_compute|].
  by apply (bool_decide_unpack _); vm_compute.
Qed.

Lemma X2_witness :
  @__init__ sequential (Some [PDF; DOCX]) (Some stock_pdf)
  = @__init__ sequential (Some [PDF; DOCX]) None.
Proof.
  apply (proj2 (@ConverterMoreFacts.X2_stock_options_change_nothing sequential
                  (Some [PDF; DOCX]) stock_pdf)).
  unfold stock_pdf. intros f o [<- <-]%lookup_singleton_Some.
  by exists ConverterMore.PdfFormatOption.
Defined.

Lemma X3_witness :
  @ConverterMore.extends sequential shared (@initialize_pipeline sequential PDF shared).2
  /\ exists p,
       @_get_pipeline sequential PDF (@initialize_pipeline sequential PDF shared).2
       = (inr (Some p), (@initialize_pipeline sequential PDF shared).2)
       /\ forall in_doc roe,
            format in_doc = PDF -> @allowed sequential shared PDF ->
            valid in_doc = true ->
            @_process_document sequential in_doc roe
              (@initialize_pipeline sequential PDF shared).2
            = (@execute sequential p in_doc roe,
               (@initialize_pipeline sequential PDF shared).2).
Proof.
  apply (proj2 (proj2 (@ConverterMoreFacts.X3_initialize_pipeline_prewarms sequential
                         shared PDF))).
  by vm_compute.
Defined.

Lemma X4_witness :
  (@ConverterPool.pool_map_scheduled sequential false
     [docx "a.docx"; pdf "a.pdf"] [1; 0]%nat shared).1 !! 0%nat
  = (@pool_map sequential false [docx "a.docx"; pdf "a.pdf"] shared).1 !! 0%nat.
Proof.
  refine (proj2 (proj2 (proj2
    (@ConverterMoreFacts.X4_stream_in_submission_order sequential
       {| path_or_stream_iterator := two_sources;
          limits := {| max_num_pages := 100; max_file_size := 100;
                       page_range := (1, 100)%Z |};
          headers := None |} false shared)))
    _ _ _ [docx "a.docx"; pdf "a.pdf"] [1; 0]%nat 0%nat _).
  - by intros p p' in_doc raises_on_error _ _.
  - intros f f' fopt fopt' o o'.
    destruct f, f'; vm_compute; intros; by simplify_eq.
  - intros k p. rewrite shared_cache_empty. by rewrite lookup_empty.
  - apply perm_swap.
Defined.

Lemma X5_witness :
  outcome (@convert_all sequential two_sources None false 100 100 (1, 100)%Z shared)
  = None
  /\ input <$> yields (@convert_all sequential two_sources None false 100 100
                         (1, 100)%Z shared)
     = [docx "a.docx"; pdf "a.pdf"].
Proof.
  destruct (@ConverterMoreFacts.X5_lenient_one_result_per_document sequential
              two_sources None 100 100 (1, 100)%Z shared) as [Ho Hy].
  - exact no_constructor_raises.
  - intros p d. eexists. split; reflexivity.
  - split; [exact Ho|]. rewrite Hy. by vm_compute.
Defined.

Lemma X7_witness :
  along (fun s => @well_formed sequential s /\ @ConverterMore.keyed_by_content sequential s)
    (@convert_all sequential two_sources None true 100 100 (1, 100)%Z shared).
Proof.
  apply (@ConverterMoreFacts.X7_cache_invariants sequential).
  - split.
    + intros k p. rewrite shared_cache_empty. by rewrite lookup_empty.
    + intros k k' p p'. rewrite shared_cache_empty. by rewrite lookup_empty.
  - intros k p. rewrite shared_cache_empty. by rewrite lookup_empty.
Defined.

Lemma X8_witness :
  drain (@convert_all checking [("broken.pdf", PDF)] None false 100 100
           (1, 100)%Z checked_pdf)
  = ([result_of broken_pdf FAILURE], None, checked_pdf).
Proof.
  apply (proj1 (@ConverterMoreFacts.X8_invalid_documents_meet_no_pipeline checking
                  [("broken.pdf", PDF)] None 100 100 (1, 100)%Z checked_pdf)).
  apply Forall_forall. intros d Hin. vm_compute in Hin.
  apply list_elem_of_singleton in Hin as ->.
  split; [|reflexivity]. exists [PDF]. split; [by vm_compute|].
  by apply (bool_decide_unpack _); vm_compute.
Defined.

Lemma X9_witness :
  @convert sequential ("a.pdf", PDF) None true 100 100 (1, 100)%Z shared
  = @ConverterMore.checked sequential true
      (@_process_document sequential (pdf "a.pdf") true shared).
Proof.
  apply (@ConverterMoreFacts.X9_convert_is_checked_processing sequential).
  by vm_compute.
Defined.

Lemma X10_witness :
  @_get_pipeline sequential IMAGE (@_get_pipeline sequential PDF defaults).2
  = (inr (Some first_pipeline), (@_get_pipeline sequential PDF defaults).2).
Proof.
  apply (@ConverterMoreFacts.X10_default_formats_share_pipelines sequential defaults
           PDF IMAGE default_pdf_option default_pdf_option first_pipeline);
    by vm_compute.
Defined.

Lemma X13_witness :
  (@Tesseract.ocr_rects_loop tess (ocr_model false) tt 0
     (Tesseract.enumerate [blank_rect; text_rect])).1.1 = ocr_model false
  /\ @TesseractPool.new_readers tess
       (@Tesseract.ocr_rects_loop tess (ocr_model false) tt 0
          (Tesseract.enumerate [blank_rect; text_rect])).2 = []
  /\ Forall (fun e => forall r, @TesseractPool.event_reader tess e = Some r ->
                        r = Tesseract.reader (ocr_model false))
       (@Tesseract.ocr_rects_loop tess (ocr_model false) tt 0
          (Tesseract.enumerate [blank_rect; text_rect])).2.
Proof.
  apply (@TesseractPoolFacts.X13_fixed_language_uses_default_reader tess
           (ocr_model false) tt 0%nat [blank_rect; text_rect]).
  reflexivity.
Defined.

Lemma X14_witness :
  Forall (fun e => forall r, @TesseractPool.event_reader tess e = Some r ->
            r = Tesseract.reader (ocr_model true)
            \/ exists lang, Tesseract.reader_lang r = Some lang
                            /\ lang ∈ Tesseract._tesserocr_languages (ocr_model true))
    (@Tesseract.ocr_rects_loop tess (ocr_model true) tt 0
       (Tesseract.enumerate [blank_rect; text_rect])).2.
Proof.
  apply (@TesseractPoolFacts.X14_recognition_on_installed_language tess
           (ocr_model true) tt 0%nat [blank_rect; text_rect]).
  intros script r. simpl. by rewrite lookup_empty.
Defined.

Lemma built_by_init : TesseractMore.__init__ true auto_and_english installed = inr built.
Proof. reflexivity. Qed.

Lemma X18_witness :
  exists kw,
    TesseractMore.reader built = Some kw
    /\ (kw !! "lang" = None <-> TesseractMore.lang auto_and_english = ["auto"])
    /\ (TesseractMore.lang auto_and_english <> ["auto"] ->
        kw !! "lang"
        = Some (TesseractMore.KStr
                  (String.concat "+" (TesseractMore.lang auto_and_english))))
    /\ (TesseractMore.lang auto_and_english = ["auto"] ->
        TesseractMore._is_auto built = true)
    /\ ("auto" ∈ TesseractMore.lang auto_and_english ->
        TesseractMore._is_auto built = true)
    /\ kw !! "psm" = Some (TesseractMore.KPsm TesseractMore.AUTO)
    /\ kw !! "path" = TesseractMore.KStr <$> TesseractMore.path auto_and_english.
Proof.
  apply (TesseractMoreFacts.X18_reader_language auto_and_english installed built).
  exact built_by_init.
Defined.

Lemma X19_witness :
  exists kw,
    TesseractMore.osd_reader built = Some kw
    /\ kw !! "lang" = Some (TesseractMore.KStr "osd")
    /\ kw !! "psm" = Some (TesseractMore.KPsm TesseractMore.AUTO)
    /\ kw !! "init" = Some (TesseractMore.KBool true)
    /\ kw !! "oem" = Some (TesseractMore.KOem TesseractMore.DEFAULT)
    /\ kw !! "path" = TesseractMore.KStr <$> TesseractMore.path auto_and_english.
Proof.
  apply (TesseractMoreFacts.X19_osd_reader_keywords auto_and_english installed built).
  exact built_by_init.
Defined.

Lemma X21_witness :
  (forall i page out,
     [text_page; skewed_page; text_page] !! i = Some page ->
     yields (@TesseractMore.__call__ tess base [text_page; skewed_page; text_page]
               fresh) !! i = Some out ->
     @TesseractMore.ocr_of tess base i page out)
  /\ match outcome (@TesseractMore.__call__ tess base
                      [text_page; skewed_page; text_page] fresh) with
     | None =>
         length (yields (@TesseractMore.__call__ tess base
                           [text_page; skewed_page; text_page] fresh))
         = length [text_page; skewed_page; text_page]
     | Some e =>
         exists page,
           [text_page; skewed_page; text_page]
             !! length (yields (@TesseractMore.__call__ tess base
                                  [text_page; skewed_page; text_page] fresh))
           = Some page
           /\ @TesseractMore.stops_at tess base
                (length (yields (@TesseractMore.__call__ tess base
                                   [text_page; skewed_page; text_page] fresh)))
                page e
     end.
Proof.
  apply (@TesseractMoreFacts.X21_call_yields_a_page_per_page tess base
           [text_page; skewed_page; text_page] fresh).
  - reflexivity.
  - unfold TesseractMore.ready. split_and!; by eexists.
Defined.

Lemma X25_witness :
  exists item,
    blank_pages !! 2%Z = Some item
    /\ (@StandardPdfAssemble.page_images_loop imaging all_images two_pages
          blank_pages).2 !! 2%Z
       = Some (@StandardPdfAssemble.set_page_image imaging
                 (@StandardPdfAssemble.from_pil imaging "second" 144) item).
Proof.
  refine (proj2 (proj2 (@StandardPdfAssembleFacts.X25_page_images imaging all_images
                          two_pages blank_pages))
            _ _ (page_of 1 "second") "second" _ _).
  - by apply (bool_decide_unpack _); vm_compute.
  - by vm_compute.
  - apply list_elem_of_further, list_elem_of_here.
  - reflexivity.
Defined.

Lemma X27_witness :
  exists page_image item,
    StandardPdfAssemble.image (page_of 1 "second") = Some page_image
    /\ (@StandardPdfAssemble.page_images_loop imaging all_images two_pages
          blank_pages).2 !! 2%Z
       = Some (@StandardPdfAssemble.set_page_image imaging
                 (@StandardPdfAssemble.from_pil imaging page_image 144) item)
    /\ @StandardPdfAssemble.element_image imaging all_images two_pages
         picture_on_second
       = inr (@StandardPdfAssemble.set_item_image imaging
                (@StandardPdfAssemble.from_pil imaging
                   (@StandardPdfAssemble.crop imaging page_image "box" 2%Q 792%Q) 144)
                picture_on_second).
Proof.
  apply (@StandardPdfAssembleFacts.X27_crop_from_the_page_shown imaging all_images
           two_pages blank_pages picture_on_second
           second_page_box [] (page_of 1 "second")
           (@StandardPdfAssemble.Build_Size imaging 612%Q 792%Q)).
  - by apply (bool_decide_unpack _); vm_compute.
  - by vm_compute.
  - reflexivity.
  - reflexivity.
  - reflexivity.
  - reflexivity.
Defined.

End ScenarioMoreFacts.
